(** * tinyBLAS (sgemm.cpp): work partitioning, block decoders and dispatch

    A shallow embedding of [ggml/src/ggml-cpu/llamafile/sgemm.cpp].

    Conventions.
    - [int64_t] values are integers of [Z].  Signed overflow is undefined
      behaviour in C++, so signed arithmetic is exact here; [/] and [%] on
      signed operands are [Z.quot] and [Z.rem] (truncation towards zero).
      [size_t] arithmetic wraps modulo [2^64] and is written out.
    - A SIMD register of integers ([__m128i], [__m256i]) is the list of its
      bytes, lowest lane first, each byte a [Z] in [0, 256).  A register of
      floats ([__m128], [__m256]) is the list of its lanes.
    - Single precision floats are an abstract type with the scalar
      operations the kernels use (class [float_ops]); the kernels are
      deterministic functions of these.
    - The output matrix [C] is a finite map from element offsets to floats.
      A kernel produces the list of stores it performs, in program order:
      [W i j v] is the store [C[ldc * j + i] = v]. *)

From Stdlib Require Import ZArith Lia List Bool.
From stdpp Require Import base tactics option list numbers gmap.

Open Scope Z_scope.

(** ** Stores into C *)

Record write (F : Type) := W { w_row : Z; w_col : Z; w_val : F }.
Arguments W {F} _ _ _.
Arguments w_row {F} _.
Arguments w_col {F} _.
Arguments w_val {F} _.

Definition cell {F} (w : write F) : Z * Z := (w_row w, w_col w).

(** [C[ldc * j + i] = v] *)
Definition store {F} (ldc : Z) (C : gmap Z F) (w : write F) : gmap Z F :=
  <[ldc * w_col w + w_row w := w_val w]> C.

Definition apply_writes {F} (ldc : Z) (ws : list (write F)) (C : gmap Z F) : gmap Z F :=
  foldl (store ldc) C ws.

(** The cells of the rectangle [i0, i1) x [j0, j1), column by column. *)
Definition cells (i0 i1 j0 j1 : Z) : list (Z * Z) :=
  j ← seqZ j0 (j1 - j0); i ← seqZ i0 (i1 - i0); [(i, j)].

(** The output grid [0, m) x [0, n). *)
Definition grid (m n : Z) : list (Z * Z) := cells 0 m 0 n.

(** The stores that give every cell of [cs] the value [f] has there. *)
Definition values {F} (f : Z → Z → F) (cs : list (Z * Z)) : list (write F) :=
  (λ c, W c.1 c.2 (f c.1 c.2)) <$> cs.

(** What a call did: it returned [x] after the stores [ws]; or the given
    schedule ended before every worker had returned; or an assertion
    failed (or a division by zero was reached). *)
Inductive outcome (F X : Type) :=
  | Returned (x : X) (ws : list (write F))
  | Unfinished
  | Aborted.
Arguments Returned {F X} _ _.
Arguments Unfinished {F X}.
Arguments Aborted {F X}.

(** ** Loops *)

Fixpoint range_fuel (fuel : nat) (x b step : Z) : list Z :=
  match fuel with
  | O => []
  | S fuel' => if decide (x < b) then x :: range_fuel fuel' (x + step) b step else []
  end.

(** The values taken by [x] in [for (x = a; x < b; x += step)], [step >= 1]. *)
Definition range (a b step : Z) : list Z := range_fuel (Z.to_nat (b - a)) a b step.

(** The value of [x] when that loop is left. *)
Definition range_end (a b step : Z) : Z := a + step * Z.of_nat (length (range a b step)).

(** A two-dimensional local array, and the assignment [a[j][i] = x]. *)
Definition upd2 {X} (a : Z → Z → X) (j i : Z) (x : X) : Z → Z → X :=
  λ j' i', if decide (j' = j ∧ i' = i) then x else a j' i'.

(** ** Floating point matrix multiplication *)

Definition size_t (x : Z) : Z := x `mod` 2 ^ 64.

(** [BLOCK_SIZE<M>(size_t m)]; [None] when [NB_BLOC_M] is zero. *)
Definition BLOCK_SIZE (M m : Z) : option Z :=
  let m := size_t m in
  let NB_BLOC_M := size_t (m + M - 1) `div` size_t M in
  if decide (NB_BLOC_M = 0) then None
  else Some (if decide (m `mod` NB_BLOC_M = 0) then m `div` NB_BLOC_M
             else m `div` NB_BLOC_M + 1).

Definition BLOC_POS (ib ibN bloc_size : Z) : Z :=
  if decide (ib < ibN) then ib * bloc_size
  else ibN * bloc_size + (ib - ibN) * (bloc_size - 1).

(** The arithmetic vocabulary of one instantiation
    [tinyBLAS<KN, D, V, TA, TB, TC>]: typed loads, [madd], the zero
    accumulator of [D Cv[RN][RM] = {}], and [hsum]. *)
Class vocabulary (F TA TB : Type) := {
  V : Type;
  D : Type;
  load_a : (Z → TA) → Z → V;
  load_b : (Z → TB) → Z → V;
  madd : V → V → D → D;
  zero : D;
  hsum : D → F }.

(** The shared thread pool, as the two barriers of [gemm] see it.
    Modelled from the spec: [ggml_threadpool_chunk_set] stores to the
    shared counter and [ggml_threadpool_chunk_add] is an atomic
    fetch-and-add returning the previous value; only their declarations
    are in the source.  A worker is inside the job loop holding [job], or
    has left it and waits at the closing barrier. *)
Inductive worker := Working (job : Z) | Finished.

Record pool (F : Type) := Pool {
  current_chunk : Z;
  workers : list worker;
  log : list (write F);
  failed : bool }.
Arguments Pool {F} _ _ _ _.
Arguments current_chunk {F} _.
Arguments workers {F} _.
Arguments log {F} _.
Arguments failed {F} _.

Definition is_finished (w : worker) : bool :=
  match w with Finished => true | Working _ => false end.

(** The column stripes of [gemm]: their number ("round" bloc_size to
    "nearest" BN), the width of the wide ones, and how many are wide. *)
Definition NB_BN (xtiles BN : Z) : Z :=
  if decide (xtiles < BN) then 1 else (xtiles + BN `quot` 2) `quot` BN.

Definition SIZE_BN (xtiles NB_BN : Z) : Z :=
  if decide (xtiles `rem` NB_BN = 0) then xtiles `quot` NB_BN
  else xtiles `quot` NB_BN + 1.

Definition jj_BN (xtiles NB_BN SIZE_BN : Z) : Z :=
  NB_BN - (NB_BN * SIZE_BN - xtiles).

Module tinyBLAS.
Section kernel.
Context {F TA TB : Type} {voc : vocabulary F TA TB}.
(** template parameter [KN], the macro [VECTOR_REGISTERS], [params->nth]
    and the members of the class *)
Variables (KN VECTOR_REGISTERS nth : Z).
Variables (A : Z → TA) (B : Z → TB) (k lda ldb : Z).

Definition gemm_bloc (RM RN ii jj : Z) : list (write F) :=
  let step (Cv : Z → Z → D) (l : Z) : Z → Z → D :=
    if decide (RM ≤ RN) then
      let Av i := load_a A (lda * (ii + i) + l) in
      foldl (λ Cv j,
               let Bv := load_b B (ldb * (jj + j) + l) in
               foldl (λ Cv i, upd2 Cv j i (madd (Av i) Bv (Cv j i))) Cv (seqZ 0 RM))
            Cv (seqZ 0 RN)
    else
      let Bv j := load_b B (ldb * (jj + j) + l) in
      foldl (λ Cv i,
               let Av := load_a A (lda * (ii + i) + l) in
               foldl (λ Cv j, upd2 Cv j i (madd Av (Bv j) (Cv j i))) Cv (seqZ 0 RN))
            Cv (seqZ 0 RM) in
  let Cv := foldl step (λ _ _, zero) (range 0 k KN) in
  j ← seqZ 0 RN; i ← seqZ 0 RM; [W (ii + i) (jj + j) (hsum (Cv j i))].

(** The value of output cell [(i, j)]: the products are accumulated in
    the order of [l], then summed across lanes. *)
Definition cell_value (i j : Z) : F :=
  hsum (foldl (λ acc l, madd (load_a A (lda * i + l)) (load_b B (ldb * j + l)) acc)
              zero (range 0 k KN)).

(** The body of [while (job < nb_job)] for one job; [None] when
    [GGML_ASSERT(jj == jj2)] fails. *)
Definition job_body (RM RN BM ytiles jj_RN jj_BN SIZE_BN job : Z)
    : option (list (write F)) :=
  let ii := (job `rem` ytiles) * RM * BM in
  let jb := job `quot` ytiles in
  let jr0 := BLOC_POS jb jj_BN SIZE_BN in
  let jrN := BLOC_POS (jb + 1) jj_BN SIZE_BN in
  let jj0 := BLOC_POS jr0 jj_RN RN in
  let jj2 := BLOC_POS jrN jj_RN RN in
  let jj1 := if decide (jj2 < jj_RN * RN) then jj2 else jj_RN * RN in
  foldl (λ acc bi,
           ws ← acc;
           let full := range jj0 jj1 RN in
           let jj := range_end jj0 jj1 RN in
           let tail := if decide (1 < RN) then range jj jj2 (RN - 1) else [] in
           let jj' := if decide (1 < RN) then range_end jj jj2 (RN - 1) else jj in
           if decide (jj' = jj2) then
             Some (ws ++ (full ≫= gemm_bloc RM RN (ii + bi))
                      ++ (tail ≫= gemm_bloc RM (RN - 1) (ii + bi)))
           else None)
        (Some []) (range 0 (BM * RM) RM).

(** One turn of worker [w]: it tests [job < nb_job]; inside the loop it
    runs the job and takes the next id from the shared counter. *)
Definition worker_step (nb_job : Z) (body : Z → option (list (write F)))
    (p : pool F) (w : nat) : pool F :=
  match workers p !! w with
  | Some (Working job) =>
      if decide (job < nb_job) then
        match body job with
        | Some ws =>
            Pool (current_chunk p + 1)
                 (<[w := Working (current_chunk p)]> (workers p))
                 (log p ++ ws) (failed p)
        | None => Pool (current_chunk p) (workers p) (log p) true
        end
      else Pool (current_chunk p) (<[w := Finished]> (workers p)) (log p) (failed p)
  | _ => p
  end.

(** The pool after the opening barrier: thread 0 has set the counter to
    [nth] and every worker starts at its own [ith]. *)
Definition pool_init : pool F :=
  Pool nth (Working <$> seqZ 0 nth) [] false.

Definition pool_result (p : pool F) : outcome F unit :=
  if failed p then Aborted
  else if forallb is_finished (workers p) then Returned () (log p)
  else Unfinished.

(** [gemm<RM, RN, BM>(m, n, BN)] run by all [nth] workers; [sched] lists
    the workers in the order in which they take their turns. *)
Definition gemm (RM RN BM m n BN : Z) (sched : list nat) : outcome F unit :=
  if decide (m `rem` (RM * BM) = 0) then
    let ytiles := m `quot` (RM * BM) in
    let xtiles := (n + RN - 1) `quot` RN in
    let jj_RN := xtiles - (xtiles * RN - n) in
    let NB_BN := NB_BN xtiles BN in
    let SIZE_BN := SIZE_BN xtiles NB_BN in
    let jj_BN := jj_BN xtiles NB_BN SIZE_BN in
    let nb_job := ytiles * NB_BN in
    if decide (jj_BN * SIZE_BN + (NB_BN - jj_BN) * (SIZE_BN - 1) = xtiles) then
      pool_result
        (foldl (worker_step nb_job (job_body RM RN BM ytiles jj_RN jj_BN SIZE_BN))
               pool_init sched)
    else Aborted
  else Aborted.

Fixpoint mnpack (RM : Z) (RN : nat) (BM m n SIZE_N BN : Z) (sched : list nat)
    : outcome F unit :=
  if decide (SIZE_N = Z.of_nat RN) then gemm RM (Z.of_nat RN) BM m n BN sched
  else match RN with
       | S (S _ as RN') => mnpack RM RN' BM m n SIZE_N BN sched
       | _ => Aborted
       end.

(** [mnpack<...>(m, n, SIZE_N, BN); return true;] *)
Definition run (RN : nat) (BM m n BN : Z) (sched : list nat) : outcome F bool :=
  match BLOCK_SIZE (Z.of_nat RN) n with
  | None => Aborted
  | Some SIZE_N =>
      match mnpack 4 RN BM m n SIZE_N BN sched with
      | Returned _ ws => Returned true ws
      | Unfinished => Unfinished
      | Aborted => Aborted
      end
  end.

Definition matmul (m n : Z) (sched : list nat) : outcome F bool :=
  if decide (k `rem` KN ≠ 0) then Returned false []
  else if decide (VECTOR_REGISTERS = 32) then
    if decide (m `rem` 16 = 0 ∧ nth ≤ m `quot` 16) then run 6 4 m n 12 sched
    else if decide (m `rem` 8 = 0) then run 6 2 m n 12 sched
    else if decide (m `rem` 4 = 0) then run 6 1 m n 12 sched
    else Returned false []
  else
    if decide (m `rem` 16 = 0 ∧ nth ≤ m `quot` 16) then run 3 4 m n 24 sched
    else if decide (m `rem` 8 = 0) then run 3 2 m n 24 sched
    else if decide (m `rem` 4 = 0) then run 3 1 m n 24 sched
    else Returned false [].

End kernel.
End tinyBLAS.

(** ** Integer SIMD registers *)

Definition __m128i := list Z.
Definition __m256i := list Z.

(** [n] little-endian bytes of [x] (two's complement for negative [x]). *)
Fixpoint le_bytes (n : nat) (x : Z) : list Z :=
  match n with
  | O => []
  | S n' => x `mod` 256 :: le_bytes n' (x `div` 256)
  end.

Fixpoint le_word (bs : list Z) : Z :=
  match bs with
  | [] => 0
  | b :: bs' => b + 256 * le_word bs'
  end.

(** The signed value of a [bits]-wide lane holding [x]. *)
Definition sint (bits x : Z) : Z :=
  if decide (x < 2 ^ (bits - 1)) then x else x - 2 ^ bits.

Definition saturate16 (x : Z) : Z := Z.max (-32768) (Z.min 32767 x).

Definition _mm_loadu_si128 (p : list Z) : __m128i := take 16 p.
Definition _mm256_loadu_si256 (p : list Z) : __m256i := take 32 p.

Definition _mm_set1_epi8 (c : Z) : __m128i := replicate 16 (c `mod` 256).
Definition _mm256_set1_epi8 (c : Z) : __m256i := replicate 32 (c `mod` 256).
Definition _mm_set1_epi16 (c : Z) : __m128i := mjoin (replicate 8 (le_bytes 2 c)).
Definition _mm256_set1_epi16 (c : Z) : __m256i := mjoin (replicate 16 (le_bytes 2 c)).
Definition _mm_set1_epi32 (c : Z) : __m128i := mjoin (replicate 4 (le_bytes 4 c)).
Definition _mm256_set1_epi32 (c : Z) : __m256i := mjoin (replicate 8 (le_bytes 4 c)).
Definition _mm_set1_epi64x (c : Z) : __m128i := mjoin (replicate 2 (le_bytes 8 c)).
Definition _mm256_set1_epi64x (c : Z) : __m256i := mjoin (replicate 4 (le_bytes 8 c)).
Definition _mm_set_epi64x (e1 e0 : Z) : __m128i := le_bytes 8 e0 ++ le_bytes 8 e1.
Definition _mm256_set_epi64x (e3 e2 e1 e0 : Z) : __m256i :=
  le_bytes 8 e0 ++ le_bytes 8 e1 ++ le_bytes 8 e2 ++ le_bytes 8 e3.
Definition _mm256_setzero_si256 : __m256i := replicate 32 0.

Definition _mm_and_si128 (a b : __m128i) : __m128i := zip_with Z.land a b.
Definition _mm256_and_si256 (a b : __m256i) : __m256i := zip_with Z.land a b.
Definition _mm_or_si128 (a b : __m128i) : __m128i := zip_with Z.lor a b.
Definition _mm256_or_si256 (a b : __m256i) : __m256i := zip_with Z.lor a b.
(** [(~a) & b] *)
Definition _mm_andnot_si128 (a b : __m128i) : __m128i :=
  zip_with (λ x y, Z.land (Z.lnot x) y) a b.
Definition _mm256_andnot_si256 (a b : __m256i) : __m256i :=
  zip_with (λ x y, Z.land (Z.lnot x) y) a b.

Definition _mm_sub_epi8 (a b : __m128i) : __m128i :=
  zip_with (λ x y, (x - y) `mod` 256) a b.
Definition _mm256_sub_epi8 (a b : __m256i) : __m256i :=
  zip_with (λ x y, (x - y) `mod` 256) a b.

Definition _mm_cmpeq_epi8 (a b : __m128i) : __m128i :=
  zip_with (λ x y, if decide (x = y) then 255 else 0) a b.
Definition _mm256_cmpeq_epi8 (a b : __m256i) : __m256i :=
  zip_with (λ x y, if decide (x = y) then 255 else 0) a b.

(** Logical right shift of every 16-bit lane. *)
Fixpoint _mm_srli_epi16 (x : __m128i) (imm : Z) : __m128i :=
  match x with
  | x0 :: x1 :: x' => le_bytes 2 (Z.shiftr (x0 + 256 * x1) imm) ++ _mm_srli_epi16 x' imm
  | _ => []
  end.

(** Byte [i] of the result is zero when bit 7 of control byte [i] is set,
    and byte [c_i & 15] of [a] otherwise. *)
Definition _mm_shuffle_epi8 (a c : __m128i) : __m128i :=
  (λ ci, if decide (Z.land ci 128 = 0) then default 0 (a !! Z.to_nat (Z.land ci 15)) else 0)
    <$> c.
(** The 256-bit form shuffles each 128-bit half on its own. *)
Definition _mm256_shuffle_epi8 (a c : __m256i) : __m256i :=
  _mm_shuffle_epi8 (take 16 a) (take 16 c) ++ _mm_shuffle_epi8 (drop 16 a) (drop 16 c).

(** The upper half of a cast register is undefined; it reads as zero here. *)
Definition _mm256_castsi128_si256 (x : __m128i) : __m256i := x ++ replicate 16 0.
(** [_mm256_insertf128_si256(a, b, 1)] *)
Definition _mm256_insertf128_si256_1 (a : __m256i) (b : __m128i) : __m256i :=
  take 16 a ++ b.
Definition MM256_SET_M128I (a b : __m128i) : __m256i :=
  _mm256_insertf128_si256_1 (_mm256_castsi128_si256 b) a.

(** Negate, zero or keep byte [x] as the signed byte [y] is negative, zero
    or positive. *)
Definition sign_byte (x y : Z) : Z :=
  if decide (sint 8 y < 0) then (- sint 8 x) `mod` 256
  else if decide (y = 0) then 0 else x.
Definition _mm_sign_epi8 (a b : __m128i) : __m128i := zip_with sign_byte a b.
Definition _mm256_sign_epi8 (a b : __m256i) : __m256i := zip_with sign_byte a b.

(** Unsigned bytes of [a] times signed bytes of [b], adjacent products
    added with signed saturation into 16-bit lanes. *)
Fixpoint _mm_maddubs_epi16 (a b : __m128i) : __m128i :=
  match a, b with
  | a0 :: a1 :: a', b0 :: b1 :: b' =>
      le_bytes 2 (saturate16 (a0 * sint 8 b0 + a1 * sint 8 b1)) ++ _mm_maddubs_epi16 a' b'
  | _, _ => []
  end.
Definition _mm256_maddubs_epi16 (a b : __m256i) : __m256i := _mm_maddubs_epi16 a b.

(** Signed 16-bit lanes multiplied, adjacent products added into 32-bit
    lanes. *)
Fixpoint _mm_madd_epi16 (a b : __m128i) : __m128i :=
  match a, b with
  | a0 :: a1 :: a2 :: a3 :: a', b0 :: b1 :: b2 :: b3 :: b' =>
      le_bytes 4 (sint 16 (a0 + 256 * a1) * sint 16 (b0 + 256 * b1)
                  + sint 16 (a2 + 256 * a3) * sint 16 (b2 + 256 * b3))
        ++ _mm_madd_epi16 a' b'
  | _, _ => []
  end.
Definition _mm256_madd_epi16 (a b : __m256i) : __m256i := _mm_madd_epi16 a b.

(** VPDPBUSD: four unsigned-by-signed byte products added to each 32-bit
    lane of [src], without saturation. *)
Fixpoint _mm256_dpbusd_epi32 (src a b : __m256i) : __m256i :=
  match src, a, b with
  | s0 :: s1 :: s2 :: s3 :: src', a0 :: a1 :: a2 :: a3 :: a', b0 :: b1 :: b2 :: b3 :: b' =>
      le_bytes 4 (le_word [s0; s1; s2; s3]
                  + a0 * sint 8 b0 + a1 * sint 8 b1 + a2 * sint 8 b2 + a3 * sint 8 b3)
        ++ _mm256_dpbusd_epi32 src' a' b'
  | _, _, _ => []
  end.
(** The AVX-VNNI encoding of the same instruction. *)
Definition _mm256_dpbusd_avx_epi32 (src a b : __m256i) : __m256i :=
  _mm256_dpbusd_epi32 src a b.

(** ** Float SIMD registers *)

(** Scalar single precision operations.  [cvtph] is one lane of the F16C
    conversion [_mm_cvtph_ps]; [GGML_FP16_TO_FP32] is the macro behind
    [unhalf], which is defined outside this source file. *)
Class float_ops (F : Type) := {
  fzero : F;
  fadd : F → F → F;
  fmul : F → F → F;
  ffma : F → F → F → F;
  i32_to_f32 : Z → F;
  cvtph : Z → F;
  GGML_FP16_TO_FP32 : Z → F }.

(** The compile-time feature macros the file tests.  [__MMA__] is left
    out: the PowerPC kernel classes it selects are not in this file, so
    the file only builds with [__MMA__] undefined. *)
Record target := Target {
  __AVX__ : bool;
  __AVX2__ : bool;
  __AVX512F__ : bool;
  __AVX512BF16__ : bool;
  __AVX512VNNI__ : bool;
  __AVX512VL__ : bool;
  __AVXVNNI__ : bool;
  __F16C__ : bool;
  __FMA__ : bool;
  __ARM_NEON : bool;
  __VXE__ : bool;
  __VXE2__ : bool }.

Definition VECTOR_REGISTERS (tgt : target) : Z :=
  if __ARM_NEON tgt || __AVX512F__ tgt || __VXE__ tgt || __VXE2__ tgt then 32 else 16.

Section float_simd.
Context {F : Type} {fo : float_ops F}.

Definition __m128 := list F.
Definition __m256 := list F.

Definition unhalf (d : Z) : F := GGML_FP16_TO_FP32 d.

Definition _mm_add_ps (x y : __m128) : __m128 := zip_with fadd x y.
Definition _mm_mul_ps (x y : __m128) : __m128 := zip_with fmul x y.
Definition _mm256_add_ps (x y : __m256) : __m256 := zip_with fadd x y.
Definition _mm256_mul_ps (x y : __m256) : __m256 := zip_with fmul x y.
Definition _mm256_fmadd_ps (a b c : __m256) : __m256 :=
  zip_with (λ ab c, ffma ab.1 ab.2 c) (zip a b) c.

Definition _mm_set1_ps (x : F) : __m128 := replicate 4 x.
Definition _mm256_set1_ps (x : F) : __m256 := replicate 8 x.
Definition _mm256_setzero_ps : __m256 := replicate 8 fzero.

(** [(b2, b3, a2, a3)] *)
Definition _mm_movehl_ps (a b : __m128) : __m128 := take 2 (drop 2 b) ++ drop 2 a.
(** [(x1, x1, x3, x3)] *)
Definition _mm_movehdup_ps (x : __m128) : __m128 :=
  match x with
  | [x0; x1; x2; x3] => [x1; x1; x3; x3]
  | _ => x
  end.
Definition _mm_add_ss (a b : __m128) : __m128 :=
  match a, b with
  | a0 :: a', b0 :: _ => fadd a0 b0 :: a'
  | _, _ => a
  end.
Definition _mm_cvtss_f32 (x : __m128) : F := default fzero (head x).

Definition _mm256_extractf128_ps (x : __m256) (imm : Z) : __m128 :=
  if decide (imm = 0) then take 4 x else drop 4 x.
Definition _mm256_castps256_ps128 (x : __m256) : __m128 := take 4 x.
(** The upper half of a cast register is undefined; it reads as zero here. *)
Definition _mm256_castps128_ps256 (x : __m128) : __m256 := x ++ replicate 4 fzero.

Definition _mm256_permute2f128_ps (a b : __m256) (imm : Z) : __m256 :=
  let sel c :=
    if Z.testbit c 3 then replicate 4 fzero
    else match Z.land c 3 with
         | 0 => take 4 a
         | 1 => drop 4 a
         | 2 => take 4 b
         | _ => drop 4 b
         end in
  sel (Z.land imm 15) ++ sel (Z.shiftr imm 4).

Definition _mm256_shuffle_ps (a b : __m256) (imm : Z) : __m256 :=
  let pick (x : list F) (c : Z) := default fzero (x !! Z.to_nat (Z.land c 3)) in
  let half (a b : list F) :=
    [pick a imm; pick a (Z.shiftr imm 2); pick b (Z.shiftr imm 4); pick b (Z.shiftr imm 6)] in
  half (take 4 a) (take 4 b) ++ half (drop 4 a) (drop 4 b).

(** The four half precision lanes in the low 64 bits, widened. *)
Definition _mm_cvtph_ps (v : __m128i) : __m128 :=
  (λ i, cvtph (le_word (take 2 (drop (2 * i) v)))) <$> seq 0 4.

Fixpoint _mm256_cvtepi32_ps (v : __m256i) : __m256 :=
  match v with
  | b0 :: b1 :: b2 :: b3 :: v' =>
      i32_to_f32 (sint 32 (le_word [b0; b1; b2; b3])) :: _mm256_cvtepi32_ps v'
  | _ => []
  end.

(** [madd] on [__m256]: the [__FMA__] specialisation, else the generic
    template [add(mul(a, b), c)]. *)
Definition madd256 (tgt : target) (a b c : __m256) : __m256 :=
  if __FMA__ tgt then _mm256_fmadd_ps a b c else _mm256_add_ps (_mm256_mul_ps a b) c.

(** [hsum(__m128)], the branch compiled when AVX is enabled *)
Definition hsum128 (x : __m128) : F :=
  let x := _mm_add_ps x (_mm_movehl_ps x x) in
  let x := _mm_add_ss x (_mm_movehdup_ps x) in
  _mm_cvtss_f32 x.

Definition hsum256 (x : __m256) : F :=
  hsum128 (_mm_add_ps (_mm256_extractf128_ps x 1) (_mm256_castps256_ps128 x)).
End float_simd.

(** ** Quantised blocks

    Modelled from the spec: the block structures are declared in a header
    that is not part of the source; their fields follow the layouts of the
    specification (f16 delta [d], packed payload [qs], and for q5_0 the
    four bytes [qh] of fifth bits).  The f16 delta is its 16-bit pattern. *)

Module block_q8_0.
Record t := mk { d : Z; qs : list Z }.
End block_q8_0.

Module block_q4_0.
Record t := mk { d : Z; qs : list Z }.
End block_q4_0.

Module block_q5_0.
Record t := mk { d : Z; qh : list Z; qs : list Z }.
End block_q5_0.

Module block_iq4_nl.
Record t := mk { d : Z; qs : list Z }.
End block_iq4_nl.

(** What the quantised kernels use of a block type: the member [d] and
    the overloads [load], [load0], [load1]. *)
Class block (T : Type) := {
  d : T → Z;
  load : T → __m256i;
  load0 : T → __m128i;
  load1 : T → __m128i }.

Definition kvalues_iq4nl : list Z :=
  [-127; -104; -83; -65; -49; -35; -22; -10; 1; 13; 25; 38; 53; 69; 89; 113].

(** [iq4nlt], the sixteen bytes loaded from [kvalues_iq4nl] *)
Definition iq4nlt : __m128i := (λ v, v `mod` 256) <$> kvalues_iq4nl.

Definition denibble (p : list Z) : __m256i :=
  let x := _mm_loadu_si128 p in
  _mm256_and_si256 (_mm256_set1_epi8 15)
    (_mm256_insertf128_si256_1 (_mm256_castsi128_si256 x) (_mm_srli_epi16 x 4)).

(** [memcpy(&x32, p, sizeof(uint32_t))] on a little-endian machine *)
Definition memcpy_u32 (p : list Z) : Z := le_word (take 4 p).

Definition bittobyte (p : list Z) : __m256i :=
  let x32 := memcpy_u32 p in
  let bytes :=
    _mm256_cmpeq_epi8 (_mm256_set1_epi64x (-1))
      (_mm256_or_si256 (_mm256_set1_epi64x 0x7fbfdfeff7fbfdfe)
         (_mm256_shuffle_epi8 (_mm256_set1_epi32 x32)
            (_mm256_set_epi64x 0x0303030303030303 0x0202020202020202
                               0x0101010101010101 0x0000000000000000))) in
  _mm256_andnot_si256 bytes (_mm256_set1_epi8 0xF0).

Instance load_q8_0 : block block_q8_0.t := {|
  d := block_q8_0.d;
  load b := _mm256_loadu_si256 (block_q8_0.qs b);
  load0 b := _mm_loadu_si128 (block_q8_0.qs b);
  load1 b := _mm_loadu_si128 (drop 16 (block_q8_0.qs b)) |}.

Instance load_q4_0 : block block_q4_0.t := {|
  d := block_q4_0.d;
  load b := _mm256_sub_epi8 (denibble (block_q4_0.qs b)) (_mm256_set1_epi8 8);
  load0 b :=
    let x := _mm_loadu_si128 (block_q4_0.qs b) in
    _mm_sub_epi8 (_mm_and_si128 (_mm_set1_epi8 15) x) (_mm_set1_epi8 8);
  load1 b :=
    let x := _mm_loadu_si128 (block_q4_0.qs b) in
    _mm_sub_epi8 (_mm_and_si128 (_mm_set1_epi8 15) (_mm_srli_epi16 x 4)) (_mm_set1_epi8 8) |}.

Instance load_q5_0 : block block_q5_0.t := {|
  d := block_q5_0.d;
  load b := _mm256_or_si256 (denibble (block_q5_0.qs b)) (bittobyte (block_q5_0.qh b));
  load0 b :=
    let x := _mm_loadu_si128 (block_q5_0.qs b) in
    let x32 := memcpy_u32 (block_q5_0.qh b) in
    let qxl := _mm_and_si128 (_mm_set1_epi8 15) x in
    let bytesl :=
      _mm_cmpeq_epi8 (_mm_set1_epi64x (-1))
        (_mm_or_si128 (_mm_set1_epi64x 0x7fbfdfeff7fbfdfe)
           (_mm_shuffle_epi8 (_mm_set1_epi32 x32)
              (_mm_set_epi64x 0x0101010101010101 0x0000000000000000))) in
    let bytesl := _mm_andnot_si128 bytesl (_mm_set1_epi8 0xF0) in
    _mm_or_si128 qxl bytesl;
  load1 b :=
    let x := _mm_loadu_si128 (block_q5_0.qs b) in
    let x32 := memcpy_u32 (block_q5_0.qh b) in
    let qxh := _mm_and_si128 (_mm_set1_epi8 15) (_mm_srli_epi16 x 4) in
    let bytesh :=
      _mm_cmpeq_epi8 (_mm_set1_epi64x (-1))
        (_mm_or_si128 (_mm_set1_epi64x 0x7fbfdfeff7fbfdfe)
           (_mm_shuffle_epi8 (_mm_set1_epi32 x32)
              (_mm_set_epi64x 0x0303030303030303 0x0202020202020202))) in
    let bytesh := _mm_andnot_si128 bytesh (_mm_set1_epi8 0xF0) in
    _mm_or_si128 qxh bytesh |}.

Definition load0_iq4_nl (b : block_iq4_nl.t) : __m128i :=
  let x := _mm_loadu_si128 (block_iq4_nl.qs b) in
  _mm_shuffle_epi8 iq4nlt (_mm_and_si128 (_mm_set1_epi8 15) x).

Definition load1_iq4_nl (b : block_iq4_nl.t) : __m128i :=
  let x := _mm_loadu_si128 (block_iq4_nl.qs b) in
  _mm_shuffle_epi8 iq4nlt (_mm_and_si128 (_mm_set1_epi8 15) (_mm_srli_epi16 x 4)).

Instance load_iq4_nl : block block_iq4_nl.t := {|
  d := block_iq4_nl.d;
  load b := MM256_SET_M128I (load1_iq4_nl b) (load0_iq4_nl b);
  load0 := load0_iq4_nl;
  load1 := load1_iq4_nl |}.

(** ** Quant zero matrix multiplication *)

Definition MIN (a b : Z) : Z := if decide (a < b) then a else b.

(** The kernels [mnpack] can call. *)
Inductive tile_kernel :=
  | k_gemm (RM RN : Z)
  | k_gemm4xN (RN : Z)
  | k_gemmMx4 (RM : Z).

Module tinyBLAS_Q0_AVX.
Section kernel.
Context {F : Type} {fo : float_ops F} (tgt : target).
Context {TA TB : Type} {blkA : block TA} {blkB : block TB}.
Variables (A : Z → TA) (B : Z → TB) (k lda ldb : Z) (ith nth : Z).

Definition updot (u s : __m256i) : __m256 :=
  let res :=
    if __AVX512VNNI__ tgt && __AVX512VL__ tgt then
      _mm256_dpbusd_epi32 _mm256_setzero_si256 u s
    else if __AVXVNNI__ tgt then
      _mm256_dpbusd_avx_epi32 _mm256_setzero_si256 u s
    else
      _mm256_madd_epi16 (_mm256_set1_epi16 1) (_mm256_maddubs_epi16 u s) in
  _mm256_cvtepi32_ps res.

(** The dot product of blocks [A[a]] and [B[b]] inside [gemm]. *)
Definition udTmp (a b : Z) : __m256 :=
  if __AVX2__ tgt then
    updot (_mm256_sign_epi8 (load (A a)) (load (A a)))
          (_mm256_sign_epi8 (load (B b)) (load (A a)))
  else
    let ali0 := load0 (A a) in
    let ali1 := load1 (A a) in
    let blj0 := load0 (B b) in
    let blj1 := load1 (B b) in
    let sepAA0 := _mm_sign_epi8 ali0 ali0 in
    let sepAA1 := _mm_sign_epi8 ali1 ali1 in
    let sepBA0 := _mm_sign_epi8 blj0 ali0 in
    let sepBA1 := _mm_sign_epi8 blj1 ali1 in
    let oneFill := _mm_set1_epi16 1 in
    let mad0 := _mm_maddubs_epi16 sepAA0 sepBA0 in
    let mad1 := _mm_maddubs_epi16 sepAA1 sepBA1 in
    _mm256_cvtepi32_ps
      (MM256_SET_M128I (_mm_madd_epi16 oneFill mad1) (_mm_madd_epi16 oneFill mad0)).

(** The jobs of worker [ith]: [for (job = start; job < end; ++job)]. *)
Definition jobs (tiles : Z) : list Z :=
  let duty := (tiles + nth - 1) `quot` nth in
  let start := duty * ith in
  let end0 := start + duty in
  let end_ := if decide (end0 > tiles) then tiles else end0 in
  seqZ start (end_ - start).

Definition gemm (RM RN m0 m n0 n : Z) : list (write F) :=
  let ytiles := (m - m0) `quot` RM in
  let xtiles := (n - n0) `quot` RN in
  let tiles := xtiles * ytiles in
  job ← jobs tiles;
  let ii := m0 + job `quot` xtiles * RM in
  let jj := n0 + job `rem` xtiles * RN in
  let Cv :=
    foldl (λ Cv l,
      foldl (λ Cv j,
        foldl (λ Cv i,
          upd2 Cv j i
            (madd256 tgt
               (_mm256_set1_ps (fmul (unhalf (d (A (lda * (ii + i) + l))))
                                     (unhalf (d (B (ldb * (jj + j) + l))))))
               (udTmp (lda * (ii + i) + l) (ldb * (jj + j) + l))
               (Cv j i)))
          Cv (seqZ 0 RM))
        Cv (seqZ 0 RN))
      (λ _ _, _mm256_setzero_ps) (seqZ 0 k) in
  j ← seqZ 0 RN; i ← seqZ 0 RM; [W (ii + i) (jj + j) (hsum256 (Cv j i))].

(** The value of output cell [(i, j)]: the scaled block dot products are
    accumulated in the order of [l], then summed across lanes. *)
Definition cell_value (i j : Z) : F :=
  hsum256
    (foldl (λ acc l,
              madd256 tgt
                (_mm256_set1_ps (fmul (unhalf (d (A (lda * i + l))))
                                      (unhalf (d (B (ldb * j + l))))))
                (udTmp (lda * i + l) (ldb * j + l))
                acc)
           _mm256_setzero_ps (seqZ 0 k)).

Definition u64 (x : Z) : Z := x `mod` 2 ^ 64.

Definition gemm4xN (RN m0 m n0 n : Z) : list (write F) :=
  let ytiles := (m - m0) `quot` 4 in
  let xtiles := (n - n0) `quot` RN in
  let tiles := xtiles * ytiles in
  job ← jobs tiles;
  let ii := m0 + job `quot` xtiles * 4 in
  let jj := n0 + job `rem` xtiles * RN in
  let Cv :=
    foldl (λ Cv l,
      let a_delta :=
        Z.lor (Z.lor (Z.lor (u64 (Z.shiftl (d (A (lda * (ii + 3) + l))) 48))
                            (u64 (Z.shiftl (d (A (lda * (ii + 2) + l))) 32)))
                     (u64 (Z.shiftl (d (A (lda * (ii + 1) + l))) 16)))
              (d (A (lda * (ii + 0) + l))) in
      let da := _mm_cvtph_ps (_mm_set_epi64x 0 a_delta) in
      let avec0 := load (A (lda * (ii + 0) + l)) in
      let avec1 := load (A (lda * (ii + 1) + l)) in
      let avec2 := load (A (lda * (ii + 2) + l)) in
      let avec3 := load (A (lda * (ii + 3) + l)) in
      foldl (λ Cv j,
        let db := _mm_set1_ps (unhalf (d (B (ldb * (jj + j) + l)))) in
        let dvec := _mm256_castps128_ps256 (_mm_mul_ps da db) in
        let dvec := _mm256_permute2f128_ps dvec dvec 0 in
        let Cv := upd2 Cv j 0
          (madd256 tgt (_mm256_shuffle_ps dvec dvec 0)
             (updot (_mm256_sign_epi8 avec0 avec0)
                    (_mm256_sign_epi8 (load (B (ldb * (jj + j) + l))) avec0))
             (Cv j 0)) in
        let Cv := upd2 Cv j 1
          (madd256 tgt (_mm256_shuffle_ps dvec dvec 85)
             (updot (_mm256_sign_epi8 avec1 avec1)
                    (_mm256_sign_epi8 (load (B (ldb * (jj + j) + l))) avec1))
             (Cv j 1)) in
        let Cv := upd2 Cv j 2
          (madd256 tgt (_mm256_shuffle_ps dvec dvec 170)
             (updot (_mm256_sign_epi8 avec2 avec2)
                    (_mm256_sign_epi8 (load (B (ldb * (jj + j) + l))) avec2))
             (Cv j 2)) in
        upd2 Cv j 3
          (madd256 tgt (_mm256_shuffle_ps dvec dvec 255)
             (updot (_mm256_sign_epi8 avec3 avec3)
                    (_mm256_sign_epi8 (load (B (ldb * (jj + j) + l))) avec3))
             (Cv j 3)))
        Cv (seqZ 0 RN))
      (λ _ _, _mm256_setzero_ps) (seqZ 0 k) in
  j ← seqZ 0 RN; i ← seqZ 0 4; [W (ii + i) (jj + j) (hsum256 (Cv j i))].

Definition gemmMx4 (RM m0 m n0 n : Z) : list (write F) :=
  let ytiles := (m - m0) `quot` RM in
  let xtiles := (n - n0) `quot` 4 in
  let tiles := xtiles * ytiles in
  job ← jobs tiles;
  let ii := m0 + job `quot` xtiles * RM in
  let jj := n0 + job `rem` xtiles * 4 in
  let Cv :=
    foldl (λ Cv l,
      let b_delta :=
        Z.lor (Z.lor (Z.lor (u64 (Z.shiftl (d (B (ldb * (jj + 3) + l))) 48))
                            (u64 (Z.shiftl (d (B (ldb * (jj + 2) + l))) 32)))
                     (u64 (Z.shiftl (d (B (ldb * (jj + 1) + l))) 16)))
              (d (B (ldb * (jj + 0) + l))) in
      let db := _mm_cvtph_ps (_mm_set_epi64x 0 b_delta) in
      let bvec0 := load (B (ldb * (jj + 0) + l)) in
      let bvec1 := load (B (ldb * (jj + 1) + l)) in
      let bvec2 := load (B (ldb * (jj + 2) + l)) in
      let bvec3 := load (B (ldb * (jj + 3) + l)) in
      foldl (λ Cv i,
        let da := _mm_set1_ps (unhalf (d (A (lda * (ii + i) + l)))) in
        let dvec := _mm256_castps128_ps256 (_mm_mul_ps da db) in
        let dvec := _mm256_permute2f128_ps dvec dvec 0 in
        let Cv := upd2 Cv 0 i
          (madd256 tgt (_mm256_shuffle_ps dvec dvec 0)
             (updot (_mm256_sign_epi8 (load (A (lda * (ii + i) + l)))
                                      (load (A (lda * (ii + i) + l))))
                    (_mm256_sign_epi8 bvec0 (load (A (lda * (ii + i) + l)))))
             (Cv 0 i)) in
        let Cv := upd2 Cv 1 i
          (madd256 tgt (_mm256_shuffle_ps dvec dvec 85)
             (updot (_mm256_sign_epi8 (load (A (lda * (ii + i) + l)))
                                      (load (A (lda * (ii + i) + l))))
                    (_mm256_sign_epi8 bvec1 (load (A (lda * (ii + i) + l)))))
             (Cv 1 i)) in
        let Cv := upd2 Cv 2 i
          (madd256 tgt (_mm256_shuffle_ps dvec dvec 170)
             (updot (_mm256_sign_epi8 (load (A (lda * (ii + i) + l)))
                                      (load (A (lda * (ii + i) + l))))
                    (_mm256_sign_epi8 bvec2 (load (A (lda * (ii + i) + l)))))
             (Cv 2 i)) in
        upd2 Cv 3 i
          (madd256 tgt (_mm256_shuffle_ps dvec dvec 255)
             (updot (_mm256_sign_epi8 (load (A (lda * (ii + i) + l)))
                                      (load (A (lda * (ii + i) + l))))
                    (_mm256_sign_epi8 bvec3 (load (A (lda * (ii + i) + l)))))
             (Cv 3 i)))
        Cv (seqZ 0 RM))
      (λ _ _, _mm256_setzero_ps) (seqZ 0 k) in
  j ← seqZ 0 4; i ← seqZ 0 RM; [W (ii + i) (jj + j) (hsum256 (Cv j i))].

Definition run_kernel (kn : tile_kernel) (m0 m n0 n : Z) : list (write F) :=
  match kn with
  | k_gemm RM RN => gemm RM RN m0 m n0 n
  | k_gemm4xN RN => gemm4xN RN m0 m n0 n
  | k_gemmMx4 RM => gemmMx4 RM m0 m n0 n
  end.

(** [#if defined(__AVX2__) && defined(__F16C__)] *)
Definition fast : bool := __AVX2__ tgt && __F16C__ tgt.

(** The [switch] of [mnpack]: for a key, the values given to [mc] and
    [nc] and the kernel called; [None] is the [default] case. *)
Definition select (key : Z) : option (Z * Z * tile_kernel) :=
  if decide (VECTOR_REGISTERS tgt = 32) then
    match key with
    | 0x44 => Some (4, 4, if fast then k_gemm4xN 4 else k_gemm 4 4)
    | 0x43 => Some (4, 3, if fast then k_gemm4xN 3 else k_gemm 4 3)
    | 0x34 => Some (3, 4, if fast then k_gemmMx4 3 else k_gemm 3 4)
    | 0x33 => Some (3, 3, k_gemm 3 3)
    | 0x42 => Some (4, 2, if fast then k_gemm4xN 2 else k_gemm 4 2)
    | 0x24 => Some (2, 4, if fast then k_gemmMx4 2 else k_gemm 2 4)
    | 0x32 => Some (3, 2, k_gemm 3 2)
    | 0x23 => Some (2, 3, k_gemm 2 3)
    | 0x41 => Some (4, 1, if fast then k_gemm4xN 1 else k_gemm 4 1)
    | 0x22 => Some (2, 2, k_gemm 2 2)
    | 0x14 => Some (1, 4, if fast then k_gemmMx4 1 else k_gemm 1 4)
    | 0x31 => Some (3, 1, k_gemm 3 1)
    | 0x13 => Some (1, 3, k_gemm 1 3)
    | 0x21 => Some (2, 1, k_gemm 2 1)
    | 0x12 => Some (1, 2, k_gemm 1 2)
    | 0x11 => Some (1, 1, k_gemm 1 1)
    | _ => None
    end
  else
    match key with
    | 0x44 | 0x43 | 0x42 => Some (4, 2, if fast then k_gemm4xN 2 else k_gemm 4 2)
    | 0x34 | 0x24 => Some (2, 4, if fast then k_gemmMx4 2 else k_gemm 2 4)
    | 0x33 | 0x32 => Some (3, 2, k_gemm 3 2)
    | 0x23 => Some (2, 3, k_gemm 2 3)
    | 0x41 => Some (4, 1, if fast then k_gemm4xN 1 else k_gemm 4 1)
    | 0x22 => Some (2, 2, k_gemm 2 2)
    | 0x14 => Some (1, 4, if fast then k_gemmMx4 1 else k_gemm 1 4)
    | 0x31 => Some (3, 1, k_gemm 3 1)
    | 0x13 => Some (1, 3, k_gemm 1 3)
    | 0x21 => Some (2, 1, k_gemm 2 1)
    | 0x12 => Some (1, 2, k_gemm 1 2)
    | 0x11 => Some (1, 1, k_gemm 1 1)
    | _ => None
    end.

(** [mnpack(m0, m, n0, n)] as run by worker [ith]; [fuel] bounds the
    depth of the recursion and [None] means it was too small. *)
Fixpoint mnpack (fuel : nat) (m0 m n0 n : Z) : option (list (write F)) :=
  match fuel with
  | O => None
  | S fuel' =>
      match select (Z.lor (Z.shiftl (MIN (m - m0) 4) 4) (MIN (n - n0) 4)) with
      | None => Some []
      | Some (mc, nc, kn) =>
          let ws := run_kernel kn m0 m n0 n in
          let mp := m0 + (m - m0) `quot` mc * mc in
          let np := n0 + (n - n0) `quot` nc * nc in
          ws1 ← mnpack fuel' mp m n0 np;
          ws2 ← mnpack fuel' m0 m np n;
          Some (ws ++ ws1 ++ ws2)
      end
  end.

(** Fuel that is enough for [mnpack(m0, m, n0, n)]. *)
Definition mnpack_fuel (m0 m n0 n : Z) : nat := S (Z.to_nat ((m - m0) + (n - n0))).

Definition matmul (m n : Z) : option (list (write F)) :=
  mnpack (mnpack_fuel 0 m 0 n) 0 m 0 n.

End kernel.
End tinyBLAS_Q0_AVX.

(** ** The entry point *)

(** Modelled from the spec: the type tags are an enumeration shared with
    the host, declared outside the source; the seven tags the dispatcher
    names, and any other tag. *)
Inductive ggml_type :=
  | GGML_TYPE_F32
  | GGML_TYPE_F16
  | GGML_TYPE_BF16
  | GGML_TYPE_Q8_0
  | GGML_TYPE_Q4_0
  | GGML_TYPE_Q5_0
  | GGML_TYPE_IQ4_NL
  | GGML_TYPE_other (tag : Z).

Instance ggml_type_eq_dec : EqDecision ggml_type.
Proof. solve_decision. Defined.

(** An operand arrives as [const void *]; each cast of the dispatcher
    reads it through one of these views. *)
Record operand (F : Type) := Operand {
  as_float : Z → F;
  as_fp16 : Z → Z;
  as_bf16 : Z → Z;
  as_q8_0 : Z → block_q8_0.t;
  as_q4_0 : Z → block_q4_0.t;
  as_q5_0 : Z → block_q5_0.t;
  as_iq4_nl : Z → block_iq4_nl.t }.
Arguments as_float {F} _.
Arguments as_fp16 {F} _.
Arguments as_bf16 {F} _.
Arguments as_q8_0 {F} _.
Arguments as_q4_0 {F} _.
Arguments as_q5_0 {F} _.
Arguments as_iq4_nl {F} _.

(** The vocabularies of the instantiations [tinyBLAS<KN, ...>] the
    dispatcher makes, by element type and lane count [KN]. *)
Class vocabularies (F : Type) := {
  voc_f32 : Z → vocabulary F F F;
  voc_bf16 : Z → vocabulary F Z Z;
  voc_fp16 : Z → vocabulary F Z Z }.

Section dispatcher.
Context {F : Type} {fo : float_ops F} {vs : vocabularies F} (tgt : target).

(** [tinyBLAS_Q0_AVX<TA, block_q8_0, float> tb{...}; tb.matmul(m, n);
    return true;] by every worker [ith] of [0 .. nth-1]. *)
Definition Q0_AVX {TA : Type} {blkA : block TA}
    (A : Z → TA) (B : Z → block_q8_0.t) (k lda ldb nth m n : Z) : outcome F bool :=
  match mapM (λ ith, tinyBLAS_Q0_AVX.matmul tgt A B k lda ldb ith nth m n) (seqZ 0 nth) with
  | Some wss => Returned true (mjoin wss)
  | None => Unfinished
  end.

(** [llamafile_sgemm] called by all [nth] workers with the same
    arguments; [sched] orders their turns at the shared job counter. *)
Definition llamafile_sgemm (nth : Z) (sched : list nat) (m n k : Z)
    (A : operand F) (lda : Z) (B : operand F) (ldb ldc : Z)
    (Atype Btype Ctype : ggml_type) : outcome F bool :=
  if decide (0 ≤ m ∧ 0 ≤ n ∧ 0 ≤ k ∧ k ≤ lda ∧ k ≤ ldb ∧ m ≤ ldc ∧ 0 < nth) then
    if decide (n < 2) then Returned false []
    else if decide (Ctype ≠ GGML_TYPE_F32) then Returned false []
    else
      let VR := VECTOR_REGISTERS tgt in
      let quant := __AVX2__ tgt || __AVX512F__ tgt || __AVX__ tgt in
      match Atype with
      | GGML_TYPE_F32 =>
          if decide (Btype ≠ GGML_TYPE_F32) then Returned false []
          else if __AVX512F__ tgt then
            tinyBLAS.matmul (voc := voc_f32 16) 16 VR nth
              (as_float A) (as_float B) k lda ldb m n sched
          else if __AVX__ tgt || __AVX2__ tgt then
            tinyBLAS.matmul (voc := voc_f32 8) 8 VR nth
              (as_float A) (as_float B) k lda ldb m n sched
          else if __VXE__ tgt || __VXE2__ tgt then
            if decide (n < 4) then Returned false []
            else
              tinyBLAS.matmul (voc := voc_f32 4) 4 VR nth
                (as_float A) (as_float B) k lda ldb m n sched
          else Returned false []
      | GGML_TYPE_BF16 =>
          if __AVX512BF16__ tgt then
            if decide (Btype = GGML_TYPE_BF16) then
              tinyBLAS.matmul (voc := voc_bf16 32) 32 VR nth
                (as_bf16 A) (as_bf16 B) k lda ldb m n sched
            else Returned false []
          else if __AVX512F__ tgt then
            if decide (Btype = GGML_TYPE_BF16) then
              tinyBLAS.matmul (voc := voc_bf16 16) 16 VR nth
                (as_bf16 A) (as_bf16 B) k lda ldb m n sched
            else Returned false []
          else if __AVX2__ tgt then
            if decide (Btype = GGML_TYPE_BF16) then
              tinyBLAS.matmul (voc := voc_bf16 8) 8 VR nth
                (as_bf16 A) (as_bf16 B) k lda ldb m n sched
            else Returned false []
          else Returned false []
      | GGML_TYPE_F16 =>
          if __AVX512F__ tgt then
            if decide (Btype = GGML_TYPE_F16) then
              tinyBLAS.matmul (voc := voc_fp16 16) 16 VR nth
                (as_fp16 A) (as_fp16 B) k lda ldb m n sched
            else Returned false []
          else if (__AVX__ tgt || __AVX2__ tgt) && __F16C__ tgt then
            if decide (Btype = GGML_TYPE_F16) then
              tinyBLAS.matmul (voc := voc_fp16 8) 8 VR nth
                (as_fp16 A) (as_fp16 B) k lda ldb m n sched
            else Returned false []
          else if __VXE__ tgt || __VXE2__ tgt then
            if decide (n < 4) then Returned false []
            else if decide (Btype = GGML_TYPE_F16) then
              tinyBLAS.matmul (voc := voc_fp16 4) 4 VR nth
                (as_fp16 A) (as_fp16 B) k lda ldb m n sched
            else Returned false []
          else Returned false []
      | GGML_TYPE_Q8_0 =>
          if decide (Btype ≠ GGML_TYPE_Q8_0) then Returned false []
          else if quant then Q0_AVX (as_q8_0 A) (as_q8_0 B) k lda ldb nth m n
          else Returned false []
      | GGML_TYPE_Q4_0 =>
          if decide (Btype ≠ GGML_TYPE_Q8_0) then Returned false []
          else if quant then Q0_AVX (as_q4_0 A) (as_q8_0 B) k lda ldb nth m n
          else Returned false []
      | GGML_TYPE_Q5_0 =>
          if decide (Btype ≠ GGML_TYPE_Q8_0) then Returned false []
          else if quant then Q0_AVX (as_q5_0 A) (as_q8_0 B) k lda ldb nth m n
          else Returned false []
      | GGML_TYPE_IQ4_NL =>
          if decide (Btype ≠ GGML_TYPE_Q8_0) then Returned false []
          else if quant then Q0_AVX (as_iq4_nl A) (as_q8_0 B) k lda ldb nth m n
          else Returned false []
      | GGML_TYPE_other _ => Returned false []
      end
  else Aborted.

(** The contents of [C] after a call. *)
Definition C_after (ldc : Z) (C : gmap Z F) (r : outcome F bool) : option (gmap Z F) :=
  match r with
  | Returned _ ws => Some (apply_writes ldc ws C)
  | _ => None
  end.
End dispatcher.

(** ** The invariant of the job counter

    [done] lists the jobs already run.  Every job id below the counter has
    been handed out once: it has been run, or one worker holds it. *)
Section pool_invariant.
Context {F : Type}.
Variables (nth nb_job : Z) (body : Z → option (list (write F))).

Definition holds (p : pool F) (w : nat) (j : Z) : Prop :=
  workers p !! w = Some (Working j).

(** Workers that have left the loop stay out. *)
Definition keeps_finished (p p' : pool F) : Prop :=
  ∀ w, workers p !! w = Some Finished → workers p' !! w = Some Finished.

Record pool_inv (p : pool F) (done : list Z) : Prop := PoolInv {
  inv_failed : failed p = false;
  inv_workers : length (workers p) = Z.to_nat nth;
  inv_chunk : 0 ≤ current_chunk p;
  inv_log : log p = done ≫= (λ job, default [] (body job));
  inv_nodup : NoDup done;
  inv_done : ∀ j, j ∈ done →
    0 ≤ j < nb_job ∧ j < current_chunk p ∧ ∀ w, ¬ holds p w j;
  inv_held : ∀ w j, holds p w j → 0 ≤ j < current_chunk p;
  inv_unique : ∀ w1 w2 j, holds p w1 j → holds p w2 j → w1 = w2;
  inv_cover : ∀ j, 0 ≤ j < current_chunk p → j < nb_job →
    j ∈ done ∨ ∃ w, holds p w j;
  inv_exit : Finished ∈ workers p → nb_job ≤ current_chunk p }.
End pool_invariant.

(** A call run by the whole pool serves the request: whenever all workers
    return it returns [true] having stored each cell of the grid exactly
    once, with the value [f] has there; no assertion fails; and some
    schedule lets all workers return. *)
Definition serves {F} (f : Z → Z → F) (m n : Z) (call : list nat → outcome F bool) : Prop :=
  (∀ sched b ws, call sched = Returned b ws → b = true ∧ ws ≡ₚ values f (grid m n)) ∧
  (∀ sched, call sched ≠ Aborted) ∧
  (∃ sched ws, call sched = Returned true ws).

(** The tile shape [(RM, RN)] of a kernel. *)
Definition kernel_dims (kn : tile_kernel) : Z * Z :=
  match kn with
  | k_gemm RM RN => (RM, RN)
  | k_gemm4xN RN => (4, RN)
  | k_gemmMx4 RM => (RM, 4)
  end.

(** ** Well-formed registers and blocks *)

(** [n] bytes. *)
Definition bytes (n : nat) (v : list Z) : Prop :=
  length v = n ∧ Forall (λ x, 0 ≤ x < 256) v.

(** No pair of adjacent products of [_mm256_maddubs_epi16(u, s)] leaves
    the 16-bit range. *)
Fixpoint no_saturation (u s : list Z) : Prop :=
  match u, s with
  | u0 :: u1 :: u', s0 :: s1 :: s' =>
      saturate16 (u0 * sint 8 s0 + u1 * sint 8 s1) = u0 * sint 8 s0 + u1 * sint 8 s1
      ∧ no_saturation u' s'
  | _, _ => True
  end.

(** Entry [i] of the iq4_nl table. *)
Definition kvalue (i : Z) : Z := default 0 (kvalues_iq4nl !! Z.to_nat i).

(** The element offset a store writes to. *)
Definition offset {F} (ldc : Z) (w : write F) : Z := ldc * w_col w + w_row w.

(** Whatever the worker count and schedule, a call that returns gives the
    same answer [ok]: it has either returned [false] without a store, or
    returned [true] after storing a rearrangement of one list [ref] that
    has a store for every cell of the grid and no second store for any. *)
Definition covers {F} (m n : Z) (call : Z → list nat → outcome F bool) : Prop :=
  ∃ ok ref, cell <$> ref ≡ₚ grid m n ∧
    ∀ nth sched b ws, 0 < nth → call nth sched = Returned b ws →
      b = ok ∧ if b then ws ≡ₚ ref else ws = [].

(** The [i]-th 4-bit nibble of a 16-byte payload: the low nibbles of the
    sixteen bytes come first, then their high nibbles. *)
Definition nibble (qs : list Z) (i : Z) : Z :=
  if decide (i < 16) then Z.land (default 0 (qs !! Z.to_nat i)) 15
  else Z.shiftr (default 0 (qs !! Z.to_nat (i - 16))) 4.

(** ** An instance that runs

    Exact integer arithmetic in place of single precision, so that the
    kernels can be evaluated: every operation is the one of [Z], and a
    16-bit pattern converts to the integer it encodes. *)
Module exact.

#[global] Instance ops : float_ops Z := {|
  fzero := 0;
  fadd := Z.add;
  fmul := Z.mul;
  ffma a b c := a * b + c;
  i32_to_f32 x := x;
  cvtph h := h;
  GGML_FP16_TO_FP32 h := h |}.

(** [KN] lanes: a load reads [KN] consecutive elements, [madd] works lane
    by lane and [hsum] adds the lanes up. *)
Definition lanes (KN : Z) : vocabulary Z Z Z := {|
  V := list Z;
  D := list Z;
  load_a p off := (λ l, p (off + l)) <$> seqZ 0 KN;
  load_b p off := (λ l, p (off + l)) <$> seqZ 0 KN;
  madd a b c := zip_with (λ ab c, ab.1 * ab.2 + c) (zip a b) c;
  zero := replicate (Z.to_nat KN) 0;
  hsum := foldr Z.add 0 |}.

#[global] Instance vocs : vocabularies Z := {|
  voc_f32 := lanes;
  voc_bf16 := lanes;
  voc_fp16 := lanes |}.

(** An AVX2 machine with F16C and FMA, and one that also has AVX-VNNI. *)
Definition avx2 : target :=
  Target true true false false false false false true true false false false.
Definition avxvnni : target :=
  Target true true false false false false true true true false false false.

(** Operands whose element at offset [off] is [off + c], in every view. *)
Definition matrix (c : Z) : operand Z := {|
  as_float off := off + c;
  as_fp16 off := off + c;
  as_bf16 off := off + c;
  as_q8_0 off := block_q8_0.mk (off + c) ((λ i, (off + c + i) `mod` 256) <$> seqZ 0 32);
  as_q4_0 off := block_q4_0.mk (off + c) ((λ i, (off + c + 17 * i) `mod` 256) <$> seqZ 0 16);
  as_q5_0 off := block_q5_0.mk (off + c) ((λ i, (off + c + 85 * i) `mod` 256) <$> seqZ 0 4)
                   ((λ i, (off + c + 17 * i) `mod` 256) <$> seqZ 0 16);
  as_iq4_nl off := block_iq4_nl.mk (off + c) ((λ i, (off + c + 17 * i) `mod` 256) <$> seqZ 0 16) |}.

(** A 16 x 2 product of f32 operands with [k = 8], by one worker and by
    two. *)
Definition f32_by (nth : Z) (sched : list nat) : outcome Z bool :=
  llamafile_sgemm avx2 nth sched 16 2 8 (matrix 1) 8 (matrix 3) 8 16
    GGML_TYPE_F32 GGML_TYPE_F32 GGML_TYPE_F32.

Definition stores_of (r : outcome Z bool) : list (write Z) :=
  match r with Returned _ ws => ws | _ => [] end.

Definition f32_by_1 : list (write Z) := Eval vm_compute in stores_of (f32_by 1 [0; 0]%nat).
Definition f32_by_2 : list (write Z) :=
  Eval vm_compute in stores_of (f32_by 2 [1; 0; 0; 1]%nat).

(** Six rows are not a multiple of four. *)
Definition f32_six_rows : outcome Z bool :=
  llamafile_sgemm avx2 2 [] 6 2 8 (matrix 1) 8 (matrix 3) 8 6
    GGML_TYPE_F32 GGML_TYPE_F32 GGML_TYPE_F32.

(** A 5 x 3 product of q5_0 and q8_0 operands with [k = 2], by two
    workers. *)
Definition q5_0_by_2 : outcome Z bool :=
  llamafile_sgemm avx2 2 [] 5 3 2 (matrix 1) 2 (matrix 3) 2 5
    GGML_TYPE_Q5_0 GGML_TYPE_Q8_0 GGML_TYPE_F32.
Definition q5_0_stores : list (write Z) := Eval vm_compute in stores_of q5_0_by_2.

(** Blocks whose delta is the half precision pattern of one. *)
Definition unit_blocks (c : Z) (off : Z) : block_q8_0.t :=
  block_q8_0.mk 15360 ((λ i, (off + c + i) `mod` 256) <$> seqZ 0 32).

(** Registers and blocks to decode. *)
Definition u_lanes : __m256i := (λ i, 130 + i) <$> seqZ 0 32.
Definition s_lanes : __m256i := (λ i, (3 * i - 50) `mod` 256) <$> seqZ 0 32.
Definition q5_0_block : block_q5_0.t := as_q5_0 (matrix 77) 3.
Definition iq4_nl_block : block_iq4_nl.t := as_iq4_nl (matrix 77) 3.

End exact.

(** ** Reference quantities for the kernels *)

(** The dot products of the groups of four signed bytes of two
    registers. *)
Fixpoint dot_groups (a b : list Z) : list Z :=
  match a, b with
  | a0 :: a1 :: a2 :: a3 :: a', b0 :: b1 :: b2 :: b3 :: b' =>
      (sint 8 a0 * sint 8 b0 + sint 8 a1 * sint 8 b1
       + sint 8 a2 * sint 8 b2 + sint 8 a3 * sint 8 b3) :: dot_groups a' b'
  | _, _ => []
  end.

(** A block that decodes: [load] gives 32 byte lanes, and [load0] and
    [load1] give the same lanes in two halves. *)
Definition decodes {T : Type} {blk : block T} (b : T) : Prop :=
  bytes 32 (load b) ∧ load b = load0 b ++ load1 b ∧ length (load0 b) = 16%nat.

(** ** The AVX instantiation of the floating point engine for f32 *)

Section avx_vocabulary.
Context {F : Type} {fo : float_ops F} (tgt : target).

(** [load<__m256>] from a pointer to [float] *)
Definition _mm256_loadu_ps (p : Z → F) (off : Z) : __m256 :=
  (λ t, p (off + t)) <$> seqZ 0 8.

(** [tinyBLAS<8, __m256, __m256, float, float, float>] *)
Definition avx_f32 : vocabulary F F F := {|
  V := __m256;
  D := __m256;
  load_a := _mm256_loadu_ps;
  load_b := _mm256_loadu_ps;
  madd := madd256 tgt;
  zero := _mm256_setzero_ps;
  hsum := hsum256 |}.
End avx_vocabulary.

(** The sum of a list of exact values, and the dot product of row [i] of
    [A] with row [j] of [B]. *)
Definition sum (l : list Z) : Z := foldr Z.add 0 l.

Definition dot (A B : Z → Z) (k lda ldb i j : Z) : Z :=
  sum ((λ l, A (lda * i + l) * B (ldb * j + l)) <$> seqZ 0 k).

(** The dot product of two decoded blocks. *)
Definition block_dot (a b : list Z) : Z := sum (zip_with (λ x y, sint 8 x * sint 8 y) a b).

(** ** Exact arithmetic

    The laws of an arithmetic without rounding that the kernels rely on:
    addition is commutative and associative with unit [fzero], the fused
    multiply-add is a multiplication followed by an addition,
    multiplication distributes over addition, and the conversion of a
    32-bit integer is additive.  The conversion of a half precision
    pattern is left as it is. *)
Record exact_arithmetic {F : Type} (fo : float_ops F) : Prop := {
  fadd_comm : ∀ x y : F, fadd x y = fadd y x;
  fadd_assoc : ∀ x y z : F, fadd x (fadd y z) = fadd (fadd x y) z;
  fadd_zero : ∀ x : F, fadd fzero x = x;
  ffma_exact : ∀ a b c : F, ffma a b c = fadd (fmul a b) c;
  fmul_fadd : ∀ d x y : F, fmul d (fadd x y) = fadd (fmul d x) (fmul d y);
  fmul_zero : ∀ d : F, fmul d fzero = fzero;
  i32_fadd : ∀ x y : Z, i32_to_f32 (x + y) = fadd (i32_to_f32 x) (i32_to_f32 y);
  i32_zero : i32_to_f32 0 = fzero }.

(** The sum of a list of values. *)
Definition fsum {F : Type} {fo : float_ops F} (l : list F) : F := foldr fadd fzero l.

(** An exact arithmetic on integers in which a half precision pattern
    converts to the integer part of the number it encodes: [0x3C00], the
    pattern of one, converts to 1. *)
Module half.

Definition to_int (h : Z) : Z :=
  let e := Z.land (Z.shiftr h 10) 31 in
  let f := Z.land h 1023 in
  let magnitude :=
    if decide (e = 0 ∨ e = 31) then 0 else Z.shiftl (1024 + f) (e - 25) in
  if Z.testbit h 15 then - magnitude else magnitude.

Definition ops : float_ops Z := {|
  fzero := 0;
  fadd := Z.add;
  fmul := Z.mul;
  ffma a b c := a * b + c;
  i32_to_f32 x := x;
  cvtph := to_int;
  GGML_FP16_TO_FP32 := to_int |}.

(** A q8_0 block with delta one whose 32 lanes are all 1. *)
Definition ones : block_q8_0.t := block_q8_0.mk 0x3C00 (replicate 32 1).

End half.

(** * Arithmetic of the partition *)

Lemma quot_div (a b : Z) : 0 ≤ a → 0 < b → a `quot` b = a `div` b.
Proof. intros. by apply Z.quot_div_nonneg. Qed.

Lemma rem_mod (a b : Z) : 0 ≤ a → 0 < b → a `rem` b = a `mod` b.
Proof. intros. by apply Z.rem_mod_nonneg. Qed.

Lemma NB_BN_pos (xtiles BN : Z) : 1 ≤ xtiles → 1 ≤ BN → 1 ≤ NB_BN xtiles BN ≤ xtiles.
Proof.
  intros Hx HB. unfold NB_BN. case_decide; [lia|].
  rewrite (quot_div BN 2) by lia.
  assert (0 ≤ BN `div` 2) by (apply Z.div_pos; lia).
  rewrite quot_div by lia.
  split.
  - apply Z.div_le_lower_bound; lia.
  - apply Z.div_le_upper_bound; [lia|].
    assert (BN `div` 2 * 2 ≤ BN) by (pose proof (Z.mul_div_le BN 2); lia).
    nia.
Qed.

Lemma SIZE_BN_ceil (xtiles NB : Z) :
  0 ≤ xtiles → 1 ≤ NB → SIZE_BN xtiles NB = (xtiles + NB - 1) `div` NB.
Proof.
  intros Hx HN. unfold SIZE_BN.
  rewrite rem_mod, !quot_div by lia.
  pose proof (Z.div_mod xtiles NB ltac:(lia)) as Hdm.
  pose proof (Z.mod_pos_bound xtiles NB ltac:(lia)) as Hb.
  case_decide as Hr.
  - apply Z.div_unique with (r := NB - 1); lia.
  - apply Z.div_unique with (r := xtiles `mod` NB - 1); lia.
Qed.

Lemma ceil_bounds (x N : Z) :
  0 ≤ x → 1 ≤ N → x ≤ N * ((x + N - 1) `div` N) < x + N.
Proof.
  intros Hx HN.
  pose proof (Z.div_mod (x + N - 1) N ltac:(lia)).
  pose proof (Z.mod_pos_bound (x + N - 1) N ltac:(lia)).
  lia.
Qed.

Lemma jj_BN_bounds (xtiles BN : Z) :
  1 ≤ xtiles → 1 ≤ BN →
  let NB := NB_BN xtiles BN in
  let S := SIZE_BN xtiles NB in
  0 < jj_BN xtiles NB S ≤ NB ∧ 1 ≤ S.
Proof.
  intros Hx HB NB S. pose proof (NB_BN_pos xtiles BN Hx HB) as HN. fold NB in HN.
  subst S. rewrite SIZE_BN_ceil by lia.
  pose proof (ceil_bounds xtiles NB ltac:(lia) ltac:(lia)).
  unfold jj_BN. split; [lia|].
  apply Z.div_le_lower_bound; lia.
Qed.

(** * Loop ranges *)

Lemma range_fuel_exact (step : Z) (c fuel : nat) (a : Z) :
  0 < step → (c ≤ fuel)%nat →
  range_fuel fuel a (a + step * Z.of_nat c) step
  = (λ t, a + step * Z.of_nat t) <$> seq 0 c.
Proof.
  intros Hs. revert fuel a. induction c as [|c IH]; intros fuel a Hf.
  - destruct fuel; simpl; [done|]. case_decide; [lia|done].
  - destruct fuel as [|fuel]; [lia|]. simpl range_fuel.
    case_decide; [|lia].
    replace (a + step * Z.of_nat (S c)) with ((a + step) + step * Z.of_nat c) by lia.
    rewrite IH by lia. cbn [seq fmap list_fmap]. f_equal; [f_equal; lia|].
    rewrite <-seq_shift, <-list_fmap_compose. apply list_fmap_ext.
    intros ? t _. simpl. lia.
Qed.

Lemma range_exact (a step c : Z) :
  0 < step → 0 ≤ c →
  range a (a + step * c) step = (λ t, a + step * t) <$> seqZ 0 c.
Proof.
  intros Hs Hc. unfold range.
  replace c with (Z.of_nat (Z.to_nat c)) at 2 by lia.
  rewrite range_fuel_exact by nia.
  unfold seqZ. rewrite <-list_fmap_compose. apply list_fmap_ext.
  intros ? t _. simpl. lia.
Qed.

Lemma range_end_exact (a step c : Z) :
  0 < step → 0 ≤ c → range_end a (a + step * c) step = a + step * c.
Proof.
  intros Hs Hc. unfold range_end. rewrite range_exact by done.
  rewrite length_fmap, length_seqZ. lia.
Qed.

Lemma range_empty (a b step : Z) : b ≤ a → range a b step = [].
Proof.
  intros. unfold range. destruct (Z.to_nat (b - a)) eqn:E; [done|lia].
Qed.

Lemma range_end_empty (a b step : Z) : b ≤ a → range_end a b step = a.
Proof. intros. unfold range_end. rewrite range_empty by done. simpl. lia. Qed.

(** * Rectangles of cells *)

Lemma cells_app_cols (i0 i1 j0 jm j1 : Z) :
  j0 ≤ jm → jm ≤ j1 → cells i0 i1 j0 j1 = cells i0 i1 j0 jm ++ cells i0 i1 jm j1.
Proof.
  intros H1 H2. unfold cells.
  replace (j1 - j0) with ((jm - j0) + (j1 - jm)) by lia.
  rewrite seqZ_app by lia. rewrite bind_app. do 3 f_equal. lia.
Qed.

Lemma cells_no_cols (i0 i1 j0 j1 : Z) : j1 ≤ j0 → cells i0 i1 j0 j1 = [].
Proof. intros. unfold cells. by rewrite (seqZ_nil j0) by lia. Qed.

Lemma cells_no_rows (i0 i1 j0 j1 : Z) : i1 ≤ i0 → cells i0 i1 j0 j1 = [].
Proof.
  intros. unfold cells. rewrite (seqZ_nil i0) by lia.
  induction (seqZ j0 (j1 - j0)); simpl; auto.
Qed.

Lemma bind_app_perm {X Y} (f g : X → list Y) (l : list X) :
  l ≫= (λ x, f x ++ g x) ≡ₚ (l ≫= f) ++ (l ≫= g).
Proof.
  induction l as [|x l IH]; simpl; [done|].
  rewrite IH, <-!app_assoc. apply Permutation_app_head, Permutation_app_swap_app.
Qed.

Lemma cells_perm_rows (i0 im i1 j0 j1 : Z) :
  i0 ≤ im → im ≤ i1 →
  cells i0 i1 j0 j1 ≡ₚ cells i0 im j0 j1 ++ cells im i1 j0 j1.
Proof.
  intros H1 H2. unfold cells.
  rewrite <-bind_app_perm. 
  replace (i1 - i0) with ((im - i0) + (i1 - im)) by lia.
  rewrite seqZ_app by lia.
  replace (i0 + (im - i0)) with im by lia.
  match goal with |- ?a ≡ₚ ?b => assert (a = b) as ->; [|done] end.
  apply list_bind_ext; [|done].
  intros j. by rewrite bind_app.
Qed.

(** Tiles of equal height stacked along the rows. *)
Lemma cells_tiles_rows (i0 h c j0 j1 : Z) :
  0 ≤ h → 0 ≤ c →
  seqZ 0 c ≫= (λ t, cells (i0 + h * t) (i0 + h * t + h) j0 j1)
  ≡ₚ cells i0 (i0 + h * c) j0 j1.
Proof.
  intros Hh Hc. rewrite <-(Z2Nat.id c) by done.
  induction (Z.to_nat c) as [|c' IH].
  - simpl. by rewrite cells_no_rows by lia.
  - rewrite Nat2Z.inj_succ. unfold Z.succ.
    rewrite seqZ_app by lia. rewrite bind_app, IH.
    rewrite (cells_perm_rows i0 (i0 + h * Z.of_nat c') (i0 + h * (Z.of_nat c' + 1))) by nia.
    apply Permutation_app_head. simpl. rewrite app_nil_r.
    match goal with |- ?a ≡ₚ ?b => assert (a = b) as ->; [f_equal; lia|done] end.
Qed.

(** Stripes between the consecutive values of a monotone position. *)
Lemma cells_stripes (P : Z → Z) (i0 i1 c : Z) :
  0 ≤ c → (∀ t, 0 ≤ t < c → P t ≤ P (t + 1)) →
  seqZ 0 c ≫= (λ t, cells i0 i1 (P t) (P (t + 1))) = cells i0 i1 (P 0) (P c).
Proof.
  intros Hc. rewrite <-(Z2Nat.id c) by done. clear Hc.
  induction (Z.to_nat c) as [|c' IH]; intros Hm.
  - change (Z.of_nat 0) with 0. simpl. by rewrite cells_no_cols by lia.
  - rewrite Nat2Z.inj_succ in *. unfold Z.succ in *.
    assert (P 0 ≤ P (Z.of_nat c')) as Hle.
    { clear IH. induction c' as [|c'' IH']; [change (Z.of_nat 0) with 0; lia|].
      rewrite Nat2Z.inj_succ in *. unfold Z.succ in *.
      etrans; [apply IH'; intros; apply Hm; lia|]. apply Hm. lia. }
    rewrite seqZ_app by lia. rewrite bind_app, IH by (intros; apply Hm; lia).
    simpl. rewrite app_nil_r.
    rewrite (cells_app_cols i0 i1 (P 0) (P (Z.of_nat c')) (P (Z.of_nat c' + 1)));
      [|done|apply Hm; lia].
    do 2 f_equal; f_equal; lia.
Qed.

Lemma elem_of_cells (i0 i1 j0 j1 i j : Z) :
  (i, j) ∈ cells i0 i1 j0 j1 ↔ i0 ≤ i < i1 ∧ j0 ≤ j < j1.
Proof.
  unfold cells. rewrite list_elem_of_bind. split.
  - intros (j' & Hin & Hj). apply list_elem_of_bind in Hin as (i' & Hin & Hi).
    apply list_elem_of_singleton in Hin. inversion Hin; subst.
    apply elem_of_seqZ in Hj, Hi. lia.
  - intros [Hi Hj]. exists j. split; [|apply elem_of_seqZ; lia].
    apply list_elem_of_bind. exists i. split; [by apply list_elem_of_singleton|].
    apply elem_of_seqZ. lia.
Qed.

Lemma NoDup_cells (i0 i1 j0 j1 : Z) : NoDup (cells i0 i1 j0 j1).
Proof.
  unfold cells. apply NoDup_bind.
  - intros j1' j2' c _ _ H1 H2.
    apply list_elem_of_bind in H1 as (? & H1 & _), H2 as (? & H2 & _).
    apply list_elem_of_singleton in H1, H2. congruence.
  - intros j _. apply NoDup_bind.
    + intros ? ? c _ _ H1 H2. apply list_elem_of_singleton in H1, H2. congruence.
    + intros. apply NoDup_singleton.
    + apply NoDup_seqZ.
  - apply NoDup_seqZ.
Qed.

Lemma values_app {F} (f : Z → Z → F) (l1 l2 : list (Z * Z)) :
  values f (l1 ++ l2) = values f l1 ++ values f l2.
Proof. apply fmap_app. Qed.

Lemma values_bind {F X} (f : Z → Z → F) (g : X → list (Z * Z)) (l : list X) :
  values f (l ≫= g) = l ≫= (λ x, values f (g x)).
Proof.
  unfold values. induction l as [|x l IH]; [done|].
  change ((x :: l) ≫= g) with (g x ++ (l ≫= g)).
  by rewrite fmap_app, IH.
Qed.

Lemma cell_values {F} (f : Z → Z → F) (cs : list (Z * Z)) :
  cell <$> values f cs = cs.
Proof.
  unfold values. rewrite <-list_fmap_compose.
  rewrite <-(list_fmap_id cs) at 2. apply list_fmap_ext. by intros ? [] _.
Qed.

Global Instance values_perm {F} (f : Z → Z → F) :
  Proper (Permutation ==> Permutation) (values f).
Proof. intros ???. unfold values. by f_equiv. Qed.

(** * Register tiles *)

Ltac upd_cases :=
  repeat case_decide;
  repeat match goal with H : _ ∧ _ |- _ => destruct H end; simplify_eq;
  first [done | exfalso; rewrite ?elem_of_cons in *; naive_solver].

Lemma fold_upd2_row {X} (f : Z → X → X) (j : Z) (I : list Z) (Cv : Z → Z → X) (j' i' : Z) :
  NoDup I →
  foldl (λ Cv i, upd2 Cv j i (f i (Cv j i))) Cv I j' i'
  = if decide (j' = j ∧ i' ∈ I) then f i' (Cv j i') else Cv j' i'.
Proof.
  intros HI. revert Cv. induction HI as [|i I Hi HI IH]; intros Cv; cbn [foldl].
  - rewrite decide_False; [done|]. intros [_ H]. by apply elem_of_nil in H.
  - rewrite IH. unfold upd2. upd_cases.
Qed.

Lemma fold_upd2_col {X} (f : Z → X → X) (i : Z) (J : list Z) (Cv : Z → Z → X) (j' i' : Z) :
  NoDup J →
  foldl (λ Cv j, upd2 Cv j i (f j (Cv j i))) Cv J j' i'
  = if decide (j' ∈ J ∧ i' = i) then f j' (Cv j' i) else Cv j' i'.
Proof.
  intros HJ. revert Cv. induction HJ as [|j J Hj HJ IH]; intros Cv; cbn [foldl].
  - rewrite decide_False; [done|]. intros [H _]. by apply elem_of_nil in H.
  - rewrite IH. unfold upd2. upd_cases.
Qed.

(** Rows inside columns: [for j: for i: Cv[j][i] = f(j, i, Cv[j][i])]. *)
Lemma fold_upd2_ji {X} (f : Z → Z → X → X) (J I : list Z) (Cv : Z → Z → X) (j' i' : Z) :
  NoDup J → NoDup I →
  foldl (λ Cv j, foldl (λ Cv i, upd2 Cv j i (f j i (Cv j i))) Cv I) Cv J j' i'
  = if decide (j' ∈ J ∧ i' ∈ I) then f j' i' (Cv j' i') else Cv j' i'.
Proof.
  intros HJ HI. revert Cv. induction HJ as [|j J Hj HJ IH]; intros Cv; cbn [foldl].
  - rewrite decide_False; [done|]. intros [H _]. by apply elem_of_nil in H.
  - rewrite IH. rewrite !(fold_upd2_row (f j)) by done. upd_cases.
Qed.

(** Columns inside rows: [for i: for j: Cv[j][i] = f(j, i, Cv[j][i])]. *)
Lemma fold_upd2_ij {X} (f : Z → Z → X → X) (J I : list Z) (Cv : Z → Z → X) (j' i' : Z) :
  NoDup J → NoDup I →
  foldl (λ Cv i, foldl (λ Cv j, upd2 Cv j i (f j i (Cv j i))) Cv J) Cv I j' i'
  = if decide (j' ∈ J ∧ i' ∈ I) then f j' i' (Cv j' i') else Cv j' i'.
Proof.
  intros HJ HI. revert Cv. induction HI as [|i I Hi HI IH]; intros Cv; cbn [foldl].
  - rewrite decide_False; [done|]. intros [_ H]. by apply elem_of_nil in H.
  - rewrite IH. rewrite !(fold_upd2_col (λ j, f j i)) by done. upd_cases.
Qed.

(** A loop that updates every accumulator of the tile once per step [l]
    leaves in each the fold of its own updates. *)
Lemma fold_steps {X L} (step : (Z → Z → X) → L → Z → Z → X) (g : Z → Z → L → X → X)
    (J I : list Z) (ls : list L) (Cv : Z → Z → X) (j i : Z) :
  (∀ Cv l j i, j ∈ J → i ∈ I → step Cv l j i = g j i l (Cv j i)) →
  j ∈ J → i ∈ I →
  foldl step Cv ls j i = foldl (λ acc l, g j i l acc) (Cv j i) ls.
Proof.
  intros Hstep Hj Hi. revert Cv. induction ls as [|l ls IH]; intros Cv; simpl; [done|].
  by rewrite IH, Hstep.
Qed.

Lemma bind_ext_in {X Y} (f g : X → list Y) (l : list X) :
  (∀ x, x ∈ l → f x = g x) → l ≫= f = l ≫= g.
Proof. intros H. apply Forall_bind_ext, Forall_forall. auto. Qed.

Lemma cells_shift (ii jj RM RN : Z) :
  cells ii (ii + RM) jj (jj + RN)
  = j ← seqZ 0 RN; i ← seqZ 0 RM; [(ii + i, jj + j)].
Proof.
  unfold cells.
  replace (jj + RN - jj) with RN by lia. replace (ii + RM - ii) with RM by lia.
  replace (seqZ jj RN) with (Z.add jj <$> seqZ 0 RN)
    by (rewrite fmap_add_seqZ; f_equal; lia).
  rewrite list_fmap_bind. apply list_bind_ext; [|done]. intros j. simpl.
  replace (seqZ ii RM) with (Z.add ii <$> seqZ 0 RM)
    by (rewrite fmap_add_seqZ; f_equal; lia).
  by rewrite list_fmap_bind.
Qed.

Section tile.
Context {F TA TB : Type} {voc : vocabulary F TA TB}.
Variables (KN : Z) (A : Z → TA) (B : Z → TB) (k lda ldb : Z).

Lemma gemm_bloc_values (RM RN ii jj : Z) :
  tinyBLAS.gemm_bloc KN A B k lda ldb RM RN ii jj
  = values (tinyBLAS.cell_value KN A B k lda ldb) (cells ii (ii + RM) jj (jj + RN)).
Proof.
  rewrite cells_shift, values_bind. unfold tinyBLAS.gemm_bloc.
  apply bind_ext_in. intros j Hj. rewrite values_bind.
  apply bind_ext_in. intros i Hi. simpl. do 2 f_equal.
  unfold tinyBLAS.cell_value.
  rewrite (fold_steps _
    (λ j i l acc, madd (load_a A (lda * (ii + i) + l)) (load_b B (ldb * (jj + j) + l)) acc)
    (seqZ 0 RN) (seqZ 0 RM)); [| |done|done].
  { done. }
  clear. intros Cv l j i Hj Hi. case_decide.
  - rewrite (fold_upd2_ji
      (λ j i x, madd (load_a A (lda * (ii + i) + l)) (load_b B (ldb * (jj + j) + l)) x))
      by apply NoDup_seqZ.
    by rewrite decide_True.
  - rewrite (fold_upd2_ij
      (λ j i x, madd (load_a A (lda * (ii + i) + l)) (load_b B (ldb * (jj + j) + l)) x))
      by apply NoDup_seqZ.
    by rewrite decide_True.
Qed.
End tile.

(** * Jobs of the floating point scheme *)

Lemma bind_perm_in {X Y} (f g : X → list Y) (l : list X) :
  (∀ x, x ∈ l → f x ≡ₚ g x) → l ≫= f ≡ₚ l ≫= g.
Proof.
  induction l as [|x l IH]; intros H; [done|].
  change ((x :: l) ≫= f) with (f x ++ (l ≫= f)).
  change ((x :: l) ≫= g) with (g x ++ (l ≫= g)).
  rewrite (H x), IH; [done| |left]. intros. apply H. by right.
Qed.

Lemma bind_singleton {X Y} (f : X → Y) (l : list X) : l ≫= (λ x, [f x]) = f <$> l.
Proof.
  induction l as [|x l IH]; [done|].
  change ((x :: l) ≫= (λ x, [f x])) with (f x :: (l ≫= (λ x, [f x]))).
  by rewrite IH.
Qed.

Lemma cells_tiles_cols (i0 i1 j0 w c : Z) :
  0 ≤ w → 0 ≤ c →
  seqZ 0 c ≫= (λ t, cells i0 i1 (j0 + w * t) (j0 + w * t + w)) = cells i0 i1 j0 (j0 + w * c).
Proof.
  intros Hw Hc.
  pose proof (cells_stripes (λ t, j0 + w * t) i0 i1 c Hc) as H. simpl in H.
  replace (j0 + w * 0) with j0 in H by lia. rewrite <-H by (intros; lia).
  apply list_bind_ext; [|done]. intros t. f_equal. lia.
Qed.

Lemma BLOC_POS_0 (ibN s : Z) : 0 ≤ ibN → BLOC_POS 0 ibN s = 0.
Proof. intros. unfold BLOC_POS. case_decide; lia. Qed.

Lemma BLOC_POS_mono (ib ibN s : Z) :
  1 ≤ s → BLOC_POS ib ibN s ≤ BLOC_POS (ib + 1) ibN s.
Proof. intros. unfold BLOC_POS. repeat case_decide; nia. Qed.

Lemma BLOC_POS_le (a b ibN s : Z) :
  1 ≤ s → a ≤ b → BLOC_POS a ibN s ≤ BLOC_POS b ibN s.
Proof. intros. unfold BLOC_POS. repeat case_decide; nia. Qed.

(** The stripe boundaries, counted in tiles, run from [0] to [xtiles]. *)
Lemma stripe_pos_bounds (xtiles BN jb : Z) :
  1 ≤ xtiles → 1 ≤ BN →
  let NB := NB_BN xtiles BN in
  let S := SIZE_BN xtiles NB in
  let J := jj_BN xtiles NB S in
  0 ≤ jb ≤ NB → 0 ≤ BLOC_POS jb J S ≤ xtiles ∧ BLOC_POS NB J S = xtiles.
Proof.
  intros Hx HB NB S J Hjb.
  destruct (jj_BN_bounds xtiles BN Hx HB) as [HJ HS]. fold NB S J in HJ, HS.
  assert (J = NB - (NB * S - xtiles)) as HJe by done.
  unfold BLOC_POS. repeat case_decide; split; try nia.
Qed.

Lemma seqZ_product (Y N : Z) :
  0 ≤ Y → 0 ≤ N →
  seqZ 0 (Y * N) = jb ← seqZ 0 N; it ← seqZ 0 Y; [it + Y * jb].
Proof.
  intros HY HN. rewrite <-(Z2Nat.id N) by done.
  induction (Z.to_nat N) as [|N' IH].
  - by rewrite Z.mul_0_r.
  - rewrite Nat2Z.inj_succ. unfold Z.succ.
    rewrite Z.mul_add_distr_l, Z.mul_1_r, !seqZ_app by nia.
    rewrite bind_app, <-IH. f_equal. simpl. rewrite app_nil_r.
    rewrite bind_singleton.
    replace (0 + Y * Z.of_nat N') with (Y * Z.of_nat N' + 0) by lia.
    rewrite <-(fmap_add_seqZ (Y * Z.of_nat N') 0 Y).
    apply list_fmap_ext. intros ? t _. change (Z.of_nat 0) with 0. lia.
Qed.

Lemma quot_rem_job (Y it jb : Z) :
  0 ≤ it < Y → 0 ≤ jb →
  (it + Y * jb) `rem` Y = it ∧ (it + Y * jb) `quot` Y = jb.
Proof.
  intros Hit Hjb. rewrite rem_mod, quot_div by nia. split.
  - symmetry. apply Z.mod_unique with (q := jb); lia.
  - symmetry. apply Z.div_unique with (r := it); lia.
Qed.

(** ** The tile width chosen by [matmul] *)

Lemma BLOCK_SIZE_spec (M n : Z) :
  1 ≤ M < 2 ^ 32 → 1 ≤ n < 2 ^ 63 →
  ∃ s, BLOCK_SIZE M n = Some s ∧ 1 ≤ s ≤ M ∧
       let xtiles := (n + s - 1) `div` s in
       1 ≤ xtiles ∧ 0 < xtiles - (xtiles * s - n) ≤ xtiles.
Proof.
  intros HM Hn. unfold BLOCK_SIZE, size_t.
  change (2 ^ 64) with 18446744073709551616.
  change (2 ^ 63) with 9223372036854775808 in Hn.
  change (2 ^ 32) with 4294967296 in HM.
  rewrite (Z.mod_small n), (Z.mod_small M), (Z.mod_small (n + M - 1)) by lia.
  set (NB := (n + M - 1) `div` M).
  pose proof (ceil_bounds n M ltac:(lia) ltac:(lia)) as HNB. fold NB in HNB.
  assert (1 ≤ NB) as HNB1 by nia.
  rewrite decide_False by lia.
  pose proof (SIZE_BN_ceil n NB ltac:(lia) HNB1) as Hs. unfold SIZE_BN in Hs.
  rewrite rem_mod, !quot_div in Hs by lia.
  eexists. split; [done|]. rewrite Hs. clear Hs.
  set (s := (n + NB - 1) `div` NB).
  pose proof (ceil_bounds n NB ltac:(lia) HNB1) as Hsb. fold s in Hsb.
  assert (1 ≤ s) by nia. assert (s ≤ M) by nia.
  split; [lia|]. cbv zeta. set (xtiles := (n + s - 1) `div` s).
  pose proof (ceil_bounds n s ltac:(lia) ltac:(lia)) as Hx. fold xtiles in Hx.
  assert (xtiles = NB) as -> by nia. nia.
Qed.

Lemma foldl_ext_in {X Y} (f g : X → Y → X) (l : list Y) (a : X) :
  (∀ a x, x ∈ l → f a x = g a x) → foldl f a l = foldl g a l.
Proof.
  revert a. induction l as [|x l IH]; intros a H; simpl; [done|].
  rewrite H by left. apply IH. intros. apply H. by right.
Qed.

Lemma foldl_option_app {X Y} (g : X → list Y) (l : list X) (w0 : list Y) :
  foldl (λ acc x, ws ← acc; Some (ws ++ g x)) (Some w0) l = Some (w0 ++ l ≫= g).
Proof.
  revert w0. induction l as [|x l IH]; intros w0; simpl.
  - by rewrite app_nil_r.
  - rewrite IH. by rewrite app_assoc.
Qed.

Section band.
Context {F TA TB : Type} {voc : vocabulary F TA TB}.
Variables (KN : Z) (A : Z → TA) (B : Z → TB) (k lda ldb : Z).

Local Abbreviation cv := (tinyBLAS.cell_value KN A B k lda ldb).
Local Abbreviation gemm_bloc := (tinyBLAS.gemm_bloc KN A B k lda ldb).

(** One pass of the two [jj] loops covers the columns of the stripe, and
    leaves [jj] at [jj2]. *)
Lemma band_columns (RM RN jj_RN jr0 jrN ii : Z) :
  1 ≤ RN → 0 ≤ jr0 ≤ jrN → 0 ≤ jj_RN → (RN = 1 → jrN ≤ jj_RN) →
  let jj0 := BLOC_POS jr0 jj_RN RN in
  let jj2 := BLOC_POS jrN jj_RN RN in
  let jj1 := if decide (jj2 < jj_RN * RN) then jj2 else jj_RN * RN in
  let jj := range_end jj0 jj1 RN in
  (if decide (1 < RN) then range_end jj jj2 (RN - 1) else jj) = jj2 ∧
  (range jj0 jj1 RN ≫= gemm_bloc RM RN ii)
    ++ ((if decide (1 < RN) then range jj jj2 (RN - 1) else [])
          ≫= gemm_bloc RM (RN - 1) ii)
  = values cv (cells ii (ii + RM) jj0 jj2).
Proof.
  intros HRN Hjr HjjRN H1 jj0 jj2 jj1 jj.
  set (a := Z.max 0 (Z.min jrN jj_RN - jr0)).
  set (b := Z.max 0 (jrN - Z.max jr0 jj_RN)).
  assert (range jj0 jj1 RN = (λ t, jj0 + RN * t) <$> seqZ 0 a ∧ jj = jj0 + RN * a)
    as [Hfull Hjj].
  { subst jj. destruct (decide (jr0 < jj_RN)) as [Hlt|Hge].
    - assert (jj1 = jj0 + RN * a) as ->.
      { subst jj1 jj0 jj2 a. unfold BLOC_POS. repeat case_decide; nia. }
      rewrite range_exact, range_end_exact by lia. done.
    - assert (a = 0) as -> by lia.
      assert (jj1 ≤ jj0).
      { subst jj1 jj0 jj2. unfold BLOC_POS. repeat case_decide; nia. }
      rewrite range_empty, range_end_empty by done. split; [done|lia]. }
  assert (jj2 = jj + (RN - 1) * b) as Hjj2.
  { rewrite Hjj. subst jj0 jj2 a b. unfold BLOC_POS. repeat case_decide; nia. }
  assert (0 ≤ a ∧ 0 ≤ b) as [Ha Hb] by lia.
  assert ((if decide (1 < RN) then range jj jj2 (RN - 1) else [])
          = (λ t, jj + (RN - 1) * t) <$> seqZ 0 b
          ∧ (if decide (1 < RN) then range_end jj jj2 (RN - 1) else jj) = jj2)
    as [Htail Hend].
  { case_decide.
    - rewrite Hjj2. rewrite range_exact, range_end_exact by lia. done.
    - assert (RN = 1) as HRN1 by lia. specialize (H1 HRN1).
      assert (b = 0) as Hb0 by lia. rewrite Hb0 in *. split; [done|lia]. }
  split; [done|].
  rewrite Hfull, Htail, !list_fmap_bind.
  rewrite (cells_app_cols ii (ii + RM) jj0 jj jj2) by nia.
  rewrite values_app. f_equal.
  - rewrite Hjj, <-cells_tiles_cols, values_bind by lia.
    apply list_bind_ext; [|done]. intros t. simpl. apply gemm_bloc_values.
  - rewrite Hjj2, <-cells_tiles_cols, values_bind by lia.
    apply list_bind_ext; [|done]. intros t. simpl.
    rewrite gemm_bloc_values. do 2 f_equal.
Qed.
End band.

Lemma list_bind_assoc {X Y Z'} (f : X → list Y) (g : Y → list Z') (l : list X) :
  (l ≫= f) ≫= g = l ≫= (λ x, f x ≫= g).
Proof.
  induction l as [|x l IH]; [done|].
  change ((x :: l) ≫= f) with (f x ++ (l ≫= f)).
  by rewrite bind_app, IH.
Qed.

Section jobs.
Context {F TA TB : Type} {voc : vocabulary F TA TB}.
Variables (KN : Z) (A : Z → TA) (B : Z → TB) (k lda ldb : Z).
Variables (RM RN BM m n BN : Z).
Hypotheses (HRM : 1 ≤ RM) (HBM : 1 ≤ BM) (HRN : 1 ≤ RN) (HBN : 1 ≤ BN).
Hypotheses (Hm : 0 ≤ m) (Hmr : m `rem` (RM * BM) = 0) (Hn : 1 ≤ n).

Local Abbreviation cv := (tinyBLAS.cell_value KN A B k lda ldb).
Local Abbreviation ytiles := (m `quot` (RM * BM)).
Local Abbreviation xtiles := ((n + RN - 1) `quot` RN).
Local Abbreviation jjRN := (xtiles - (xtiles * RN - n)).
Local Abbreviation NB := (NB_BN xtiles BN).
Local Abbreviation S := (SIZE_BN xtiles NB).
Local Abbreviation J := (jj_BN xtiles NB S).
Local Abbreviation body :=
  (tinyBLAS.job_body KN A B k lda ldb RM RN BM ytiles jjRN J S).
Local Abbreviation pos := (λ jb, BLOC_POS (BLOC_POS jb J S) jjRN RN).

Hypothesis HjjRN : 0 ≤ jjRN ≤ xtiles.

Lemma ytiles_exact : 0 ≤ ytiles ∧ m = RM * BM * ytiles.
Proof.
  pose proof (Z.quot_rem' m (RM * BM)) as H. rewrite Hmr in H.
  split; [|lia]. apply Z.quot_pos; nia.
Qed.

Lemma xtiles_pos : 1 ≤ xtiles.
Proof.
  rewrite quot_div by lia. apply Z.div_le_lower_bound; lia.
Qed.

Lemma pos_ends : pos 0 = 0 ∧ pos NB = n.
Proof.
  pose proof xtiles_pos as Hx.
  destruct (jj_BN_bounds xtiles BN Hx HBN) as [HJ HS].
  destruct (stripe_pos_bounds xtiles BN 0 Hx HBN) as [_ HNB];
    [pose proof (NB_BN_pos xtiles BN Hx HBN); lia|].
  simpl. rewrite HNB, (BLOC_POS_0 J) by lia. split.
  - apply BLOC_POS_0. lia.
  - unfold BLOC_POS. case_decide; lia.
Qed.

Lemma job_body_tile (it jb : Z) :
  0 ≤ it < ytiles → 0 ≤ jb < NB →
  ∃ ws, body (it + ytiles * jb) = Some ws ∧
        ws ≡ₚ values cv (cells (RM * BM * it) (RM * BM * it + RM * BM)
                               (pos jb) (pos (jb + 1))).
Proof.
  intros Hit Hjb. pose proof xtiles_pos as Hx.
  destruct (jj_BN_bounds xtiles BN Hx HBN) as [HJ HS].
  destruct (stripe_pos_bounds xtiles BN jb Hx HBN ltac:(lia)) as [Hp0 _].
  destruct (stripe_pos_bounds xtiles BN (jb + 1) Hx HBN ltac:(lia)) as [Hp1 _].
  pose proof (BLOC_POS_mono jb J S HS) as Hmono.
  unfold tinyBLAS.job_body.
  destruct (quot_rem_job ytiles it jb Hit ltac:(lia)) as [-> ->].
  set (ii := it * RM * BM).
  set (jr0 := BLOC_POS jb J S) in *. set (jrN := BLOC_POS (jb + 1) J S) in *.
  assert (RN = 1 → jrN ≤ jjRN) as H1.
  { intros ->. rewrite Z.quot_1_r in *. lia. }
  rewrite (foldl_ext_in _ (λ acc bi, ws ← acc;
    Some (ws ++ values cv (cells (ii + bi) (ii + bi + RM) (pos jb) (pos (jb + 1)))))).
  2:{ intros acc bi _. destruct acc as [ws|]; [|done].
      destruct (band_columns KN A B k lda ldb RM RN jjRN jr0 jrN (ii + bi))
        as [Hend Hws]; [lia..|done|].
      cbv zeta in Hend, Hws. cbn [mbind option_bind].
      rewrite decide_True by exact Hend. by rewrite Hws. }
  rewrite foldl_option_app.
  eexists. split; [done|]. simpl.
  replace (BM * RM) with (0 + RM * BM) by lia.
  rewrite range_exact, list_fmap_bind by lia.
  rewrite <-(cells_tiles_rows (RM * BM * it) RM BM), values_bind by lia.
  match goal with |- ?a ≡ₚ ?b => assert (a = b) as ->; [|done] end.
  apply list_bind_ext; [|done]. intros t. subst ii. simpl. do 2 f_equal; lia.
Qed.

Lemma body_is_Some (job : Z) : 0 ≤ job < ytiles * NB → is_Some (body job).
Proof.
  intros Hjob. destruct ytiles_exact as [Hy _].
  assert (0 < ytiles) as Hy'.
  { destruct (decide (ytiles = 0)) as [E|]; [rewrite E in Hjob|]; lia. }
  pose proof (Z.div_mod job ytiles ltac:(lia)) as Hdm.
  pose proof (Z.mod_pos_bound job ytiles Hy') as Hmod.
  assert (0 ≤ job `div` ytiles < NB) as Hdiv.
  { split; [apply Z.div_pos; lia|]. apply Z.div_lt_upper_bound; lia. }
  destruct (job_body_tile (job `mod` ytiles) (job `div` ytiles)) as (ws & Hws & _);
    [done..|].
  replace (job `mod` ytiles + ytiles * job `div` ytiles) with job in Hws by lia.
  by rewrite Hws.
Qed.

(** The jobs [0 .. nb_job - 1] together store every cell of the grid once,
    each with its value. *)
Lemma all_jobs :
  seqZ 0 (ytiles * NB) ≫= (λ job, default [] (body job)) ≡ₚ values cv (grid m n).
Proof.
  destruct ytiles_exact as [Hy Hmy]. pose proof xtiles_pos as Hx.
  pose proof (NB_BN_pos xtiles BN Hx HBN) as HNB.
  destruct (jj_BN_bounds xtiles BN Hx HBN) as [HJ HS].
  rewrite seqZ_product by lia.
  destruct pos_ends as [Hp0 HpN].
  pose proof (cells_stripes pos 0 m NB ltac:(lia)) as Hst. cbv beta in Hst.
  rewrite Hp0, HpN in Hst. unfold grid. rewrite <-Hst
    by (intros; apply BLOC_POS_le; [lia|apply BLOC_POS_mono; lia]).
  rewrite values_bind, list_bind_assoc.
  apply bind_perm_in. intros jb Hjb. apply elem_of_seqZ in Hjb.
  rewrite list_bind_assoc.
  rewrite Hmy at 2.
  rewrite <-(cells_tiles_rows 0 (RM * BM) ytiles) by nia.
  rewrite values_bind. apply bind_perm_in. intros it Hit. apply elem_of_seqZ in Hit.
  simpl. rewrite app_nil_r.
  destruct (job_body_tile it jb) as (ws & -> & Hws); [lia..|].
  simpl. rewrite Hws.
  match goal with |- ?a ≡ₚ ?b => assert (a = b) as ->; [|done] end.
  do 2 f_equal; lia.
Qed.
End jobs.

(** * The shared job counter *)

Section scheduler.
Context {F : Type}.
Variables (nth nb_job : Z) (body : Z → option (list (write F))).
Hypothesis Hnth : 0 < nth.
Hypothesis Hbody : ∀ job, 0 ≤ job < nb_job → is_Some (body job).

Local Abbreviation step := (tinyBLAS.worker_step nb_job body).
Local Abbreviation Inv := (pool_inv nth nb_job body).

Lemma pool_init_inv : Inv (tinyBLAS.pool_init nth) [].
Proof.
  assert (∀ w j, holds (tinyBLAS.pool_init (F:=F) nth) w j ↔ j = Z.of_nat w ∧ j < nth) as Hh.
  { intros w j. unfold holds. simpl. rewrite list_lookup_fmap.
    destruct (seqZ 0 nth !! w) as [j'|] eqn:E; simpl.
    - apply lookup_seqZ in E. split; [intros [= <-]; lia|intros []; do 2 f_equal; lia].
    - split; [done|]. intros [-> Hlt].
      assert (seqZ 0 nth !! w = Some (Z.of_nat w)) as E'
        by (apply lookup_seqZ; lia). congruence. }
  split; simpl; try done.
  - rewrite length_fmap, length_seqZ. done.
  - lia.
  - apply NoDup_nil_2.
  - intros j Hj. by apply elem_of_nil in Hj.
  - intros w j Hw. apply Hh in Hw. lia.
  - intros w1 w2 j H1 H2. apply Hh in H1, H2. lia.
  - intros j Hj _. right. exists (Z.to_nat j). apply Hh. lia.
  - intros Hin. apply list_elem_of_fmap in Hin as (? & ? & _). done.
Qed.

Lemma holds_insert_working (p : pool F) (w w' : nat) (c j : Z) (ws : list (write F)) b :
  holds (Pool (current_chunk p + 1) (<[w := Working c]> (workers p)) ws b) w' j →
  (w' = w ∧ j = c) ∨ (w' ≠ w ∧ holds p w' j).
Proof.
  unfold holds. simpl. rewrite list_lookup_insert. case_decide as Hd.
  - destruct Hd as [-> _]. intros [= <-]. by left.
  - intros H. destruct (decide (w' = w)) as [->|]; [|by right].
    exfalso. apply Hd. split; [done|]. by apply lookup_lt_Some in H.
Qed.

Lemma holds_insert_finished (p : pool F) (w w' : nat) (c j : Z) (ws : list (write F)) b :
  holds (Pool c (<[w := Finished]> (workers p)) ws b) w' j → w' ≠ w ∧ holds p w' j.
Proof.
  unfold holds. simpl. rewrite list_lookup_insert. case_decide as Hd; [done|].
  intros H. destruct (decide (w' = w)) as [->|]; [|done].
  exfalso. apply Hd. split; [done|]. by apply lookup_lt_Some in H.
Qed.

Lemma step_inv (p : pool F) (done : list Z) (w : nat) :
  Inv p done → ∃ done', Inv (step p w) done'.
Proof.
  intros [Hf Hlen Hc Hlog Hnd Hdone Hheld Huniq Hcover Hexit].
  unfold tinyBLAS.worker_step.
  destruct (workers p !! w) as [[job|]|] eqn:Hw; [|by eexists..].
  assert (holds p w job) as Hhw by done.
  pose proof (lookup_lt_Some _ _ _ Hw) as Hwlt.
  pose proof (Hheld w job Hhw) as Hjob.
  case_decide as Hlt.
  - destruct (Hbody job ltac:(lia)) as [ws Hws]. rewrite Hws.
    exists (done ++ [job]). split; simpl; try done.
    + by rewrite length_insert.
    + lia.
    + rewrite bind_app, Hlog. simpl. by rewrite Hws, app_nil_r.
    + apply NoDup_app. split_and!; [done| |apply NoDup_singleton].
      intros j Hj Hj'. apply list_elem_of_singleton in Hj' as ->.
      destruct (Hdone job Hj) as (_ & _ & Hno). by apply (Hno w).
    + intros j Hj. apply elem_of_app in Hj as [Hj|Hj].
      * destruct (Hdone j Hj) as (? & ? & Hno). split_and!; [lia..|].
        intros w' Hw'. apply holds_insert_working in Hw' as [[_ ->]|[_ Hw']]; [lia|].
        by apply (Hno w').
      * apply list_elem_of_singleton in Hj as ->. split_and!; [lia..|].
        intros w' Hw'. apply holds_insert_working in Hw' as [[_ ?]|[Hne Hw']]; [lia|].
        apply Hne. by apply (Huniq w' w job).
    + intros w' j Hw'. apply holds_insert_working in Hw' as [[_ ->]|[_ Hw']]; [lia|].
      apply Hheld in Hw'. lia.
    + intros w1 w2 j H1 H2.
      apply holds_insert_working in H1 as [[-> ->]|[Hn1 H1]],
                                   H2 as [[-> E2]|[Hn2 H2]]; try done.
      * apply Hheld in H2. lia.
      * apply Hheld in H1. lia.
      * by apply (Huniq w1 w2 j).
    + intros j Hj Hjn. destruct (decide (j = current_chunk p)) as [->|Hne].
      * right. exists w. unfold holds. simpl. by apply list_lookup_insert_eq.
      * destruct (Hcover j ltac:(lia) Hjn) as [Hin|[w0 Hw0]].
        -- left. apply elem_of_app. by left.
        -- destruct (decide (w0 = w)) as [->|Hw0ne].
           ++ left. apply elem_of_app. right. apply list_elem_of_singleton.
              unfold holds in *. congruence.
           ++ right. exists w0. unfold holds in *. simpl.
              by rewrite list_lookup_insert_ne.
    + intros Hin. apply list_elem_of_lookup in Hin as [w' Hw'].
      rewrite list_lookup_insert in Hw'. case_decide; [done|].
      assert (nb_job ≤ current_chunk p); [|lia].
      apply Hexit, list_elem_of_lookup. eauto.
  - exists done. split; simpl; try done.
    + by rewrite length_insert.
    + intros j Hj. destruct (Hdone j Hj) as (? & ? & Hno). split_and!; [lia..|].
      intros w' Hw'. apply holds_insert_finished in Hw' as [_ Hw']. by apply (Hno w').
    + intros w' j Hw'. apply holds_insert_finished in Hw' as [_ Hw']. by apply Hheld in Hw'.
    + intros w1 w2 j H1 H2.
      apply holds_insert_finished in H1 as [_ H1], H2 as [_ H2]. by apply (Huniq w1 w2 j).
    + intros j Hj Hjn. destruct (Hcover j Hj Hjn) as [Hin|[w0 Hw0]]; [by left|].
      right. exists w0. unfold holds in *. simpl.
      rewrite list_lookup_insert_ne; [done|]. intros ->. simplify_eq. lia.
    + intros _. lia.
Qed.

Lemma run_inv (sched : list nat) (p : pool F) (done : list Z) :
  Inv p done → ∃ done', Inv (foldl step p sched) done'.
Proof.
  revert p done. induction sched as [|w sched IH]; intros p done HI; simpl; [eauto|].
  destruct (step_inv p done w HI) as [done' HI']. eauto.
Qed.

(** When every worker has left the loop, the jobs run are exactly
    [0 .. nb_job - 1], each once. *)
Lemma finished_jobs (p : pool F) (done : list Z) :
  Inv p done → forallb is_finished (workers p) = true → done ≡ₚ seqZ 0 nb_job.
Proof.
  intros [Hf Hlen Hc Hlog Hnd Hdone Hheld Huniq Hcover Hexit] Hall.
  apply Is_true_true, forallb_True in Hall.
  assert (∀ w j, ¬ holds p w j) as Hnone.
  { intros w j Hw. eapply Forall_lookup in Hall; [|exact Hw]. done. }
  assert (nb_job ≤ current_chunk p) as Hge.
  { apply Hexit. destruct (workers p) as [|[j|] ws] eqn:E; simpl in Hlen; [lia| |left].
    by apply Forall_cons in Hall as [? _]. }
  apply NoDup_Permutation; [done|apply NoDup_seqZ|].
  intros j. rewrite elem_of_seqZ. split.
  - intros Hj. apply Hdone in Hj. lia.
  - intros Hj. destruct (Hcover j ltac:(lia) ltac:(lia)) as [|[w Hw]]; [done|].
    by apply Hnone in Hw.
Qed.

Lemma finished_log (sched : list nat) :
  forallb is_finished (workers (foldl step (tinyBLAS.pool_init nth) sched)) = true →
  log (foldl step (tinyBLAS.pool_init nth) sched)
  ≡ₚ seqZ 0 nb_job ≫= (λ job, default [] (body job)).
Proof.
  intros Hall. destruct (run_inv sched _ _ pool_init_inv) as [done HI].
  rewrite (inv_log _ _ _ _ _ HI). f_equiv. by eapply finished_jobs.
Qed.

Lemma never_failed (sched : list nat) :
  failed (foldl step (tinyBLAS.pool_init nth) sched) = false.
Proof.
  destruct (run_inv sched _ _ pool_init_inv) as [done HI]. by destruct HI.
Qed.
End scheduler.

(** * Every worker leaves the job loop *)

Section liveness.
Context {F : Type}.
Variables (nth nb_job : Z) (body : Z → option (list (write F))).
Hypothesis Hnth : 0 < nth.
Hypothesis Hbody : ∀ job, 0 ≤ job < nb_job → is_Some (body job).

Local Abbreviation step := (tinyBLAS.worker_step nb_job body).
Local Abbreviation Inv := (pool_inv nth nb_job body).

Lemma keeps_finished_trans (p1 p2 p3 : pool F) :
  keeps_finished p1 p2 → keeps_finished p2 p3 → keeps_finished p1 p3.
Proof. unfold keeps_finished. eauto. Qed.

Lemma step_working (p : pool F) (w : nat) (job : Z) :
  holds p w job → 0 ≤ job < nb_job →
  ∃ ws, step p w = Pool (current_chunk p + 1)
                        (<[w := Working (current_chunk p)]> (workers p))
                        (log p ++ ws) (failed p).
Proof.
  intros Hw Hjob. unfold tinyBLAS.worker_step. unfold holds in Hw. rewrite Hw.
  rewrite decide_True by lia. destruct (Hbody job Hjob) as [ws ->]. eauto.
Qed.

Lemma step_exit (p : pool F) (w : nat) (job : Z) :
  holds p w job → nb_job ≤ job →
  step p w = Pool (current_chunk p) (<[w := Finished]> (workers p)) (log p) (failed p).
Proof.
  intros Hw Hjob. unfold tinyBLAS.worker_step. unfold holds in Hw. rewrite Hw.
  by rewrite decide_False by lia.
Qed.

(** Worker [w], taking turns alone, leaves the loop. *)
Lemma worker_runs_out (n : nat) (p : pool F) (done : list Z) (w : nat) (job : Z) :
  Inv p done → holds p w job → (Z.to_nat (nb_job - job) ≤ n)%nat →
  ∃ t, workers (foldl step p (replicate t w)) !! w = Some Finished ∧
       keeps_finished p (foldl step p (replicate t w)) ∧
       ∃ done', Inv (foldl step p (replicate t w)) done'.
Proof.
  assert (∀ p done job, Inv p done → holds p w job → nb_job ≤ job →
    workers (foldl step p (replicate 1 w)) !! w = Some Finished ∧
    keeps_finished p (foldl step p (replicate 1 w)) ∧
    ∃ done', Inv (foldl step p (replicate 1 w)) done') as Hexit.
  { intros p0 done0 job0 HI Hw Hge. simpl.
    destruct (step_inv nth nb_job body Hnth Hbody p0 done0 w HI) as [done1 HI1].
    pose proof (lookup_lt_Some _ _ _ Hw) as Hwlt.
    rewrite (step_exit p0 w job0 Hw Hge) in *. simpl. split_and!; [|  |eauto].
    - by apply list_lookup_insert_eq.
    - intros w' Hw'. simpl. rewrite list_lookup_insert_ne; [done|].
      unfold holds in Hw. congruence. }
  revert p done job. induction n as [|n IH]; intros p done job HI Hw Hn;
    pose proof (inv_held _ _ _ _ _ HI w job Hw) as Hjob;
    destruct (decide (job < nb_job)) as [Hlt|Hge];
    [lia|exists 1%nat; eapply Hexit; eauto; lia| |exists 1%nat; eapply Hexit; eauto; lia].
  destruct (step_inv nth nb_job body Hnth Hbody p done w HI) as [done1 HI1].
  pose proof (lookup_lt_Some _ _ _ Hw) as Hwlt.
  destruct (step_working p w job Hw ltac:(lia)) as [ws Hst].
  edestruct (IH (step p w) done1 (current_chunk p) HI1) as (t & Hfin & Hkeep & Hinv).
  { rewrite Hst. unfold holds. simpl. by apply list_lookup_insert_eq. }
  { lia. }
  exists (S t). simpl. split_and!; [done| |done].
  eapply keeps_finished_trans; [|exact Hkeep].
  intros w' Hw'. rewrite Hst. simpl. rewrite list_lookup_insert_ne; [done|].
  unfold holds in Hw. congruence.
Qed.

Lemma workers_run_out (l : list nat) (p : pool F) (done : list Z) :
  Inv p done → (∀ w, w ∈ l → (w < Z.to_nat nth)%nat) →
  ∃ sched, (∀ w, w ∈ l → workers (foldl step p sched) !! w = Some Finished) ∧
           keeps_finished p (foldl step p sched) ∧
           ∃ done', Inv (foldl step p sched) done'.
Proof.
  revert p done. induction l as [|w l IH]; intros p done HI Hl.
  { exists []. simpl. split_and!; [|by intros ?|eauto]. intros w Hw. by apply elem_of_nil in Hw. }
  assert (∃ t, workers (foldl step p (replicate t w)) !! w = Some Finished ∧
       keeps_finished p (foldl step p (replicate t w)) ∧
       ∃ done', Inv (foldl step p (replicate t w)) done') as (t & Hfin & Hkeep & done1 & HI1).
  { assert (w < length (workers p))%nat as Hlt.
    { rewrite (inv_workers _ _ _ _ _ HI). apply Hl. left. }
    apply lookup_lt_is_Some in Hlt as [[job|] Hw].
    - by eapply worker_runs_out.
    - exists 0%nat. simpl. split_and!; [done|by intros ?|eauto]. }
  destruct (IH _ done1 HI1) as (sched & Hall & Hkeep' & HI2).
  { intros w' Hw'. apply Hl. by right. }
  exists (replicate t w ++ sched). rewrite foldl_app. split_and!; [|by eapply keeps_finished_trans|done].
  intros w' Hw'. apply elem_of_cons in Hw' as [->|Hw']; [by apply Hkeep'|by apply Hall].
Qed.

(** Some schedule lets every worker return. *)
Lemma pool_completes :
  ∃ sched, forallb is_finished (workers (foldl step (tinyBLAS.pool_init nth) sched)) = true.
Proof.
  destruct (workers_run_out (seq 0 (Z.to_nat nth)) _ _ (pool_init_inv nth nb_job body Hnth))
    as (sched & Hall & _ & done & HI).
  { intros w Hw. apply elem_of_seq in Hw. lia. }
  exists sched. apply Is_true_true, forallb_True, Forall_lookup. intros w x Hx.
  rewrite Hall in Hx; [by simplify_eq|].
  apply lookup_lt_Some in Hx. rewrite (inv_workers _ _ _ _ _ HI) in Hx.
  apply elem_of_seq. lia.
Qed.
End liveness.

(** * The floating point engine as a whole *)

Section fp_gemm.
Context {F TA TB : Type} {voc : vocabulary F TA TB}.
Variables (KN nth : Z) (A : Z → TA) (B : Z → TB) (k lda ldb : Z).
Variables (RM RN BM m n BN : Z).
Hypotheses (HRM : 1 ≤ RM) (HBM : 1 ≤ BM) (HRN : 1 ≤ RN) (HBN : 1 ≤ BN).
Hypotheses (Hm : 0 ≤ m) (Hmr : m `rem` (RM * BM) = 0) (Hn : 1 ≤ n) (Hnth : 0 < nth).
Hypothesis HjjRN :
  let xtiles := (n + RN - 1) `quot` RN in 0 ≤ xtiles - (xtiles * RN - n) ≤ xtiles.

Local Abbreviation cv := (tinyBLAS.cell_value KN A B k lda ldb).
Local Abbreviation gemm := (tinyBLAS.gemm KN nth A B k lda ldb RM RN BM m n BN).

Lemma gemm_unfold (sched : list nat) :
  ∃ nb_job body,
    (∀ job, 0 ≤ job < nb_job → is_Some (body job)) ∧
    seqZ 0 nb_job ≫= (λ job, default [] (body job)) ≡ₚ values cv (grid m n) ∧
    ∀ sched, gemm sched
             = tinyBLAS.pool_result
                 (foldl (tinyBLAS.worker_step nb_job body) (tinyBLAS.pool_init nth) sched).
Proof.
  eexists _, _. split_and!; [| |intros sched'; unfold tinyBLAS.gemm].
  3:{ rewrite decide_True by done. rewrite decide_True; [reflexivity|].
      unfold jj_BN. lia. }
  - intros job Hjob. by apply body_is_Some.
  - by apply all_jobs.
Qed.

Lemma gemm_returned (sched : list nat) (ws : list (write F)) :
  gemm sched = Returned () ws → ws ≡ₚ values cv (grid m n).
Proof.
  destruct (gemm_unfold sched) as (nb_job & body & Hbody & Hall & Hg).
  rewrite Hg. unfold tinyBLAS.pool_result.
  rewrite (never_failed nth nb_job body Hnth Hbody).
  destruct (forallb _ _) eqn:Hfin; [|done]. intros [= <-].
  rewrite <-Hall. by apply finished_log.
Qed.

Lemma gemm_not_aborted (sched : list nat) : gemm sched ≠ Aborted.
Proof.
  destruct (gemm_unfold sched) as (nb_job & body & Hbody & Hall & Hg).
  rewrite Hg. unfold tinyBLAS.pool_result.
  rewrite (never_failed nth nb_job body Hnth Hbody).
  by destruct (forallb _ _).
Qed.

Lemma gemm_completes : ∃ sched ws, gemm sched = Returned () ws.
Proof.
  destruct (gemm_unfold []) as (nb_job & body & Hbody & Hall & Hg).
  destruct (pool_completes nth nb_job body Hnth Hbody) as [sched Hfin].
  exists sched. rewrite Hg. unfold tinyBLAS.pool_result.
  rewrite (never_failed nth nb_job body Hnth Hbody), Hfin. eauto.
Qed.
End fp_gemm.

Lemma rem_0_divide (a b : Z) : b ≠ 0 → a `rem` b = 0 ↔ (b | a).
Proof. intros. by apply Z.rem_divide. Qed.

Lemma rem_multiple (a b c : Z) : b ≠ 0 → c ≠ 0 → a `rem` (b * c) = 0 → a `rem` b = 0.
Proof.
  intros Hb Hc H. apply rem_0_divide in H; [|lia]. apply rem_0_divide; [done|].
  destruct H as [q ->]. exists (q * c). lia.
Qed.

Section fp_matmul.
Context {F TA TB : Type} {voc : vocabulary F TA TB}.
Variables (KN VR nth : Z) (A : Z → TA) (B : Z → TB) (k lda ldb : Z).
Variables (m n : Z).
Hypotheses (Hm : 0 ≤ m) (Hn : 1 ≤ n < 2 ^ 63) (Hnth : 0 < nth).

Local Abbreviation cv := (tinyBLAS.cell_value KN A B k lda ldb).

Lemma mnpack_gemm (RN0 : nat) (RM BM s BN : Z) (sched : list nat) :
  1 ≤ s ≤ Z.of_nat RN0 →
  tinyBLAS.mnpack KN nth A B k lda ldb RM RN0 BM m n s BN sched
  = tinyBLAS.gemm KN nth A B k lda ldb RM s BM m n BN sched.
Proof.
  induction RN0 as [|RN0 IH]; intros Hs; [lia|].
  simpl. case_decide as Heq; [by rewrite Heq|].
  destruct RN0 as [|RN0]; [lia|]. apply IH. lia.
Qed.

Lemma run_serves (RN0 : nat) (BM BN : Z) :
  (1 ≤ RN0)%nat → Z.of_nat RN0 < 2 ^ 32 → 1 ≤ BM → 1 ≤ BN → m `rem` (4 * BM) = 0 →
  serves cv m n (tinyBLAS.run KN nth A B k lda ldb RN0 BM m n BN).
Proof.
  intros HRN0 HRN0' HBM HBN Hmr. unfold tinyBLAS.run.
  destruct (BLOCK_SIZE_spec (Z.of_nat RN0) n ltac:(lia) Hn) as (s & -> & Hs & Hx).
  cbv zeta in Hx. rewrite <-quot_div in Hx by lia.
  assert (∀ sched, tinyBLAS.mnpack KN nth A B k lda ldb 4 RN0 BM m n s BN sched
                   = tinyBLAS.gemm KN nth A B k lda ldb 4 s BM m n BN sched) as Hmn
    by (intros; by apply mnpack_gemm).
  split_and!.
  - intros sched b ws. rewrite Hmn.
    destruct (tinyBLAS.gemm _ _ _ _ _ _ _ _ _ _ _ _ _ _) eqn:Hg; [|done..].
    intros [= <- <-]. split; [done|]. destruct x.
    by apply (gemm_returned KN nth A B k lda ldb 4 s BM m n BN
      ltac:(lia) HBM ltac:(lia) HBN Hm Hmr ltac:(lia) Hnth ltac:(cbv zeta; lia) sched).
  - intros sched. rewrite Hmn.
    pose proof (gemm_not_aborted KN nth A B k lda ldb 4 s BM m n BN
      ltac:(lia) HBM ltac:(lia) HBN Hm Hmr ltac:(lia) Hnth ltac:(cbv zeta; lia) sched).
    by destruct (tinyBLAS.gemm _ _ _ _ _ _ _ _ _ _ _ _ _ _).
  - destruct (gemm_completes KN nth A B k lda ldb 4 s BM m n BN
      ltac:(lia) HBM ltac:(lia) HBN Hm Hmr ltac:(lia) Hnth ltac:(cbv zeta; lia))
      as (sched & ws & Hg).
    exists sched, ws. by rewrite Hmn, Hg.
Qed.

Lemma matmul_rejects (sched : list nat) :
  k `rem` KN ≠ 0 ∨ m `rem` 4 ≠ 0 →
  tinyBLAS.matmul KN VR nth A B k lda ldb m n sched = Returned false [].
Proof.
  intros H. unfold tinyBLAS.matmul.
  destruct (decide (k `rem` KN ≠ 0)) as [|Hk]; [reflexivity|].
  destruct H as [H|H4]; [contradiction|].
  assert (m `rem` 16 ≠ 0) as H16.
  { intros E. apply H4. apply (rem_multiple m 4 4); [lia|lia|exact E]. }
  assert (m `rem` 8 ≠ 0) as H8.
  { intros E. apply H4. apply (rem_multiple m 4 2); [lia|lia|exact E]. }
  destruct (decide (VR = 32)).
  - rewrite (decide_False (P := m `rem` 16 = 0 ∧ nth ≤ m `quot` 16)) by tauto.
    rewrite (decide_False (P := m `rem` 8 = 0)) by exact H8.
    rewrite (decide_False (P := m `rem` 4 = 0)) by exact H4. reflexivity.
  - rewrite (decide_False (P := m `rem` 16 = 0 ∧ nth ≤ m `quot` 16)) by tauto.
    rewrite (decide_False (P := m `rem` 8 = 0)) by exact H8.
    rewrite (decide_False (P := m `rem` 4 = 0)) by exact H4. reflexivity.
Qed.

Lemma matmul_serves :
  k `rem` KN = 0 → m `rem` 4 = 0 →
  serves cv m n (tinyBLAS.matmul KN VR nth A B k lda ldb m n).
Proof.
  intros Hk H4. unfold tinyBLAS.matmul.
  destruct (decide (k `rem` KN ≠ 0)) as [|_]; [contradiction|].
  assert (Z.of_nat 6 < 2 ^ 32 ∧ Z.of_nat 3 < 2 ^ 32) as [H6 H3] by (split; reflexivity).
  destruct (decide (VR = 32));
    (destruct (decide (m `rem` 16 = 0 ∧ nth ≤ m `quot` 16)) as [[H16 _]|_];
     [apply run_serves; [lia|assumption|lia|lia|exact H16]|]);
    (destruct (decide (m `rem` 8 = 0)) as [H8|_];
     [apply run_serves; [lia|assumption|lia|lia|exact H8]|]);
    (destruct (decide (m `rem` 4 = 0)) as [_|]; [|contradiction]);
    apply run_serves; [lia|assumption|lia|lia|exact H4|lia|assumption|lia|lia|exact H4].
Qed.
End fp_matmul.

(** * The flat scheme of the quantised engine *)

Lemma seqZ_split (a b : Z) : 0 ≤ a ≤ b → seqZ 0 b = seqZ 0 a ++ seqZ a (b - a).
Proof.
  intros. replace b with (a + (b - a)) at 1 by lia. by rewrite seqZ_app by lia.
Qed.

(** The duties of the workers [0 .. c-1] are the first jobs, in order. *)
Lemma jobs_prefix (nth tiles : Z) (c : nat) :
  0 < nth → 0 ≤ tiles →
  seqZ 0 (Z.of_nat c) ≫= (λ ith, tinyBLAS_Q0_AVX.jobs ith nth tiles)
  = seqZ 0 (Z.min (((tiles + nth - 1) `quot` nth) * Z.of_nat c) tiles).
Proof.
  intros Hnth Ht. set (duty := (tiles + nth - 1) `quot` nth).
  assert (0 ≤ duty) as Hd by (apply Z.quot_pos; lia).
  induction c as [|c IH].
  - simpl. by rewrite Z.mul_0_r, Z.min_l by lia.
  - rewrite Nat2Z.inj_succ. unfold Z.succ.
    rewrite seqZ_app by lia. rewrite bind_app, IH. simpl. rewrite app_nil_r.
    unfold tinyBLAS_Q0_AVX.jobs. fold duty.
    replace (0 + Z.of_nat c) with (Z.of_nat c) by lia.
    destruct (decide (duty * Z.of_nat c ≤ tiles)) as [Hle|Hgt].
    + rewrite (Z.min_l (duty * Z.of_nat c)) by lia.
      case_decide.
      * rewrite Z.min_r by lia. symmetry. apply seqZ_split. lia.
      * rewrite Z.min_l by lia.
        rewrite (seqZ_split (duty * Z.of_nat c) (duty * (Z.of_nat c + 1))) by lia.
        do 2 f_equal. lia.
    + rewrite !Z.min_r by nia. rewrite decide_True by lia.
      rewrite (seqZ_nil (duty * Z.of_nat c)) by lia. by rewrite app_nil_r.
Qed.

(** All workers together run every job once, in order. *)
Lemma jobs_all (nth tiles : Z) :
  0 < nth → 0 ≤ tiles →
  seqZ 0 nth ≫= (λ ith, tinyBLAS_Q0_AVX.jobs ith nth tiles) = seqZ 0 tiles.
Proof.
  intros Hnth Ht. rewrite <-(Z2Nat.id nth) at 1 by lia.
  rewrite jobs_prefix by done. rewrite Z2Nat.id by lia. f_equal.
  rewrite quot_div by lia.
  pose proof (ceil_bounds tiles nth Ht ltac:(lia)). lia.
Qed.

Lemma jobs_single (tiles : Z) : 0 ≤ tiles → tinyBLAS_Q0_AVX.jobs 0 1 tiles = seqZ 0 tiles.
Proof.
  intros. rewrite <-(jobs_all 1 tiles) by lia. simpl. by rewrite app_nil_r.
Qed.

Lemma jobs_pool {X} (f : Z → list X) (nth tiles : Z) :
  0 < nth → 0 ≤ tiles →
  seqZ 0 nth ≫= (λ ith, tinyBLAS_Q0_AVX.jobs ith nth tiles ≫= f)
  = tinyBLAS_Q0_AVX.jobs 0 1 tiles ≫= f.
Proof.
  intros. by rewrite <-list_bind_assoc, jobs_all, jobs_single.
Qed.

Lemma fmap_bind {X Y Z'} (f : Y → Z') (g : X → list Y) (l : list X) :
  f <$> (l ≫= g) = l ≫= (λ x, f <$> g x).
Proof.
  induction l as [|x l IH]; [done|].
  change ((x :: l) ≫= g) with (g x ++ (l ≫= g)).
  by rewrite fmap_app, IH.
Qed.

(** The cells stored when a register tile is written out. *)
Lemma tile_cells {F} (g : Z → Z → F) (ii jj RM RN : Z) :
  cell <$> (j ← seqZ 0 RN; i ← seqZ 0 RM; [W (ii + i) (jj + j) (g j i)])
  = cells ii (ii + RM) jj (jj + RN).
Proof.
  rewrite cells_shift, fmap_bind. apply list_bind_ext; [|done]. intros j.
  rewrite fmap_bind. by apply list_bind_ext.
Qed.

(** Whole tiles of [RM x RN] laid out from [(m0, n0)]. *)
Lemma tiled_region (m0 n0 RM RN ytiles xtiles : Z) :
  1 ≤ RM → 1 ≤ RN → 0 ≤ ytiles → 0 ≤ xtiles →
  seqZ 0 (xtiles * ytiles)
    ≫= (λ job, cells (m0 + job `quot` xtiles * RM) (m0 + job `quot` xtiles * RM + RM)
                     (n0 + job `rem` xtiles * RN) (n0 + job `rem` xtiles * RN + RN))
  ≡ₚ cells m0 (m0 + RM * ytiles) n0 (n0 + RN * xtiles).
Proof.
  intros HRM HRN Hy Hx. rewrite seqZ_product, list_bind_assoc by done.
  rewrite <-(cells_tiles_rows m0 RM ytiles) by lia.
  apply bind_perm_in. intros it Hit. apply elem_of_seqZ in Hit.
  rewrite list_bind_assoc.
  rewrite <-(cells_tiles_cols (m0 + RM * it) (m0 + RM * it + RM) n0 RN xtiles) by lia.
  match goal with |- ?a ≡ₚ ?b => assert (a = b) as ->; [|done] end.
  apply bind_ext_in. intros jt Hjt. apply elem_of_seqZ in Hjt. simpl.
  rewrite app_nil_r.
  destruct (quot_rem_job xtiles jt it ltac:(lia) ltac:(lia)) as [-> ->].
  f_equal; lia.
Qed.

Section quant_pool.
Context {F : Type} {fo : float_ops F} (tgt : target).
Context {TA TB : Type} {blkA : block TA} {blkB : block TB}.
Variables (A : Z → TA) (B : Z → TB) (k lda ldb : Z).

Local Abbreviation run_kernel := (tinyBLAS_Q0_AVX.run_kernel tgt A B k lda ldb).
Local Abbreviation mnpack := (tinyBLAS_Q0_AVX.mnpack tgt A B k lda ldb).

(** The stores of all workers in a kernel are those of a single worker
    running alone. *)
Lemma kernel_pool (kn : tile_kernel) (nth m0 m n0 n : Z) :
  0 < nth → m0 ≤ m → n0 ≤ n → 1 ≤ (kernel_dims kn).1 → 1 ≤ (kernel_dims kn).2 →
  seqZ 0 nth ≫= (λ ith, run_kernel ith nth kn m0 m n0 n)
  = run_kernel 0 1 kn m0 m n0 n.
Proof.
  intros Hnth Hm Hn H1 H2.
  destruct kn as [RM RN|RN|RM]; simpl in *;
    unfold tinyBLAS_Q0_AVX.gemm, tinyBLAS_Q0_AVX.gemm4xN, tinyBLAS_Q0_AVX.gemmMx4;
    apply jobs_pool; try done;
    apply Z.mul_nonneg_nonneg; apply Z.quot_pos; lia.
Qed.

Lemma kernel_cells (kn : tile_kernel) (m0 m n0 n : Z) :
  m0 ≤ m → n0 ≤ n → 1 ≤ (kernel_dims kn).1 → 1 ≤ (kernel_dims kn).2 →
  cell <$> run_kernel 0 1 kn m0 m n0 n
  ≡ₚ cells m0 (m0 + (m - m0) `quot` (kernel_dims kn).1 * (kernel_dims kn).1)
           n0 (n0 + (n - n0) `quot` (kernel_dims kn).2 * (kernel_dims kn).2).
Proof.
  intros Hm Hn H1 H2.
  destruct kn as [RM RN|RN|RM]; simpl in *;
    unfold tinyBLAS_Q0_AVX.gemm, tinyBLAS_Q0_AVX.gemm4xN, tinyBLAS_Q0_AVX.gemmMx4.
  all: rewrite jobs_single by (apply Z.mul_nonneg_nonneg; apply Z.quot_pos; lia).
  all: rewrite fmap_bind.
  all: erewrite list_bind_ext; [|intros job; apply tile_cells|reflexivity].
  all: rewrite tiled_region by (try apply Z.quot_pos; lia).
  all: match goal with |- ?a ≡ₚ ?b => assert (a = b) as ->; [|done] end.
  all: f_equal; lia.
Qed.
End quant_pool.

(** * The recursive region split of the quantised engine *)

Lemma MIN_min (a b : Z) : MIN a b = Z.min a b.
Proof. unfold MIN. case_decide; lia. Qed.

(** Every key with two nonzero nibbles selects a kernel whose tile fits. *)
Lemma select_spec (tgt : target) (a b : Z) :
  1 ≤ a ≤ 4 → 1 ≤ b ≤ 4 →
  ∃ mc nc kn, tinyBLAS_Q0_AVX.select tgt (Z.lor (Z.shiftl a 4) b) = Some (mc, nc, kn) ∧
              kernel_dims kn = (mc, nc) ∧ 1 ≤ mc ≤ a ∧ 1 ≤ nc ≤ b.
Proof.
  intros Ha Hb.
  assert (a = 1 ∨ a = 2 ∨ a = 3 ∨ a = 4) as Ha' by lia.
  assert (b = 1 ∨ b = 2 ∨ b = 3 ∨ b = 4) as Hb' by lia.
  unfold tinyBLAS_Q0_AVX.select.
  destruct (tinyBLAS_Q0_AVX.fast tgt), (decide (VECTOR_REGISTERS tgt = 32));
    destruct Ha' as [-> | [-> | [-> | ->]]], Hb' as [-> | [-> | [-> | ->]]]; simpl;
    eexists _, _, _; (split; [reflexivity|]); simpl; split; (done || lia).
Qed.

(** A key with a zero nibble takes the [default] case. *)
Lemma select_default (tgt : target) (a b : Z) :
  0 ≤ a ≤ 4 → 0 ≤ b ≤ 4 → a = 0 ∨ b = 0 →
  tinyBLAS_Q0_AVX.select tgt (Z.lor (Z.shiftl a 4) b) = None.
Proof.
  intros Ha Hb H0.
  assert (a = 0 ∨ a = 1 ∨ a = 2 ∨ a = 3 ∨ a = 4) as Ha' by lia.
  assert (b = 0 ∨ b = 1 ∨ b = 2 ∨ b = 3 ∨ b = 4) as Hb' by lia.
  unfold tinyBLAS_Q0_AVX.select.
  destruct (decide (VECTOR_REGISTERS tgt = 32));
    destruct H0 as [-> | ->];
    [destruct Hb' as [-> | [-> | [-> | [-> | ->]]]] | destruct Ha' as [-> | [-> | [-> | [-> | ->]]]]
    |destruct Hb' as [-> | [-> | [-> | [-> | ->]]]] | destruct Ha' as [-> | [-> | [-> | [-> | ->]]]]];
    reflexivity.
Qed.

Lemma quot_tile (x c : Z) : 1 ≤ c ≤ x → 0 < x `quot` c * c ≤ x ∧ x - x `quot` c * c < c.
Proof.
  intros H. rewrite quot_div by lia.
  pose proof (Z.div_mod x c ltac:(lia)). pose proof (Z.mod_pos_bound x c ltac:(lia)).
  assert (1 ≤ x `div` c) by (apply Z.div_le_lower_bound; lia). nia.
Qed.

Lemma bind_nil {X Y} (l : list X) : l ≫= (λ _, @nil Y) = [].
Proof. induction l; [done|]. simpl. done. Qed.

Section region_split.
Context {F : Type} {fo : float_ops F} (tgt : target).
Context {TA TB : Type} {blkA : block TA} {blkB : block TB}.
Variables (A : Z → TA) (B : Z → TB) (k lda ldb : Z).

Local Abbreviation run_kernel := (tinyBLAS_Q0_AVX.run_kernel tgt A B k lda ldb).
Local Abbreviation mnpack := (tinyBLAS_Q0_AVX.mnpack tgt A B k lda ldb).

Lemma mnpack_default (ith nth : Z) (fuel : nat) (m0 m n0 n : Z) :
  m0 ≤ m → n0 ≤ n → m - m0 = 0 ∨ n - n0 = 0 →
  mnpack ith nth (S fuel) m0 m n0 n = Some [].
Proof.
  intros Hm Hn H0. simpl. rewrite !MIN_min.
  rewrite select_default; [done|lia..].
Qed.

(** With enough fuel [mnpack] returns; a single worker then stores every
    cell of the region once, and the stores of any pool of workers are a
    rearrangement of those. *)
Lemma mnpack_region (fuel : nat) (m0 m n0 n : Z) :
  m0 ≤ m → n0 ≤ n → (tinyBLAS_Q0_AVX.mnpack_fuel m0 m n0 n ≤ fuel)%nat →
  ∃ ref, mnpack 0 1 fuel m0 m n0 n = Some ref ∧
         cell <$> ref ≡ₚ cells m0 m n0 n ∧
         ∀ nth, 0 < nth →
           ∃ g, (∀ ith, mnpack ith nth fuel m0 m n0 n = Some (g ith)) ∧
                seqZ 0 nth ≫= g ≡ₚ ref.
Proof.
  revert m0 m n0 n. induction fuel as [|fuel IH]; intros m0 m n0 n Hm Hn Hf.
  { unfold tinyBLAS_Q0_AVX.mnpack_fuel in Hf. lia. }
  destruct (decide (m - m0 = 0 ∨ n - n0 = 0)) as [H0|H1].
  { exists []. split_and!.
    - by apply mnpack_default.
    - destruct H0; [rewrite cells_no_rows|rewrite cells_no_cols]; done || lia.
    - intros nth Hnth. exists (λ _, []). split; [|by rewrite bind_nil].
      intros ith. by apply mnpack_default. }
  destruct (select_spec tgt (Z.min (m - m0) 4) (Z.min (n - n0) 4))
    as (mc & nc & kn & Hsel & Hdims & Hmc & Hnc); [lia..|].
  destruct (quot_tile (m - m0) mc ltac:(lia)) as [Hmp Hmp'].
  destruct (quot_tile (n - n0) nc ltac:(lia)) as [Hnp Hnp'].
  set (mp := m0 + (m - m0) `quot` mc * mc) in *.
  set (np := n0 + (n - n0) `quot` nc * nc) in *.
  unfold tinyBLAS_Q0_AVX.mnpack_fuel in Hf.
  destruct (IH mp m n0 np) as (ref1 & Hr1 & Hc1 & Hp1);
    [lia..|unfold tinyBLAS_Q0_AVX.mnpack_fuel; lia|].
  destruct (IH m0 m np n) as (ref2 & Hr2 & Hc2 & Hp2);
    [lia..|unfold tinyBLAS_Q0_AVX.mnpack_fuel; lia|].
  assert (∀ ith nth, mnpack ith nth (S fuel) m0 m n0 n
    = ws1 ← mnpack ith nth fuel mp m n0 np;
      ws2 ← mnpack ith nth fuel m0 m np n;
      Some (run_kernel ith nth kn m0 m n0 n ++ ws1 ++ ws2)) as Hstep.
  { intros ith nth. simpl. rewrite !MIN_min, Hsel. done. }
  assert (1 ≤ (kernel_dims kn).1 ∧ 1 ≤ (kernel_dims kn).2) as [Hd1 Hd2]
    by (rewrite Hdims; simpl; lia).
  exists (run_kernel 0 1 kn m0 m n0 n ++ ref1 ++ ref2). split_and!.
  - by rewrite Hstep, Hr1, Hr2.
  - rewrite !fmap_app, Hc1, Hc2, kernel_cells by (done || lia).
    rewrite Hdims. simpl. fold mp np.
    rewrite (cells_app_cols m0 m n0 np n) by lia.
    rewrite (cells_perm_rows m0 mp m n0 np) by lia.
    by rewrite <-app_assoc.
  - intros nth Hnth.
    destruct (Hp1 nth Hnth) as (g1 & Hg1 & Hb1).
    destruct (Hp2 nth Hnth) as (g2 & Hg2 & Hb2).
    exists (λ ith, run_kernel ith nth kn m0 m n0 n ++ g1 ith ++ g2 ith). split.
    + intros ith. by rewrite Hstep, Hg1, Hg2.
    + rewrite bind_app_perm, bind_app_perm, Hb1, Hb2.
      by rewrite kernel_pool by (done || lia).
Qed.
End region_split.

(** * Bytes and lanes *)

Lemma forall_bytes (P : Z → bool) :
  forallb P (seqZ 0 256) = true → ∀ x, 0 ≤ x < 256 → P x = true.
Proof.
  intros H x Hx. apply Is_true_true, forallb_True in H.
  eapply Forall_forall in H; [by apply Is_true_true|]. apply elem_of_seqZ. lia.
Qed.

Lemma forall_bytes2 (P : Z → Z → bool) :
  forallb (λ x, forallb (P x) (seqZ 0 256)) (seqZ 0 256) = true →
  ∀ x y, 0 ≤ x < 256 → 0 ≤ y < 256 → P x y = true.
Proof.
  intros H x y Hx Hy. apply (forall_bytes (P x)); [|done].
  by apply (forall_bytes (λ x, forallb (P x) (seqZ 0 256))).
Qed.

Lemma le_bytes_2 (x : Z) : le_bytes 2 x = [x `mod` 256; (x `div` 256) `mod` 256].
Proof. done. Qed.

(** The low nibble of every byte of a 16-bit lane shifted right by four
    is the high nibble of that byte. *)
Lemma srli_nibbles (x0 x1 : Z) :
  0 ≤ x0 < 256 → 0 ≤ x1 < 256 →
  Z.land 15 (Z.shiftr (x0 + 256 * x1) 4 `mod` 256) = Z.shiftr x0 4 ∧
  Z.land 15 ((Z.shiftr (x0 + 256 * x1) 4 `div` 256) `mod` 256) = Z.shiftr x1 4.
Proof.
  intros H0 H1.
  set (P := λ x0 x1 : Z,
    (Z.land 15 (Z.shiftr (x0 + 256 * x1) 4 `mod` 256) =? Z.shiftr x0 4) &&
    (Z.land 15 ((Z.shiftr (x0 + 256 * x1) 4 `div` 256) `mod` 256) =? Z.shiftr x1 4)).
  assert (forallb (λ x, forallb (P x) (seqZ 0 256)) (seqZ 0 256) = true) as H
    by (vm_compute; reflexivity).
  pose proof (forall_bytes2 P H x0 x1 H0 H1) as HP. unfold P in HP. clear H P.
  apply andb_true_iff in HP as [Ha Hb]. apply Z.eqb_eq in Ha, Hb. split; assumption.
Qed.

Lemma denibble_spec (p : list Z) :
  bytes 16 p →
  denibble p = ((λ x, Z.land x 15) <$> p) ++ ((λ x, Z.shiftr x 4) <$> p).
Proof.
  intros [Hlen Hb].
  do 16 (destruct p as [|? p]; [done|]). destruct p; [|done]. clear Hlen.
  repeat (apply Forall_cons in Hb as [? Hb]).
  unfold denibble, _mm256_and_si256, _mm256_insertf128_si256_1, _mm256_castsi128_si256,
    _mm_loadu_si128, _mm256_set1_epi8.
  cbn [take app replicate _mm_srli_epi16 le_bytes zip_with fmap list_fmap].
  change (15 `mod` 256) with 15.
  repeat match goal with
  | |- context [Z.shiftr (?a + 256 * ?b) 4] =>
      destruct (srli_nibbles a b ltac:(done) ltac:(done)) as [-> ->]
  end.
  rewrite !(Z.land_comm 15). reflexivity.
Qed.

Lemma le_bytes_le_word_4 (h0 h1 h2 h3 : Z) :
  0 ≤ h0 < 256 → 0 ≤ h1 < 256 → 0 ≤ h2 < 256 → 0 ≤ h3 < 256 →
  le_bytes 4 (le_word [h0; h1; h2; h3]) = [h0; h1; h2; h3].
Proof.
  intros. cbn [le_bytes le_word].
  set (x := h0 + 256 * (h1 + 256 * (h2 + 256 * (h3 + 256 * 0)))).
  assert (x `mod` 256 = h0 ∧ x `div` 256 = h1 + 256 * (h2 + 256 * h3)) as [-> ->]
    by (subst x; split; [symmetry; apply Z.mod_unique with (q := h1 + 256 * (h2 + 256 * h3))
                        |symmetry; apply Z.div_unique with (r := h0)]; lia).
  assert ((h1 + 256 * (h2 + 256 * h3)) `mod` 256 = h1 ∧
          (h1 + 256 * (h2 + 256 * h3)) `div` 256 = h2 + 256 * h3) as [-> ->]
    by (split; [symmetry; apply Z.mod_unique with (q := h2 + 256 * h3)
               |symmetry; apply Z.div_unique with (r := h1)]; lia).
  assert ((h2 + 256 * h3) `mod` 256 = h2 ∧ (h2 + 256 * h3) `div` 256 = h3) as [-> ->]
    by (split; [symmetry; apply Z.mod_unique with (q := h3)
               |symmetry; apply Z.div_unique with (r := h2)]; lia).
  by rewrite Z.mod_small by lia.
Qed.

Lemma testbit_add_byte (h r n : Z) :
  0 ≤ h < 256 → 0 ≤ n →
  Z.testbit (h + 256 * r) n = if decide (n < 8) then Z.testbit h n else Z.testbit r (n - 8).
Proof.
  intros Hh Hn. case_decide.
  - rewrite <-(Z.mod_pow2_bits_low (h + 256 * r) 8 n) by lia.
    f_equal. change (2 ^ 8) with 256.
    symmetry. apply Z.mod_unique with (q := r); lia.
  - replace n with ((n - 8) + 8) at 1 by lia.
    rewrite <-Z.div_pow2_bits by lia. f_equal. change (2 ^ 8) with 256.
    symmetry. apply Z.div_unique with (r := h); lia.
Qed.

(** Bit [8 q + t] of a little-endian word is bit [t] of its byte [q]. *)
Lemma testbit_le_word_4 (h0 h1 h2 h3 i : Z) :
  0 ≤ h0 < 256 → 0 ≤ h1 < 256 → 0 ≤ h2 < 256 → 0 ≤ h3 < 256 → 0 ≤ i < 32 →
  Z.testbit (le_word [h0; h1; h2; h3]) i
  = Z.testbit (default 0 ([h0; h1; h2; h3] !! Z.to_nat (i `div` 8))) (i `mod` 8).
Proof.
  intros H0 H1 H2 H3 Hi. cbn [le_word].
  pose proof (Z.div_mod i 8 ltac:(lia)) as Hdm.
  pose proof (Z.mod_pos_bound i 8 ltac:(lia)) as Hmb.
  assert (0 ≤ i `div` 8 < 4) as Hq4
    by (split; [apply Z.div_pos|apply Z.div_lt_upper_bound]; lia).
  assert (i `div` 8 = 0 ∨ i `div` 8 = 1 ∨ i `div` 8 = 2 ∨ i `div` 8 = 3) as Hq by lia.
  destruct Hq as [Hq | [Hq | [Hq | Hq]]]; rewrite Hq in *; simpl;
    repeat (rewrite testbit_add_byte by lia; case_decide; try lia);
    f_equal; lia.
Qed.

(** One byte of [bittobyte]: selected by the bit the mask byte [c] leaves
    out. *)
Lemma bit_to_byte (c h : Z) :
  0 ≤ h < 256 → existsb (Z.eqb c) [254; 253; 251; 247; 239; 223; 191; 127] = true →
  Z.land (Z.lnot (if decide (255 = Z.lor c h) then 255 else 0)) 240
  = if Z.testbit h (Z.log2 (255 - c)) then 0 else 240.
Proof.
  intros Hh Hc. apply existsb_exists in Hc as (c' & Hc & Heq).
  apply Z.eqb_eq in Heq as <-. apply list_elem_of_In in Hc.
  set (P := λ h c : Z,
    Z.land (Z.lnot (if decide (255 = Z.lor c h) then 255 else 0)) 240
    =? (if Z.testbit h (Z.log2 (255 - c)) then 0 else 240)).
  assert (forallb (λ h, forallb (P h) [254; 253; 251; 247; 239; 223; 191; 127])
                  (seqZ 0 256) = true) as H
    by (vm_compute; reflexivity).
  pose proof (forall_bytes (λ h, forallb (P h) [254; 253; 251; 247; 239; 223; 191; 127])
                H h Hh) as HP. clear H.
  apply Is_true_true, forallb_True in HP.
  eapply Forall_forall in HP; [|exact Hc].
  apply Is_true_true in HP. unfold P in HP. apply Z.eqb_eq in HP. exact HP.
Qed.

Lemma bittobyte_spec (p : list Z) :
  bytes 4 p →
  bittobyte p = (λ i, if Z.testbit (le_word p) i then 0 else 240) <$> seqZ 0 32.
Proof.
  intros [Hlen Hb].
  do 4 (destruct p as [|? p]; [done|]). destruct p; [|done]. clear Hlen.
  repeat (apply Forall_cons in Hb as [? Hb]). clear Hb.
  change (seqZ 0 32) with
    [0; 1; 2; 3; 4; 5; 6; 7; 8; 9; 10; 11; 12; 13; 14; 15; 16; 17; 18; 19; 20; 21; 22; 23;
     24; 25; 26; 27; 28; 29; 30; 31].
  cbn [fmap list_fmap].
  rewrite !testbit_le_word_4 by lia.
  unfold bittobyte, memcpy_u32. cbn [take].
  unfold _mm256_set1_epi32. rewrite le_bytes_le_word_4 by assumption.
  set (sh := _mm256_shuffle_epi8 _ _). vm_compute in sh. subst sh.
  set (mask := _mm256_set1_epi64x 9205322385119247870). vm_compute in mask. subst mask.
  set (ones := _mm256_set1_epi64x (-1)). vm_compute in ones. subst ones.
  unfold _mm256_andnot_si256, _mm256_cmpeq_epi8, _mm256_or_si256, _mm256_set1_epi8.
  change (240 `mod` 256) with 240.
  cbn [replicate zip_with].
  repeat match goal with
  | |- context [Z.land (Z.lnot (if decide (255 = Z.lor ?c ?h) then 255 else 0)) 240] =>
      rewrite (bit_to_byte c h) by (assumption || reflexivity)
  end.
  reflexivity.
Qed.

(** * The byte dot product *)

Lemma saturate16_range (p : Z) : saturate16 p = p → -32768 ≤ p ≤ 32767.
Proof. unfold saturate16. lia. Qed.

Lemma sint16_le_bytes (x : Z) :
  -32768 ≤ x ≤ 32767 → sint 16 (x `mod` 256 + 256 * ((x `div` 256) `mod` 256)) = x.
Proof.
  intros Hx.
  pose proof (Z.div_mod x 256 ltac:(lia)) as H1.
  pose proof (Z.mod_pos_bound x 256 ltac:(lia)) as H2.
  pose proof (Z.div_mod (x `div` 256) 256 ltac:(lia)) as H3.
  pose proof (Z.mod_pos_bound (x `div` 256) 256 ltac:(lia)) as H4.
  unfold sint. change (2 ^ (16 - 1)) with 32768. change (2 ^ 16) with 65536.
  case_decide; lia.
Qed.

(** Without saturation, the widening multiply-add pair computes what
    VPDPBUSD computes into a zeroed accumulator. *)
Lemma dpbusd_madd (n : nat) (u s : list Z) :
  no_saturation u s →
  _mm256_dpbusd_epi32 (replicate (4 * n) 0) u s
  = _mm256_madd_epi16 (mjoin (replicate (2 * n) (le_bytes 2 1)))
                      (_mm256_maddubs_epi16 u s).
Proof.
  revert u s. induction n as [|n IH]; intros u s Hns.
  { simpl. by destruct (_mm256_maddubs_epi16 u s). }
  replace (4 * S n)%nat with (S (S (S (S (4 * n))))) by lia.
  replace (2 * S n)%nat with (S (S (2 * n))) by lia.
  unfold _mm256_madd_epi16, _mm256_maddubs_epi16 in *.
  cbn [replicate mjoin list_join le_bytes app].
  change (1 `mod` 256) with 1. change ((1 `div` 256) `mod` 256) with 0.
  destruct u as [|u0 [|u1 [|u2 [|u3 u']]]]; try reflexivity;
    destruct s as [|s0 [|s1 [|s2 [|s3 s']]]]; try reflexivity.
  cbn [no_saturation] in Hns. destruct Hns as (H01 & H23 & Hns).
  cbn [_mm256_dpbusd_epi32 _mm_maddubs_epi16 _mm_madd_epi16 le_bytes app].
  rewrite H01, H23. apply saturate16_range in H01, H23.
  rewrite IH by exact Hns.
  rewrite !sint16_le_bytes by assumption.
  change (sint 16 (1 + 256 * 0)) with 1.
  change (le_word [0; 0; 0; 0]) with 0.
  replace (0 + u0 * sint 8 s0 + u1 * sint 8 s1 + u2 * sint 8 s2 + u3 * sint 8 s3)
    with (1 * (u0 * sint 8 s0 + u1 * sint 8 s1) + 1 * (u2 * sint 8 s2 + u3 * sint 8 s3))
    by lia.
  reflexivity.
Qed.

(** The bytes of [sign_epi8(a, a)] are at most 128. *)
Lemma sign_byte_abs (a : Z) : 0 ≤ a < 256 → 0 ≤ sign_byte a a ≤ 128.
Proof.
  intros Ha. unfold sign_byte, sint. change (2 ^ (8 - 1)) with 128. change (2 ^ 8) with 256.
  repeat case_decide; try lia.
  rewrite Z.mod_small; lia.
Qed.

Lemma sint8_range (x : Z) : 0 ≤ x < 256 → -128 ≤ sint 8 x ≤ 127.
Proof.
  intros. unfold sint. change (2 ^ (8 - 1)) with 128. change (2 ^ 8) with 256.
  case_decide; lia.
Qed.

Lemma sign_byte_byte (b a : Z) : 0 ≤ b < 256 → 0 ≤ sign_byte b a < 256.
Proof.
  intros Hb. unfold sign_byte. repeat case_decide; try lia.
  apply Z.mod_pos_bound. lia.
Qed.

Lemma list_pair_ind {X} (P : list X → Prop) :
  P [] → (∀ x, P [x]) → (∀ x y l, P l → P (x :: y :: l)) → ∀ l, P l.
Proof.
  intros H0 H1 H2 l. cut (P l ∧ ∀ x, P (x :: l)); [tauto|].
  induction l as [|y l [IHa IHb]]; [auto|]. split; [apply IHb|]. intros x. by apply H2.
Qed.

(** After the sign fold no pair of products can saturate. *)
Lemma sign_fold_no_saturation (a b : list Z) :
  Forall (λ x, 0 ≤ x < 256) a → Forall (λ x, 0 ≤ x < 256) b →
  no_saturation (_mm256_sign_epi8 a a) (_mm256_sign_epi8 b a).
Proof.
  unfold _mm256_sign_epi8. revert b.
  induction a as [|a0|a0 a1 a IH] using list_pair_ind; intros b Ha Hb.
  - by destruct b.
  - by destruct b.
  - apply Forall_cons in Ha as [Ha0 Ha]. apply Forall_cons in Ha as [Ha1 Ha].
    destruct b as [|b0 [|b1 b]]; [done..|].
    apply Forall_cons in Hb as [Hb0 Hb]. apply Forall_cons in Hb as [Hb1 Hb].
    cbn [zip_with no_saturation]. split; [|by apply IH].
    pose proof (sign_byte_abs a0 Ha0). pose proof (sign_byte_abs a1 Ha1).
    pose proof (sint8_range _ (sign_byte_byte b0 a0 Hb0)).
    pose proof (sint8_range _ (sign_byte_byte b1 a1 Hb1)).
    unfold saturate16. nia.
Qed.

Section updot.
Context {F : Type} {fo : float_ops F}.

(** The dot product does not depend on the tier when nothing saturates. *)
Lemma updot_tiers (tgt1 tgt2 : target) (u s : __m256i) :
  no_saturation u s →
  tinyBLAS_Q0_AVX.updot tgt1 u s = tinyBLAS_Q0_AVX.updot tgt2 u s.
Proof.
  intros Hns. unfold tinyBLAS_Q0_AVX.updot, _mm256_dpbusd_avx_epi32.
  pose proof (dpbusd_madd 8 u s Hns) as H.
  change (replicate (4 * 8) 0) with _mm256_setzero_si256 in H.
  change (mjoin (replicate (2 * 8) (le_bytes 2 1))) with (_mm256_set1_epi16 1) in H.
  rewrite H.
  by destruct (__AVX512VNNI__ tgt1 && __AVX512VL__ tgt1), (__AVXVNNI__ tgt1),
    (__AVX512VNNI__ tgt2 && __AVX512VL__ tgt2), (__AVXVNNI__ tgt2).
Qed.
End updot.

(** * Packed deltas of the 4xN and Mx4 kernels *)

Lemma lor_disjoint (hi lo n : Z) :
  0 ≤ n → 0 ≤ lo < 2 ^ n → hi `mod` 2 ^ n = 0 → Z.lor hi lo = hi + lo.
Proof.
  intros Hn Hlo Hhi. symmetry. apply Z.add_nocarry_lor.
  apply Z.bits_inj'. intros i Hi. rewrite Z.land_spec, Z.bits_0.
  destruct (decide (i < n)).
  - rewrite <-(Z.mod_pow2_bits_low hi n i) by lia.
    by rewrite Hhi, Z.bits_0.
  - rewrite <-(Z.mod_small lo (2 ^ n)) by lia.
    rewrite Z.mod_pow2_bits_high by lia. apply andb_false_r.
Qed.

(** The four 16-bit patterns packed into one 64-bit word. *)
Lemma packed_deltas (d0 d1 d2 d3 : Z) :
  0 ≤ d0 < 65536 → 0 ≤ d1 < 65536 → 0 ≤ d2 < 65536 → 0 ≤ d3 < 65536 →
  Z.lor (Z.lor (Z.lor (tinyBLAS_Q0_AVX.u64 (Z.shiftl d3 48))
                      (tinyBLAS_Q0_AVX.u64 (Z.shiftl d2 32)))
               (tinyBLAS_Q0_AVX.u64 (Z.shiftl d1 16))) d0
  = d0 + 65536 * (d1 + 65536 * (d2 + 65536 * d3)).
Proof.
  intros H0 H1 H2 H3. unfold tinyBLAS_Q0_AVX.u64.
  rewrite !Z.shiftl_mul_pow2 by lia.
  change (2 ^ 64) with 18446744073709551616. change (2 ^ 48) with 281474976710656.
  change (2 ^ 32) with 4294967296. change (2 ^ 16) with 65536.
  rewrite !Z.mod_small by lia.
  rewrite (lor_disjoint (d3 * 281474976710656) (d2 * 4294967296) 48);
    [|lia|change (2 ^ 48) with 281474976710656; lia
     |change (2 ^ 48) with 281474976710656; by rewrite Z.mod_mul by lia].
  rewrite (lor_disjoint _ (d1 * 65536) 32);
    [|lia|change (2 ^ 32) with 4294967296; lia|change (2 ^ 32) with 4294967296].
  2:{ replace (d3 * 281474976710656 + d2 * 4294967296)
        with ((d3 * 65536 + d2) * 4294967296) by lia. by rewrite Z.mod_mul by lia. }
  rewrite (lor_disjoint _ d0 16); [lia|lia|done|change (2 ^ 16) with 65536].
  replace (d3 * 281474976710656 + d2 * 4294967296 + d1 * 65536)
    with (((d3 * 65536 + d2) * 65536 + d1) * 65536) by lia. by rewrite Z.mod_mul by lia.
Qed.

Lemma le_word_2 (x : Z) : x `mod` 256 + 256 * ((x `div` 256) `mod` 256 + 256 * 0) = x `mod` 65536.
Proof.
  pose proof (Z.div_mod x 256 ltac:(lia)) as H1.
  pose proof (Z.mod_pos_bound x 256 ltac:(lia)) as H2.
  pose proof (Z.div_mod (x `div` 256) 256 ltac:(lia)) as H3.
  pose proof (Z.mod_pos_bound (x `div` 256) 256 ltac:(lia)) as H4.
  apply Z.mod_unique with (q := (x `div` 256) `div` 256); lia.
Qed.

Lemma low_word (d r : Z) :
  0 ≤ d < 65536 → (d + 65536 * r) `mod` 65536 = d ∧ ((d + 65536 * r) `div` 256) `div` 256 = r.
Proof.
  intros Hd. split.
  - symmetry. apply Z.mod_unique with (q := r); lia.
  - rewrite Z.div_div by lia. symmetry. apply Z.div_unique with (r := d); lia.
Qed.

Section cvtph.
Context {F : Type} {fo : float_ops F}.

(** One conversion of the packed word converts each delta. *)
Lemma cvtph_packed (d0 d1 d2 d3 : Z) :
  0 ≤ d0 < 65536 → 0 ≤ d1 < 65536 → 0 ≤ d2 < 65536 → 0 ≤ d3 < 65536 →
  _mm_cvtph_ps (_mm_set_epi64x 0 (d0 + 65536 * (d1 + 65536 * (d2 + 65536 * d3))))
  = [cvtph d0; cvtph d1; cvtph d2; cvtph d3].
Proof.
  intros H0 H1 H2 H3. unfold _mm_cvtph_ps, _mm_set_epi64x.
  cbn [le_bytes app seq fmap list_fmap Nat.mul Nat.add drop take le_word].
  rewrite !le_word_2.
  destruct (low_word d0 (d1 + 65536 * (d2 + 65536 * d3)) H0) as [-> ->].
  destruct (low_word d1 (d2 + 65536 * d3) H1) as [-> ->].
  destruct (low_word d2 d3 H2) as [-> ->].
  by rewrite (Z.mod_small d3) by lia.
Qed.

(** The delta products of the fast kernels, broadcast by the four
    shuffle masks. *)
Lemma shuffle_delta_products (a0 a1 a2 a3 y : F) :
  let dvec := _mm256_castps128_ps256 (_mm_mul_ps [a0; a1; a2; a3] (_mm_set1_ps y)) in
  let dvec := _mm256_permute2f128_ps dvec dvec 0 in
  _mm256_shuffle_ps dvec dvec 0 = _mm256_set1_ps (fmul a0 y) ∧
  _mm256_shuffle_ps dvec dvec 85 = _mm256_set1_ps (fmul a1 y) ∧
  _mm256_shuffle_ps dvec dvec 170 = _mm256_set1_ps (fmul a2 y) ∧
  _mm256_shuffle_ps dvec dvec 255 = _mm256_set1_ps (fmul a3 y).
Proof. repeat split; reflexivity. Qed.

Lemma shuffle_delta_products_r (x b0 b1 b2 b3 : F) :
  let dvec := _mm256_castps128_ps256 (_mm_mul_ps (_mm_set1_ps x) [b0; b1; b2; b3]) in
  let dvec := _mm256_permute2f128_ps dvec dvec 0 in
  _mm256_shuffle_ps dvec dvec 0 = _mm256_set1_ps (fmul x b0) ∧
  _mm256_shuffle_ps dvec dvec 85 = _mm256_set1_ps (fmul x b1) ∧
  _mm256_shuffle_ps dvec dvec 170 = _mm256_set1_ps (fmul x b2) ∧
  _mm256_shuffle_ps dvec dvec 255 = _mm256_set1_ps (fmul x b3).
Proof. repeat split; reflexivity. Qed.
End cvtph.

(** * The fast kernels against the generic one *)

Section fast_kernels.
Context {F : Type} {fo : float_ops F} (tgt : target).
Context {TA TB : Type} {blkA : block TA} {blkB : block TB}.
Variables (A : Z → TA) (B : Z → TB) (k lda ldb ith nth : Z).

Hypothesis Havx2 : __AVX2__ tgt = true.
Hypothesis Hcvt : ∀ h, 0 ≤ h < 65536 → cvtph h = GGML_FP16_TO_FP32 h.

Local Abbreviation gemm := (tinyBLAS_Q0_AVX.gemm tgt A B k lda ldb ith nth).
Local Abbreviation gemm4xN := (tinyBLAS_Q0_AVX.gemm4xN tgt A B k lda ldb ith nth).
Local Abbreviation gemmMx4 := (tinyBLAS_Q0_AVX.gemmMx4 tgt A B k lda ldb ith nth).

(** One step of the accumulator [Cv[j][i]] in the generic kernel. *)
Local Abbreviation acc_step := (λ (ii jj j i l : Z) (acc : __m256),
  madd256 tgt
    (_mm256_set1_ps (fmul (unhalf (d (A (lda * (ii + i) + l))))
                          (unhalf (d (B (ldb * (jj + j) + l))))))
    (tinyBLAS_Q0_AVX.udTmp tgt A B (lda * (ii + i) + l) (ldb * (jj + j) + l))
    acc).

Lemma gemm_step (RM RN ii jj : Z) (Cv : Z → Z → __m256) (l j i : Z) :
  j ∈ seqZ 0 RN → i ∈ seqZ 0 RM →
  foldl (λ Cv j,
    foldl (λ Cv i, upd2 Cv j i (acc_step ii jj j i l (Cv j i))) Cv (seqZ 0 RM))
    Cv (seqZ 0 RN) j i
  = acc_step ii jj j i l (Cv j i).
Proof.
  intros Hj Hi.
  pose proof (fold_upd2_ji (λ j i x, acc_step ii jj j i l x) (seqZ 0 RN) (seqZ 0 RM)
                Cv j i (NoDup_seqZ _ _) (NoDup_seqZ _ _)) as H.
  rewrite decide_True in H by done. exact H.
Qed.

Lemma gemm4xN_step (RN ii jj : Z) (Cv : Z → Z → __m256) (l j i : Z) :
  (∀ off, 0 ≤ d (A off) < 65536) →
  j ∈ seqZ 0 RN → i ∈ seqZ 0 4 →
  foldl (λ Cv j,
    let a_delta :=
      Z.lor (Z.lor (Z.lor (tinyBLAS_Q0_AVX.u64 (Z.shiftl (d (A (lda * (ii + 3) + l))) 48))
                          (tinyBLAS_Q0_AVX.u64 (Z.shiftl (d (A (lda * (ii + 2) + l))) 32)))
                   (tinyBLAS_Q0_AVX.u64 (Z.shiftl (d (A (lda * (ii + 1) + l))) 16)))
            (d (A (lda * (ii + 0) + l))) in
    let da := _mm_cvtph_ps (_mm_set_epi64x 0 a_delta) in
    let avec0 := load (A (lda * (ii + 0) + l)) in
    let avec1 := load (A (lda * (ii + 1) + l)) in
    let avec2 := load (A (lda * (ii + 2) + l)) in
    let avec3 := load (A (lda * (ii + 3) + l)) in
    let db := _mm_set1_ps (unhalf (d (B (ldb * (jj + j) + l)))) in
    let dvec := _mm256_castps128_ps256 (_mm_mul_ps da db) in
    let dvec := _mm256_permute2f128_ps dvec dvec 0 in
    let Cv := upd2 Cv j 0
      (madd256 tgt (_mm256_shuffle_ps dvec dvec 0)
         (tinyBLAS_Q0_AVX.updot tgt (_mm256_sign_epi8 avec0 avec0)
            (_mm256_sign_epi8 (load (B (ldb * (jj + j) + l))) avec0))
         (Cv j 0)) in
    let Cv := upd2 Cv j 1
      (madd256 tgt (_mm256_shuffle_ps dvec dvec 85)
         (tinyBLAS_Q0_AVX.updot tgt (_mm256_sign_epi8 avec1 avec1)
            (_mm256_sign_epi8 (load (B (ldb * (jj + j) + l))) avec1))
         (Cv j 1)) in
    let Cv := upd2 Cv j 2
      (madd256 tgt (_mm256_shuffle_ps dvec dvec 170)
         (tinyBLAS_Q0_AVX.updot tgt (_mm256_sign_epi8 avec2 avec2)
            (_mm256_sign_epi8 (load (B (ldb * (jj + j) + l))) avec2))
         (Cv j 2)) in
    upd2 Cv j 3
      (madd256 tgt (_mm256_shuffle_ps dvec dvec 255)
         (tinyBLAS_Q0_AVX.updot tgt (_mm256_sign_epi8 avec3 avec3)
            (_mm256_sign_epi8 (load (B (ldb * (jj + j) + l))) avec3))
         (Cv j 3)))
    Cv (seqZ 0 RN) j i
  = acc_step ii jj j i l (Cv j i).
Proof.
  intros HdA Hj Hi.
  set (dvec := λ j : Z,
    let a_delta :=
      Z.lor (Z.lor (Z.lor (tinyBLAS_Q0_AVX.u64 (Z.shiftl (d (A (lda * (ii + 3) + l))) 48))
                          (tinyBLAS_Q0_AVX.u64 (Z.shiftl (d (A (lda * (ii + 2) + l))) 32)))
                   (tinyBLAS_Q0_AVX.u64 (Z.shiftl (d (A (lda * (ii + 1) + l))) 16)))
            (d (A (lda * (ii + 0) + l))) in
    let da := _mm_cvtph_ps (_mm_set_epi64x 0 a_delta) in
    let db := _mm_set1_ps (unhalf (d (B (ldb * (jj + j) + l)))) in
    let dvec := _mm256_castps128_ps256 (_mm_mul_ps da db) in
    _mm256_permute2f128_ps dvec dvec 0).
  set (imm := λ i : Z,
    if decide (i = 0) then 0 else if decide (i = 1) then 85
    else if decide (i = 2) then 170 else 255).
  set (f4 := λ (j i : Z) (x : __m256),
    madd256 tgt (_mm256_shuffle_ps (dvec j) (dvec j) (imm i))
      (tinyBLAS_Q0_AVX.updot tgt
         (_mm256_sign_epi8 (load (A (lda * (ii + i) + l))) (load (A (lda * (ii + i) + l))))
         (_mm256_sign_epi8 (load (B (ldb * (jj + j) + l))) (load (A (lda * (ii + i) + l)))))
      x).
  pose proof (fold_upd2_ji f4 (seqZ 0 RN) (seqZ 0 4) Cv j i
                (NoDup_seqZ _ _) (NoDup_seqZ _ _)) as H.
  rewrite decide_True in H by done.
  transitivity (f4 j i (Cv j i)); [exact H|]. clear H.
  assert (dvec j = _mm256_permute2f128_ps
    (_mm256_castps128_ps256 (_mm_mul_ps
       [GGML_FP16_TO_FP32 (d (A (lda * (ii + 0) + l)));
        GGML_FP16_TO_FP32 (d (A (lda * (ii + 1) + l)));
        GGML_FP16_TO_FP32 (d (A (lda * (ii + 2) + l)));
        GGML_FP16_TO_FP32 (d (A (lda * (ii + 3) + l)))]
       (_mm_set1_ps (unhalf (d (B (ldb * (jj + j) + l)))))))
    (_mm256_castps128_ps256 (_mm_mul_ps
       [GGML_FP16_TO_FP32 (d (A (lda * (ii + 0) + l)));
        GGML_FP16_TO_FP32 (d (A (lda * (ii + 1) + l)));
        GGML_FP16_TO_FP32 (d (A (lda * (ii + 2) + l)));
        GGML_FP16_TO_FP32 (d (A (lda * (ii + 3) + l)))]
       (_mm_set1_ps (unhalf (d (B (ldb * (jj + j) + l))))))) 0) as Hdvec.
  { subst dvec. cbv beta zeta.
    rewrite packed_deltas, cvtph_packed by apply HdA.
    by rewrite !Hcvt by apply HdA. }
  destruct (shuffle_delta_products
    (GGML_FP16_TO_FP32 (d (A (lda * (ii + 0) + l))))
    (GGML_FP16_TO_FP32 (d (A (lda * (ii + 1) + l))))
    (GGML_FP16_TO_FP32 (d (A (lda * (ii + 2) + l))))
    (GGML_FP16_TO_FP32 (d (A (lda * (ii + 3) + l))))
    (unhalf (d (B (ldb * (jj + j) + l))))) as (S0 & S1 & S2 & S3).
  cbv zeta in S0, S1, S2, S3.
  apply elem_of_seqZ in Hi.
  assert (i = 0 ∨ i = 1 ∨ i = 2 ∨ i = 3) as [-> | [-> | [-> | ->]]] by lia;
    subst f4; cbv beta; rewrite Hdvec; subst imm; cbv beta;
    unfold tinyBLAS_Q0_AVX.udTmp; rewrite Havx2.
  - rewrite decide_True by reflexivity. by rewrite S0.
  - rewrite decide_False, decide_True by lia. by rewrite S1.
  - rewrite decide_False, decide_False, decide_True by lia. by rewrite S2.
  - rewrite !decide_False by lia. by rewrite S3.
Qed.
Lemma gemmMx4_step (RM ii jj : Z) (Cv : Z → Z → __m256) (l j i : Z) :
  (∀ off, 0 ≤ d (B off) < 65536) →
  j ∈ seqZ 0 4 → i ∈ seqZ 0 RM →
  foldl (λ Cv i,
    let b_delta :=
      Z.lor (Z.lor (Z.lor (tinyBLAS_Q0_AVX.u64 (Z.shiftl (d (B (ldb * (jj + 3) + l))) 48))
                          (tinyBLAS_Q0_AVX.u64 (Z.shiftl (d (B (ldb * (jj + 2) + l))) 32)))
                   (tinyBLAS_Q0_AVX.u64 (Z.shiftl (d (B (ldb * (jj + 1) + l))) 16)))
            (d (B (ldb * (jj + 0) + l))) in
    let db := _mm_cvtph_ps (_mm_set_epi64x 0 b_delta) in
    let bvec0 := load (B (ldb * (jj + 0) + l)) in
    let bvec1 := load (B (ldb * (jj + 1) + l)) in
    let bvec2 := load (B (ldb * (jj + 2) + l)) in
    let bvec3 := load (B (ldb * (jj + 3) + l)) in
    let da := _mm_set1_ps (unhalf (d (A (lda * (ii + i) + l)))) in
    let dvec := _mm256_castps128_ps256 (_mm_mul_ps da db) in
    let dvec := _mm256_permute2f128_ps dvec dvec 0 in
    let Cv := upd2 Cv 0 i
      (madd256 tgt (_mm256_shuffle_ps dvec dvec 0)
         (tinyBLAS_Q0_AVX.updot tgt
            (_mm256_sign_epi8 (load (A (lda * (ii + i) + l))) (load (A (lda * (ii + i) + l))))
            (_mm256_sign_epi8 bvec0 (load (A (lda * (ii + i) + l)))))
         (Cv 0 i)) in
    let Cv := upd2 Cv 1 i
      (madd256 tgt (_mm256_shuffle_ps dvec dvec 85)
         (tinyBLAS_Q0_AVX.updot tgt
            (_mm256_sign_epi8 (load (A (lda * (ii + i) + l))) (load (A (lda * (ii + i) + l))))
            (_mm256_sign_epi8 bvec1 (load (A (lda * (ii + i) + l)))))
         (Cv 1 i)) in
    let Cv := upd2 Cv 2 i
      (madd256 tgt (_mm256_shuffle_ps dvec dvec 170)
         (tinyBLAS_Q0_AVX.updot tgt
            (_mm256_sign_epi8 (load (A (lda * (ii + i) + l))) (load (A (lda * (ii + i) + l))))
            (_mm256_sign_epi8 bvec2 (load (A (lda * (ii + i) + l)))))
         (Cv 2 i)) in
    upd2 Cv 3 i
      (madd256 tgt (_mm256_shuffle_ps dvec dvec 255)
         (tinyBLAS_Q0_AVX.updot tgt
            (_mm256_sign_epi8 (load (A (lda * (ii + i) + l))) (load (A (lda * (ii + i) + l))))
            (_mm256_sign_epi8 bvec3 (load (A (lda * (ii + i) + l)))))
         (Cv 3 i)))
    Cv (seqZ 0 RM) j i
  = acc_step ii jj j i l (Cv j i).
Proof.
  intros HdB Hj Hi.
  set (dvec := λ i : Z,
    let b_delta :=
      Z.lor (Z.lor (Z.lor (tinyBLAS_Q0_AVX.u64 (Z.shiftl (d (B (ldb * (jj + 3) + l))) 48))
                          (tinyBLAS_Q0_AVX.u64 (Z.shiftl (d (B (ldb * (jj + 2) + l))) 32)))
                   (tinyBLAS_Q0_AVX.u64 (Z.shiftl (d (B (ldb * (jj + 1) + l))) 16)))
            (d (B (ldb * (jj + 0) + l))) in
    let db := _mm_cvtph_ps (_mm_set_epi64x 0 b_delta) in
    let da := _mm_set1_ps (unhalf (d (A (lda * (ii + i) + l)))) in
    let dvec := _mm256_castps128_ps256 (_mm_mul_ps da db) in
    _mm256_permute2f128_ps dvec dvec 0).
  set (imm := λ j : Z,
    if decide (j = 0) then 0 else if decide (j = 1) then 85
    else if decide (j = 2) then 170 else 255).
  set (f4 := λ (j i : Z) (x : __m256),
    madd256 tgt (_mm256_shuffle_ps (dvec i) (dvec i) (imm j))
      (tinyBLAS_Q0_AVX.updot tgt
         (_mm256_sign_epi8 (load (A (lda * (ii + i) + l))) (load (A (lda * (ii + i) + l))))
         (_mm256_sign_epi8 (load (B (ldb * (jj + j) + l))) (load (A (lda * (ii + i) + l)))))
      x).
  pose proof (fold_upd2_ij f4 (seqZ 0 4) (seqZ 0 RM) Cv j i
                (NoDup_seqZ _ _) (NoDup_seqZ _ _)) as H.
  rewrite decide_True in H by done.
  transitivity (f4 j i (Cv j i)); [exact H|]. clear H.
  assert (dvec i = _mm256_permute2f128_ps
    (_mm256_castps128_ps256 (_mm_mul_ps
       (_mm_set1_ps (unhalf (d (A (lda * (ii + i) + l)))))
       [GGML_FP16_TO_FP32 (d (B (ldb * (jj + 0) + l)));
        GGML_FP16_TO_FP32 (d (B (ldb * (jj + 1) + l)));
        GGML_FP16_TO_FP32 (d (B (ldb * (jj + 2) + l)));
        GGML_FP16_TO_FP32 (d (B (ldb * (jj + 3) + l)))]))
    (_mm256_castps128_ps256 (_mm_mul_ps
       (_mm_set1_ps (unhalf (d (A (lda * (ii + i) + l)))))
       [GGML_FP16_TO_FP32 (d (B (ldb * (jj + 0) + l)));
        GGML_FP16_TO_FP32 (d (B (ldb * (jj + 1) + l)));
        GGML_FP16_TO_FP32 (d (B (ldb * (jj + 2) + l)));
        GGML_FP16_TO_FP32 (d (B (ldb * (jj + 3) + l)))])) 0) as Hdvec.
  { subst dvec. cbv beta zeta.
    rewrite packed_deltas, cvtph_packed by apply HdB.
    by rewrite !Hcvt by apply HdB. }
  destruct (shuffle_delta_products_r
    (unhalf (d (A (lda * (ii + i) + l))))
    (GGML_FP16_TO_FP32 (d (B (ldb * (jj + 0) + l))))
    (GGML_FP16_TO_FP32 (d (B (ldb * (jj + 1) + l))))
    (GGML_FP16_TO_FP32 (d (B (ldb * (jj + 2) + l))))
    (GGML_FP16_TO_FP32 (d (B (ldb * (jj + 3) + l))))) as (S0 & S1 & S2 & S3).
  cbv zeta in S0, S1, S2, S3.
  apply elem_of_seqZ in Hj.
  assert (j = 0 ∨ j = 1 ∨ j = 2 ∨ j = 3) as [-> | [-> | [-> | ->]]] by lia;
    subst f4; cbv beta; rewrite Hdvec; subst imm; cbv beta;
    unfold tinyBLAS_Q0_AVX.udTmp; rewrite Havx2.
  - rewrite decide_True by reflexivity. by rewrite S0.
  - rewrite decide_False, decide_True by lia. by rewrite S1.
  - rewrite decide_False, decide_False, decide_True by lia. by rewrite S2.
  - rewrite !decide_False by lia. by rewrite S3.
Qed.

(** [gemm4xN<RN>] stores what [gemm<4, RN>] stores. *)
Lemma gemm4xN_gemm (RN m0 m n0 n : Z) :
  (∀ off, 0 ≤ d (A off) < 65536) →
  gemm4xN RN m0 m n0 n = gemm 4 RN m0 m n0 n.
Proof.
  intros HdA. unfold tinyBLAS_Q0_AVX.gemm4xN, tinyBLAS_Q0_AVX.gemm. cbv zeta.
  apply list_bind_ext; [|done]. intros job.
  apply bind_ext_in. intros j Hj. apply bind_ext_in. intros i Hi. do 3 f_equal.
  set (ii := m0 + job `quot` ((n - n0) `quot` RN) * 4).
  set (jj := n0 + job `rem` ((n - n0) `quot` RN) * RN).
  match goal with
  | |- foldl ?s1 ?c ?ls j i = foldl ?s2 ?c ?ls j i =>
      pose proof (fold_steps s1 (λ j i l acc, acc_step ii jj j i l acc)
        (seqZ 0 RN) (seqZ 0 4) ls c j i
        (λ Cv l j i Hj Hi, gemm4xN_step RN ii jj Cv l j i HdA Hj Hi) Hj Hi) as E1;
      pose proof (fold_steps s2 (λ j i l acc, acc_step ii jj j i l acc)
        (seqZ 0 RN) (seqZ 0 4) ls c j i
        (λ Cv l j i Hj Hi, gemm_step 4 RN ii jj Cv l j i Hj Hi) Hj Hi) as E2
  end.
  exact (eq_trans E1 (eq_sym E2)).
Qed.

(** [gemmMx4<RM>] stores what [gemm<RM, 4>] stores. *)
Lemma gemmMx4_gemm (RM m0 m n0 n : Z) :
  (∀ off, 0 ≤ d (B off) < 65536) →
  gemmMx4 RM m0 m n0 n = gemm RM 4 m0 m n0 n.
Proof.
  intros HdB. unfold tinyBLAS_Q0_AVX.gemmMx4, tinyBLAS_Q0_AVX.gemm. cbv zeta.
  apply list_bind_ext; [|done]. intros job.
  apply bind_ext_in. intros j Hj. apply bind_ext_in. intros i Hi. do 3 f_equal.
  set (ii := m0 + job `quot` ((n - n0) `quot` 4) * RM).
  set (jj := n0 + job `rem` ((n - n0) `quot` 4) * 4).
  match goal with
  | |- foldl ?s1 ?c ?ls j i = foldl ?s2 ?c ?ls j i =>
      pose proof (fold_steps s1 (λ j i l acc, acc_step ii jj j i l acc)
        (seqZ 0 4) (seqZ 0 RM) ls c j i
        (λ Cv l j i Hj Hi, gemmMx4_step RM ii jj Cv l j i HdB Hj Hi) Hj Hi) as E1;
      pose proof (fold_steps s2 (λ j i l acc, acc_step ii jj j i l acc)
        (seqZ 0 4) (seqZ 0 RM) ls c j i
        (λ Cv l j i Hj Hi, gemm_step RM 4 ii jj Cv l j i Hj Hi) Hj Hi) as E2
  end.
  exact (eq_trans E1 (eq_sym E2)).
Qed.
End fast_kernels.

(** * Stores and the contents of C *)

Section stores.
Context {F : Type}.
Implicit Types (ws : list (write F)) (C : gmap Z F).

Lemma apply_writes_map (ldc : Z) ws C :
  NoDup (offset ldc <$> ws) →
  apply_writes ldc ws C
  = list_to_map ((λ w, (offset ldc w, w_val w)) <$> ws) ∪ C.
Proof.
  unfold apply_writes. revert C. induction ws as [|w ws IH]; intros C Hnd.
  { simpl. by rewrite (left_id_L ∅ (∪)). }
  apply NoDup_cons in Hnd as [Hw Hnd]. simpl.
  rewrite IH by done. unfold store at 1. fold (offset ldc w).
  rewrite <-insert_union_l, insert_union_r; [done|].
  apply not_elem_of_list_to_map_1. by rewrite <-list_fmap_compose.
Qed.

(** Stores to distinct elements can be performed in any order. *)
Lemma apply_writes_perm (ldc : Z) ws1 ws2 C :
  NoDup (offset ldc <$> ws1) → ws1 ≡ₚ ws2 →
  apply_writes ldc ws1 C = apply_writes ldc ws2 C.
Proof.
  intros Hnd Hp. rewrite !apply_writes_map; [|by rewrite <-Hp|done].
  f_equal. apply list_to_map_proper; [|by f_equiv].
  by rewrite <-list_fmap_compose.
Qed.

(** Stores that cover a grid of at most [ldc] rows go to distinct
    elements. *)
Lemma grid_offsets_NoDup (ldc m n : Z) ws :
  m ≤ ldc → cell <$> ws ≡ₚ grid m n → NoDup (offset ldc <$> ws).
Proof.
  intros Hldc Hc.
  assert (offset ldc <$> ws = (λ c : Z * Z, ldc * c.2 + c.1) <$> (cell <$> ws)) as ->.
  { rewrite <-list_fmap_compose. by apply list_fmap_ext. }
  rewrite Hc. apply NoDup_fmap_2_strong; [|apply NoDup_cells].
  intros [i j] [i' j'] Hin Hin' Heq. simpl in Heq.
  apply elem_of_cells in Hin, Hin'.
  assert (j = j') by nia. subst. f_equal. lia.
Qed.
End stores.

(** * Coverage by the two engines *)

Section engines.
Context {F : Type} {fo : float_ops F}.

Lemma matmul_covers {TA TB : Type} {voc : vocabulary F TA TB}
    (KN VR : Z) (A : Z → TA) (B : Z → TB) (k lda ldb m n : Z) :
  0 ≤ m → 1 ≤ n < 2 ^ 63 →
  covers m n (λ nth sched, tinyBLAS.matmul KN VR nth A B k lda ldb m n sched).
Proof.
  intros Hm Hn.
  exists (bool_decide (k `rem` KN = 0 ∧ m `rem` 4 = 0)),
    (values (tinyBLAS.cell_value KN A B k lda ldb) (grid m n)).
  split; [by rewrite cell_values|].
  intros nth sched b ws Hnth Hr.
  destruct (decide (k `rem` KN = 0)) as [Hk|Hk];
    [destruct (decide (m `rem` 4 = 0)) as [H4|H4]|].
  - destruct (matmul_serves KN VR nth A B k lda ldb m n Hm Hn Hnth Hk H4) as (Hs & _ & _).
    destruct (Hs sched b ws Hr) as [-> Hp].
    split; [|exact Hp]. symmetry. apply bool_decide_eq_true. by split.
  - rewrite matmul_rejects in Hr by (try right; assumption).
    injection Hr as <- <-. split; [|done].
    symmetry. apply bool_decide_eq_false. by intros [_ ?].
  - rewrite matmul_rejects in Hr by (try left; assumption).
    injection Hr as <- <-. split; [|done].
    symmetry. apply bool_decide_eq_false. by intros [? _].
Qed.

Lemma mapM_total {X Y} (f : X → option Y) (g : X → Y) (l : list X) :
  (∀ x, f x = Some (g x)) → mapM f l = Some (g <$> l).
Proof.
  intros H. apply mapM_Some. induction l; constructor; auto.
Qed.

Lemma join_fmap {X Y} (g : X → list Y) (l : list X) : mjoin (g <$> l) = l ≫= g.
Proof. induction l as [|x l IH]; [done|]. csimpl. by rewrite IH. Qed.

Lemma Q0_AVX_covers (tgt : target) {TA : Type} {blkA : block TA}
    (A : Z → TA) (B : Z → block_q8_0.t) (k lda ldb m n : Z) :
  0 ≤ m → 0 ≤ n →
  covers m n (λ nth (_ : list nat), Q0_AVX tgt A B k lda ldb nth m n).
Proof.
  intros Hm Hn.
  destruct (mnpack_region tgt A B k lda ldb (tinyBLAS_Q0_AVX.mnpack_fuel 0 m 0 n) 0 m 0 n)
    as (ref & Href & Hcells & Hpool); [lia..|].
  exists true, ref. split; [exact Hcells|].
  intros nth sched b ws Hnth. unfold Q0_AVX, tinyBLAS_Q0_AVX.matmul.
  destruct (Hpool nth Hnth) as (g & Hg & Hperm).
  rewrite (mapM_total _ g) by exact Hg. intros [= <- <-].
  split; [done|]. by rewrite join_fmap.
Qed.
End engines.

(** * Coverage by the entry point *)

Section entry.
Context {F : Type} {fo : float_ops F} {vs : vocabularies F}.

Lemma covers_false (m n : Z) :
  covers (F := F) m n (λ _ _, Returned false []).
Proof.
  exists false, (values (λ _ _, fzero) (grid m n)). split; [by rewrite cell_values|].
  by intros nth sched b ws _ [= <- <-].
Qed.

Lemma covers_guard (m n : Z) (Q : Prop) (P : Z → Prop)
    {dec : ∀ x, Decision (P x)} (f : Z → list nat → outcome F bool) :
  Decision Q → (∀ nth, P nth → Q) → (Q → covers m n f) →
  covers m n (λ nth sched, if decide (P nth) then f nth sched else Aborted).
Proof.
  intros [HQ|HQ] HP Hf.
  - destruct (Hf HQ) as (ok & ref & Href & H). exists ok, ref. split; [done|].
    intros nth sched b ws Hnth. case_decide; [by apply H|done].
  - exists false, (values (λ _ _, fzero) (grid m n)). split; [by rewrite cell_values|].
    intros nth sched b ws Hnth. case_decide; [|done]. destruct HQ. eauto.
Qed.

Lemma sgemm_covers (tgt : target) (m n k : Z) (A B : operand F)
    (lda ldb ldc : Z) (Atype Btype Ctype : ggml_type) :
  n < 2 ^ 63 →
  covers m n (λ nth sched,
    llamafile_sgemm tgt nth sched m n k A lda B ldb ldc Atype Btype Ctype).
Proof.
  intros Hn63. unfold llamafile_sgemm.
  apply (covers_guard m n (0 ≤ m ∧ 0 ≤ n)
           (λ nth, 0 ≤ m ∧ 0 ≤ n ∧ 0 ≤ k ∧ k ≤ lda ∧ k ≤ ldb ∧ m ≤ ldc ∧ 0 < nth));
    [apply _|tauto|].
  intros [Hm Hn].
  destruct (decide (n < 2)) as [?|Hn2]; [apply covers_false|].
  destruct (decide (Ctype ≠ GGML_TYPE_F32)); [apply covers_false|].
  assert (1 ≤ n < 2 ^ 63) by lia.
  destruct Atype; cbn beta iota zeta;
    repeat match goal with
    | |- covers _ _ (λ _ _, Returned false []) => apply covers_false
    | |- covers _ _ (λ _ _, tinyBLAS.matmul _ _ _ _ _ _ _ _ _ _ _) =>
        by apply matmul_covers
    | |- covers _ _ (λ _ _, Q0_AVX _ _ _ _ _ _ _ _ _) =>
        by apply (Q0_AVX_covers tgt)
    | |- context [decide ?P] => destruct (decide P)
    | |- context [if ?b then _ else _] => destruct b eqn:?; cbn beta iota zeta
    end.
Qed.

(** A call that returns [false] made no store. *)
Lemma sgemm_false_no_store (tgt : target) (nth : Z) (sched : list nat)
    (m n k : Z) (A B : operand F) (lda ldb ldc : Z)
    (Atype Btype Ctype : ggml_type) (ws : list (write F)) :
  n < 2 ^ 63 →
  llamafile_sgemm tgt nth sched m n k A lda B ldb ldc Atype Btype Ctype
    = Returned false ws →
  ws = [].
Proof.
  intros Hn63 Hr.
  destruct (sgemm_covers tgt m n k A B lda ldb ldc Atype Btype Ctype Hn63)
    as (ok & ref & _ & H).
  assert (0 < nth).
  { unfold llamafile_sgemm in Hr. case_decide; [lia|done]. }
  exact (proj2 (H nth sched false ws ltac:(done) Hr)).
Qed.
End entry.

Section entry_facts.
Context {F : Type} {fo : float_ops F} {vs : vocabularies F}.

(** A call that returns has passed the assertions of the entry point. *)
Lemma sgemm_returned_pre (tgt : target) (nth : Z) (sched : list nat)
    (m n k : Z) (A B : operand F) (lda ldb ldc : Z)
    (Atype Btype Ctype : ggml_type) (b : bool) (ws : list (write F)) :
  llamafile_sgemm tgt nth sched m n k A lda B ldb ldc Atype Btype Ctype
    = Returned b ws →
  0 ≤ m ∧ 0 ≤ n ∧ 0 ≤ k ∧ k ≤ lda ∧ k ≤ ldb ∧ m ≤ ldc ∧ 0 < nth.
Proof. unfold llamafile_sgemm. by case_decide. Qed.
End entry_facts.

(** * The decoded lanes of q5_0 and iq4_nl blocks *)

Lemma nibbles_spec (p : list Z) :
  length p = 16%nat →
  ((λ x, Z.land x 15) <$> p) ++ ((λ x, Z.shiftr x 4) <$> p) = nibble p <$> seqZ 0 32.
Proof.
  intros Hlen.
  do 16 (destruct p as [|? p]; [done|]). destruct p; [|done]. reflexivity.
Qed.

Lemma load_q5_0_spec (b : block_q5_0.t) :
  bytes 16 (block_q5_0.qs b) → bytes 4 (block_q5_0.qh b) →
  load b = (λ i, Z.lor (nibble (block_q5_0.qs b) i)
                       (if Z.testbit (le_word (block_q5_0.qh b)) i then 0 else 240))
           <$> seqZ 0 32.
Proof.
  intros Hqs Hqh. cbn [load load_q5_0].
  rewrite denibble_spec, bittobyte_spec by done.
  rewrite nibbles_spec by apply Hqs.
  unfold _mm256_or_si256. by rewrite zip_with_fmap_l, zip_with_fmap_r, zip_with_diag.
Qed.

(** One lane of [_mm_shuffle_epi8(iq4nlt, c)] for a nibble [c]. *)
Lemma iq4nlt_lane (x : Z) :
  0 ≤ x < 256 →
  sint 8 (if decide (Z.land (Z.land 15 x) 128 = 0)
          then default 0 (iq4nlt !! Z.to_nat (Z.land (Z.land 15 x) 15)) else 0)
    = kvalue (Z.land x 15) ∧
  sint 8 (if decide (Z.land (Z.shiftr x 4) 128 = 0)
          then default 0 (iq4nlt !! Z.to_nat (Z.land (Z.shiftr x 4) 15)) else 0)
    = kvalue (Z.shiftr x 4).
Proof.
  intros Hx.
  set (P := λ x : Z,
    (sint 8 (if decide (Z.land (Z.land 15 x) 128 = 0)
             then default 0 (iq4nlt !! Z.to_nat (Z.land (Z.land 15 x) 15)) else 0)
       =? kvalue (Z.land x 15)) &&
    (sint 8 (if decide (Z.land (Z.shiftr x 4) 128 = 0)
             then default 0 (iq4nlt !! Z.to_nat (Z.land (Z.shiftr x 4) 15)) else 0)
       =? kvalue (Z.shiftr x 4))).
  assert (forallb P (seqZ 0 256) = true) as H by (vm_compute; reflexivity).
  pose proof (forall_bytes P H x Hx) as HP. unfold P in HP. clear H P.
  apply andb_true_iff in HP as [Ha Hb]. apply Z.eqb_eq in Ha, Hb. split; assumption.
Qed.

Lemma load_iq4_nl_spec (b : block_iq4_nl.t) :
  bytes 16 (block_iq4_nl.qs b) →
  sint 8 <$> load b = (λ i, kvalue (nibble (block_iq4_nl.qs b) i)) <$> seqZ 0 32.
Proof.
  intros [Hlen Hb].
  trans (kvalue <$> (nibble (block_iq4_nl.qs b) <$> seqZ 0 32));
    [|by rewrite <-list_fmap_compose].
  rewrite <-nibbles_spec by done.
  cbn [load load_iq4_nl]. unfold load0_iq4_nl, load1_iq4_nl.
  destruct b as [dd p]. cbn [block_iq4_nl.qs] in *.
  do 16 (destruct p as [|? p]; [done|]). destruct p; [|done]. clear Hlen.
  repeat (apply Forall_cons in Hb as [? Hb]). clear Hb.
  unfold MM256_SET_M128I, _mm256_insertf128_si256_1, _mm256_castsi128_si256,
    _mm_shuffle_epi8, _mm_and_si128, _mm_loadu_si128, _mm_set1_epi8.
  cbn [take app replicate _mm_srli_epi16 le_bytes zip_with fmap list_fmap].
  change (15 `mod` 256) with 15.
  repeat match goal with
  | |- context [Z.shiftr (?a + 256 * ?b) 4] =>
      destruct (srli_nibbles a b ltac:(done) ltac:(done)) as [-> ->]
  end.
  repeat match goal with
  | Hx : 0 ≤ ?x < 256 |- _ =>
      destruct (iq4nlt_lane x Hx) as [-> ->]; clear Hx
  end.
  reflexivity.
Qed.

(** * Signed lanes of q5_0 *)

Lemma nibble_byte (x : Z) :
  0 ≤ x < 256 → 0 ≤ Z.land x 15 < 16 ∧ 0 ≤ Z.shiftr x 4 < 16.
Proof.
  intros Hx.
  set (P := λ x : Z,
    (0 <=? Z.land x 15) && (Z.land x 15 <? 16) && (0 <=? Z.shiftr x 4) && (Z.shiftr x 4 <? 16)).
  assert (forallb P (seqZ 0 256) = true) as H by (vm_compute; reflexivity).
  pose proof (forall_bytes P H x Hx) as HP. unfold P in HP. clear H P.
  apply andb_true_iff in HP as [HP H4]. apply andb_true_iff in HP as [HP H3].
  apply andb_true_iff in HP as [H1 H2].
  apply Z.leb_le in H1, H3. apply Z.ltb_lt in H2, H4. lia.
Qed.

Lemma nibble_range (qs : list Z) (i : Z) :
  Forall (λ x, 0 ≤ x < 256) qs → 0 ≤ nibble qs i < 16.
Proof.
  intros Hb. unfold nibble.
  assert (∀ n, 0 ≤ default 0 (qs !! n) < 256) as Hd.
  { intros n. destruct (qs !! n) as [x|] eqn:E; simpl; [|lia].
    by apply (Forall_lookup_1 _ _ _ _ Hb E). }
  case_decide; apply nibble_byte, Hd.
Qed.

(** A nibble with the four high bits set reads as the nibble minus 16. *)
Lemma fifth_bit_signed (v : Z) :
  0 ≤ v < 16 → sint 8 (Z.lor v 240) = v - 16 ∧ sint 8 (Z.lor v 0) = v.
Proof.
  intros Hv.
  set (P := λ v : Z,
    implb (v <? 16) ((sint 8 (Z.lor v 240) =? v - 16) && (sint 8 (Z.lor v 0) =? v))).
  assert (forallb P (seqZ 0 256) = true) as H by (vm_compute; reflexivity).
  pose proof (forall_bytes P H v ltac:(lia)) as HP. unfold P in HP. clear H P.
  assert ((v <? 16) = true) as Hlt by (apply Z.ltb_lt; lia).
  rewrite Hlt in HP. simpl in HP.
  apply andb_true_iff in HP as [Ha Hb]. apply Z.eqb_eq in Ha, Hb. split; assumption.
Qed.

Lemma load_q5_0_signed (b : block_q5_0.t) :
  bytes 16 (block_q5_0.qs b) → bytes 4 (block_q5_0.qh b) →
  sint 8 <$> load b
  = (λ i, nibble (block_q5_0.qs b) i
          - (if Z.testbit (le_word (block_q5_0.qh b)) i then 0 else 16))
    <$> seqZ 0 32.
Proof.
  intros Hqs Hqh. rewrite load_q5_0_spec by done.
  rewrite <-list_fmap_compose. apply list_fmap_ext. intros _ i _. simpl.
  destruct (fifth_bit_signed (nibble (block_q5_0.qs b) i)) as [H1 H0];
    [apply nibble_range, Hqs|].
  destruct (Z.testbit _ i); [rewrite H0; lia|exact H1].
Qed.

(** * Termination of the region split *)

Section termination.
Context {F : Type} {fo : float_ops F} (tgt : target).
Context {TA TB : Type} {blkA : block TA} {blkB : block TB}.
Variables (A : Z → TA) (B : Z → TB) (k lda ldb ith nth : Z).

Local Abbreviation mnpack := (tinyBLAS_Q0_AVX.mnpack tgt A B k lda ldb ith nth).
Local Abbreviation run_kernel := (tinyBLAS_Q0_AVX.run_kernel tgt A B k lda ldb ith nth).

Lemma mnpack_S (fuel : nat) (m0 m n0 n : Z) :
  mnpack (S fuel) m0 m n0 n
  = match tinyBLAS_Q0_AVX.select tgt
            (Z.lor (Z.shiftl (MIN (m - m0) 4) 4) (MIN (n - n0) 4)) with
    | None => Some []
    | Some (mc, nc, kn) =>
        ws1 ← mnpack fuel (m0 + (m - m0) `quot` mc * mc) m n0
                     (n0 + (n - n0) `quot` nc * nc);
        ws2 ← mnpack fuel m0 m (n0 + (n - n0) `quot` nc * nc) n;
        Some (run_kernel kn m0 m n0 n ++ ws1 ++ ws2)
    end.
Proof. reflexivity. Qed.

(** The two regions [mnpack] recurses on are inside the region it was
    given and strictly smaller in [(m - m0) + (n - n0)]. *)
Lemma mnpack_measure (m0 m n0 n mc nc : Z) (kn : tile_kernel) :
  m0 ≤ m → n0 ≤ n →
  tinyBLAS_Q0_AVX.select tgt (Z.lor (Z.shiftl (MIN (m - m0) 4) 4) (MIN (n - n0) 4))
    = Some (mc, nc, kn) →
  let mp := m0 + (m - m0) `quot` mc * mc in
  let np := n0 + (n - n0) `quot` nc * nc in
  m0 < mp ≤ m ∧ n0 < np ≤ n ∧
  (m - mp) + (np - n0) < (m - m0) + (n - n0) ∧
  (m - m0) + (n - np) < (m - m0) + (n - n0).
Proof.
  intros Hm Hn Hsel. rewrite !MIN_min in Hsel.
  destruct (decide (m - m0 = 0 ∨ n - n0 = 0)) as [H0|H1].
  { rewrite select_default in Hsel; [done|lia..]. }
  destruct (select_spec tgt (Z.min (m - m0) 4) (Z.min (n - n0) 4))
    as (mc' & nc' & kn' & Hsel' & _ & Hmc & Hnc); [lia..|].
  rewrite Hsel in Hsel'. injection Hsel' as <- <- <-.
  destruct (quot_tile (m - m0) mc ltac:(lia)) as [Hmp _].
  destruct (quot_tile (n - n0) nc ltac:(lia)) as [Hnp _].
  cbv zeta. lia.
Qed.

(** More fuel does not change the result. *)
Lemma mnpack_fuel_mono (fuel : nat) (m0 m n0 n : Z) (ws : list (write F)) :
  mnpack fuel m0 m n0 n = Some ws → mnpack (S fuel) m0 m n0 n = Some ws.
Proof.
  revert m0 m n0 n ws. induction fuel as [|fuel IH]; intros m0 m n0 n ws; [done|].
  rewrite (mnpack_S (S fuel)), (mnpack_S fuel).
  destruct (tinyBLAS_Q0_AVX.select _ _) as [[[mc nc] kn]|]; [|done].
  destruct (mnpack fuel (m0 + _) m n0 _) as [ws1|] eqn:E1; [|done].
  destruct (mnpack fuel m0 m _ n) as [ws2|] eqn:E2; [|done].
  by rewrite (IH _ _ _ _ _ E1), (IH _ _ _ _ _ E2).
Qed.

Lemma mnpack_fuel_le (fuel fuel' : nat) (m0 m n0 n : Z) (ws : list (write F)) :
  (fuel ≤ fuel')%nat →
  mnpack fuel m0 m n0 n = Some ws → mnpack fuel' m0 m n0 n = Some ws.
Proof.
  induction 1 as [|fuel' _ IH]; [done|]. intros H. by apply mnpack_fuel_mono, IH.
Qed.

(** [mnpack] returns: its fuel bound is enough. *)
Lemma mnpack_returns (fuel : nat) (m0 m n0 n : Z) :
  m0 ≤ m → n0 ≤ n → (tinyBLAS_Q0_AVX.mnpack_fuel m0 m n0 n ≤ fuel)%nat →
  is_Some (mnpack fuel m0 m n0 n).
Proof.
  revert m0 m n0 n. induction fuel as [|fuel IH]; intros m0 m n0 n Hm Hn Hf.
  { unfold tinyBLAS_Q0_AVX.mnpack_fuel in Hf. lia. }
  rewrite mnpack_S.
  destruct (tinyBLAS_Q0_AVX.select _ _) as [[[mc nc] kn]|] eqn:Hsel; [|done].
  destruct (mnpack_measure m0 m n0 n mc nc kn Hm Hn Hsel) as (Hmp & Hnp & H1 & H2).
  cbv zeta in *. unfold tinyBLAS_Q0_AVX.mnpack_fuel in Hf.
  destruct (IH (m0 + (m - m0) `quot` mc * mc) m n0 (n0 + (n - n0) `quot` nc * nc))
    as [ws1 ->]; [lia..|unfold tinyBLAS_Q0_AVX.mnpack_fuel; lia|].
  destruct (IH m0 m (n0 + (n - n0) `quot` nc * nc) n)
    as [ws2 ->]; [lia..|unfold tinyBLAS_Q0_AVX.mnpack_fuel; lia|].
  done.
Qed.
End termination.

(** * The properties of the specification *)



(** C2.  A call of the entry point that returns [false] has not modified
    [C]: the matrix after the call is the matrix before it. *)
Theorem C2_false_return_leaves_C {F : Type} {fo : float_ops F} {vs : vocabularies F}
    (tgt : target) (nth : Z) (sched : list nat) (m n k : Z) (A B : operand F)
    (lda ldb ldc : Z) (Atype Btype Ctype : ggml_type) (ws : list (write F))
    (C : gmap Z F) :
  n < 2 ^ 63 →
  llamafile_sgemm tgt nth sched m n k A lda B ldb ldc Atype Btype Ctype
    = Returned false ws →
  C_after ldc C
    (llamafile_sgemm tgt nth sched m n k A lda B ldb ldc Atype Btype Ctype)
    = Some C.
Proof.
  intros Hn63 Hr.
  pose proof (sgemm_false_no_store _ _ _ _ _ _ _ _ _ _ _ _ _ _ _ Hn63 Hr) as ->.
  by rewrite Hr.
Qed.

Lemma C2_false_return_leaves_C_witness :
  C_after 6 {[ 0 := 5; 7 := 9 ]} exact.f32_six_rows = Some {[ 0 := 5; 7 := 9 ]}.
Proof.
  apply (C2_false_return_leaves_C exact.avx2 2 [] 6 2 8 (exact.matrix 1) (exact.matrix 3)
           8 8 6 GGML_TYPE_F32 GGML_TYPE_F32 GGML_TYPE_F32 []).
  - reflexivity.
  - vm_compute. reflexivity.
Defined.

(** C3.  The floating point engine's [matmul(m, n)] returns [false] when
    [k mod KN] is not zero.  Otherwise it returns [false] for every [m]
    that is not divisible by 4, and for [m] divisible by 4 a row of the
    tile selection matches: the call never fails an assertion, returns
    [true] whenever its workers all return, and they do under some
    schedule. *)
Theorem C3_matmul_result {F TA TB : Type} {voc : vocabulary F TA TB}
    (KN VR nth : Z) (A : Z → TA) (B : Z → TB) (k lda ldb m n : Z) :
  0 ≤ m → 1 ≤ n < 2 ^ 63 → 0 < nth →
  (k `rem` KN ≠ 0 →
     ∀ sched, tinyBLAS.matmul KN VR nth A B k lda ldb m n sched = Returned false []) ∧
  (k `rem` KN = 0 → m `rem` 4 ≠ 0 →
     ∀ sched, tinyBLAS.matmul KN VR nth A B k lda ldb m n sched = Returned false []) ∧
  (k `rem` KN = 0 → m `rem` 4 = 0 →
     (∀ sched b ws,
        tinyBLAS.matmul KN VR nth A B k lda ldb m n sched = Returned b ws → b = true) ∧
     (∀ sched, tinyBLAS.matmul KN VR nth A B k lda ldb m n sched ≠ Aborted) ∧
     (∃ sched ws, tinyBLAS.matmul KN VR nth A B k lda ldb m n sched = Returned true ws)).
Proof.
  intros Hm Hn Hnth. split_and!.
  - intros Hk sched. apply matmul_rejects; [done|by left].
  - intros _ H4 sched. apply matmul_rejects; [done|by right].
  - intros Hk H4.
    destruct (matmul_serves KN VR nth A B k lda ldb m n Hm Hn Hnth Hk H4) as (Hs & Ha & He).
    split_and!; [|done|done].
    intros sched b ws Hr. by destruct (Hs sched b ws Hr).
Qed.

Lemma C3_matmul_result_witness :
  let matmul := tinyBLAS.matmul (voc := exact.lanes 8) 8 16 2
                  (λ off, off + 1) (λ off, off + 3) 8 8 8 4 2 in
  (8 `rem` 8 ≠ 0 → ∀ sched, matmul sched = Returned false []) ∧
  (8 `rem` 8 = 0 → 4 `rem` 4 ≠ 0 → ∀ sched, matmul sched = Returned false []) ∧
  (8 `rem` 8 = 0 → 4 `rem` 4 = 0 →
     (∀ sched b ws, matmul sched = Returned b ws → b = true) ∧
     (∀ sched, matmul sched ≠ Aborted) ∧
     (∃ sched ws, matmul sched = Returned true ws)).
Proof.
  apply (C3_matmul_result (voc := exact.lanes 8) 8 16 2
           (λ off, off + 1) (λ off, off + 3) 8 8 8 4 2).
  - lia.
  - split; [lia | reflexivity].
  - lia.
Defined.

(** C4.  Thread count invariance.  Two runs of the entry point on the same
    operands, shapes and types that both return, with any worker counts
    (among them 1, 2, 4, 8 and 16) and any schedules, give the same answer,
    store the same values in the same cells, and leave the same contents
    in [C]; the block multiplier chosen by [m / 16 >= nth] changes only
    which worker stores a cell. *)
Theorem C4_thread_count_invariance {F : Type} {fo : float_ops F} {vs : vocabularies F}
    (tgt : target) (m n k : Z) (A B : operand F) (lda ldb ldc : Z)
    (Atype Btype Ctype : ggml_type)
    (nth1 nth2 : Z) (sched1 sched2 : list nat) (b1 b2 : bool)
    (ws1 ws2 : list (write F)) (C : gmap Z F) :
  n < 2 ^ 63 →
  llamafile_sgemm tgt nth1 sched1 m n k A lda B ldb ldc Atype Btype Ctype
    = Returned b1 ws1 →
  llamafile_sgemm tgt nth2 sched2 m n k A lda B ldb ldc Atype Btype Ctype
    = Returned b2 ws2 →
  b1 = b2 ∧ ws1 ≡ₚ ws2 ∧ apply_writes ldc ws1 C = apply_writes ldc ws2 C.
Proof.
  intros Hn63 Hr1 Hr2.
  destruct (sgemm_covers tgt m n k A B lda ldb ldc Atype Btype Ctype Hn63)
    as (ok & ref & Href & H).
  destruct (sgemm_returned_pre _ _ _ _ _ _ _ _ _ _ _ _ _ _ _ _ Hr1)
    as (_ & _ & _ & _ & _ & Hldc & Hnth1).
  destruct (sgemm_returned_pre _ _ _ _ _ _ _ _ _ _ _ _ _ _ _ _ Hr2)
    as (_ & _ & _ & _ & _ & _ & Hnth2).
  destruct (H nth1 sched1 b1 ws1 Hnth1 Hr1) as [-> H1].
  destruct (H nth2 sched2 b2 ws2 Hnth2 Hr2) as [-> H2].
  split; [done|]. destruct ok.
  - assert (ws1 ≡ₚ ws2) as Hp by (by rewrite H1, H2).
    split; [done|]. apply apply_writes_perm; [|done].
    apply (grid_offsets_NoDup ldc m n); [done|]. by rewrite H1.
  - by subst.
Qed.

Lemma C4_thread_count_invariance_witness :
  true = true ∧ exact.f32_by_1 ≡ₚ exact.f32_by_2 ∧
  apply_writes 16 exact.f32_by_1 {[ 3 := 4 ]} = apply_writes 16 exact.f32_by_2 {[ 3 := 4 ]}.
Proof.
  apply (C4_thread_count_invariance exact.avx2 16 2 8 (exact.matrix 1) (exact.matrix 3)
           8 8 16 GGML_TYPE_F32 GGML_TYPE_F32 GGML_TYPE_F32
           1 2 [0; 0]%nat [1; 0; 0; 1]%nat).
  - reflexivity.
  - vm_compute. reflexivity.
  - vm_compute. reflexivity.
Defined.

(** C5.  The three tiers of [updot] agree.  For byte vectors [u] (read
    unsigned) and [s] (read signed) in which no pair of adjacent products
    leaves the 16-bit range, the AVX512-VNNI tier, the AVX-VNNI tier and
    the maddubs/madd tier return the same eight lanes.  The precondition
    holds for the operands the kernels pass: after the sign fold
    [sign_epi8(a, a)], [sign_epi8(b, a)] nothing saturates, so the tiers
    agree there. *)
Theorem C5_updot_tiers_agree {F : Type} {fo : float_ops F}
    (tgt1 tgt2 : target) (u s a b : __m256i) :
  no_saturation u s → bytes 32 a → bytes 32 b →
  tinyBLAS_Q0_AVX.updot tgt1 u s = tinyBLAS_Q0_AVX.updot tgt2 u s ∧
  no_saturation (_mm256_sign_epi8 a a) (_mm256_sign_epi8 b a) ∧
  tinyBLAS_Q0_AVX.updot tgt1 (_mm256_sign_epi8 a a) (_mm256_sign_epi8 b a)
  = tinyBLAS_Q0_AVX.updot tgt2 (_mm256_sign_epi8 a a) (_mm256_sign_epi8 b a).
Proof.
  intros Hns [_ Ha] [_ Hb].
  pose proof (sign_fold_no_saturation a b Ha Hb) as Hfold.
  split_and!; [by apply updot_tiers|done|by apply updot_tiers].
Qed.

Lemma C5_updot_tiers_agree_witness :
  tinyBLAS_Q0_AVX.updot exact.avx2 exact.u_lanes exact.s_lanes
  = tinyBLAS_Q0_AVX.updot exact.avxvnni exact.u_lanes exact.s_lanes ∧
  no_saturation (_mm256_sign_epi8 exact.s_lanes exact.s_lanes)
                (_mm256_sign_epi8 exact.u_lanes exact.s_lanes) ∧
  tinyBLAS_Q0_AVX.updot exact.avx2
    (_mm256_sign_epi8 exact.s_lanes exact.s_lanes)
    (_mm256_sign_epi8 exact.u_lanes exact.s_lanes)
  = tinyBLAS_Q0_AVX.updot exact.avxvnni
      (_mm256_sign_epi8 exact.s_lanes exact.s_lanes)
      (_mm256_sign_epi8 exact.u_lanes exact.s_lanes).
Proof.
  apply (C5_updot_tiers_agree exact.avx2 exact.avxvnni
           exact.u_lanes exact.s_lanes exact.s_lanes exact.u_lanes).
  - vm_compute. repeat split.
  - split; [reflexivity|]. vm_compute. repeat constructor; discriminate.
  - split; [reflexivity|]. vm_compute. repeat constructor; discriminate.
Defined.

(** C6.  The lanes of a decoded q5_0 block.  Lane [i] of
    [load(block_q5_0)] is the [i]-th nibble of the 16-byte payload (low
    nibbles in lanes 0 to 15, high nibbles in lanes 16 to 31) OR-ed with
    [0xF0] when bit [i] of the 32-bit field [qh] is zero and with [0x00]
    when it is one; read as a signed byte the lane is the nibble minus 16,
    or the nibble. *)
Theorem C6_load_q5_0_lanes (b : block_q5_0.t) :
  bytes 16 (block_q5_0.qs b) → bytes 4 (block_q5_0.qh b) →
  load b = (λ i, Z.lor (nibble (block_q5_0.qs b) i)
                       (if Z.testbit (le_word (block_q5_0.qh b)) i then 0x00 else 0xF0))
           <$> seqZ 0 32 ∧
  sint 8 <$> load b
  = (λ i, nibble (block_q5_0.qs b) i
          - (if Z.testbit (le_word (block_q5_0.qh b)) i then 0 else 16))
    <$> seqZ 0 32.
Proof.
  intros Hqs Hqh. split; [by apply load_q5_0_spec|by apply load_q5_0_signed].
Qed.

Lemma C6_load_q5_0_lanes_witness :
  load exact.q5_0_block
  = (λ i, Z.lor (nibble (block_q5_0.qs exact.q5_0_block) i)
            (if Z.testbit (le_word (block_q5_0.qh exact.q5_0_block)) i then 0x00 else 0xF0))
    <$> seqZ 0 32 ∧
  sint 8 <$> load exact.q5_0_block
  = (λ i, nibble (block_q5_0.qs exact.q5_0_block) i
          - (if Z.testbit (le_word (block_q5_0.qh exact.q5_0_block)) i then 0 else 16))
    <$> seqZ 0 32.
Proof.
  apply (C6_load_q5_0_lanes exact.q5_0_block).
  - split; [reflexivity|]. vm_compute. repeat constructor; discriminate.
  - split; [reflexivity|]. vm_compute. repeat constructor; discriminate.
Defined.

(** C7.  The lanes of a decoded iq4_nl block.  Read as a signed byte, lane
    [i] of [load(block_iq4_nl)] is the entry of the sixteen entry table
    selected by the [i]-th nibble of the payload, low nibbles giving lanes
    0 to 15 and high nibbles lanes 16 to 31; the table is -127, -104, -83,
    -65, -49, -35, -22, -10, 1, 13, 25, 38, 53, 69, 89, 113. *)
Theorem C7_load_iq4_nl_lanes (b : block_iq4_nl.t) :
  bytes 16 (block_iq4_nl.qs b) →
  sint 8 <$> load b = (λ i, kvalue (nibble (block_iq4_nl.qs b) i)) <$> seqZ 0 32 ∧
  kvalue <$> seqZ 0 16
  = [-127; -104; -83; -65; -49; -35; -22; -10; 1; 13; 25; 38; 53; 69; 89; 113].
Proof.
  intros Hqs. split; [by apply load_iq4_nl_spec|reflexivity].
Qed.

Lemma C7_load_iq4_nl_lanes_witness :
  sint 8 <$> load exact.iq4_nl_block
  = (λ i, kvalue (nibble (block_iq4_nl.qs exact.iq4_nl_block) i)) <$> seqZ 0 32 ∧
  kvalue <$> seqZ 0 16
  = [-127; -104; -83; -65; -49; -35; -22; -10; 1; 13; 25; 38; 53; 69; 89; 113].
Proof.
  apply (C7_load_iq4_nl_lanes exact.iq4_nl_block).
  split; [reflexivity|]. vm_compute. repeat constructor; discriminate.
Defined.

(** C8.  The stripe identity.  For [xtiles >= 1] and [BN >= 1], with
    [NB_BN = 1] if [xtiles < BN] and [(xtiles + BN / 2) / BN] otherwise,
    [SIZE_BN = ceil(xtiles / NB_BN)] and
    [jj_BN = NB_BN - (NB_BN * SIZE_BN - xtiles)], there are between 1 and
    [xtiles] stripes, [SIZE_BN] is the least width with which [NB_BN]
    stripes reach [xtiles], between 1 and [NB_BN] of the stripes are wide,
    and the widths tile the range of column tiles:
    [jj_BN * SIZE_BN + (NB_BN - jj_BN) * (SIZE_BN - 1) = xtiles], the
    stripe boundaries running from 0 to [xtiles] in steps of [SIZE_BN] and
    then [SIZE_BN - 1], none of them empty.  So [gemm], once [m] is a
    multiple of [RM * BM], passes the assertion of thread 0 and goes on to
    the job loop, and no assertion of a call of [gemm] fires. *)
Theorem C8_stripe_identity {F TA TB : Type} {voc : vocabulary F TA TB}
    (KN nth : Z) (A : Z → TA) (B : Z → TB) (k lda ldb RM RN BM m n : Z)
    (sched : list nat) (xtiles BN : Z) :
  1 ≤ xtiles → 1 ≤ BN →
  let NB := NB_BN xtiles BN in
  let S := SIZE_BN xtiles NB in
  let jj := jj_BN xtiles NB S in
  NB = (if decide (xtiles < BN) then 1 else (xtiles + BN `div` 2) `div` BN) ∧
  1 ≤ NB ≤ xtiles ∧
  S = (xtiles + NB - 1) `div` NB ∧ NB * (S - 1) < xtiles ≤ NB * S ∧
  0 < jj ≤ NB ∧
  jj * S + (NB - jj) * (S - 1) = xtiles ∧
  (BLOC_POS 0 jj S = 0 ∧ BLOC_POS NB jj S = xtiles ∧
   ∀ jb, 0 ≤ jb < NB →
     BLOC_POS (jb + 1) jj S - BLOC_POS jb jj S = (if decide (jb < jj) then S else S - 1) ∧
     1 ≤ BLOC_POS (jb + 1) jj S - BLOC_POS jb jj S) ∧
  ((n + RN - 1) `quot` RN = xtiles → m `rem` (RM * BM) = 0 →
   tinyBLAS.gemm KN nth A B k lda ldb RM RN BM m n BN sched
   = tinyBLAS.pool_result
       (foldl (tinyBLAS.worker_step (m `quot` (RM * BM) * NB)
                 (tinyBLAS.job_body KN A B k lda ldb RM RN BM (m `quot` (RM * BM))
                    (xtiles - (xtiles * RN - n)) jj S))
              (tinyBLAS.pool_init nth) sched)) ∧
  (1 ≤ RM → 1 ≤ BM → 1 ≤ RN → 0 ≤ m → 1 ≤ n → 0 < nth →
   (n + RN - 1) `quot` RN = xtiles → m `rem` (RM * BM) = 0 →
   0 ≤ xtiles - (xtiles * RN - n) ≤ xtiles →
   tinyBLAS.gemm KN nth A B k lda ldb RM RN BM m n BN sched ≠ Aborted).
Proof.
  intros Hx HB NB S jj.
  pose proof (NB_BN_pos xtiles BN Hx HB) as HNB. fold NB in HNB.
  pose proof (jj_BN_bounds xtiles BN Hx HB) as [HJ HS]. fold NB S jj in HJ, HS.
  pose proof (SIZE_BN_ceil xtiles NB ltac:(lia) ltac:(lia)) as Hceil. fold S in Hceil.
  pose proof (ceil_bounds xtiles NB ltac:(lia) ltac:(lia)) as Hcb. rewrite <-Hceil in Hcb.
  assert (jj = NB - (NB * S - xtiles)) as HJdef by reflexivity.
  assert (jj * S + (NB - jj) * (S - 1) = xtiles) as Hid by (rewrite HJdef; lia).
  split_and!; try (exact Hceil || exact Hid || lia).
  - subst NB. unfold NB_BN. case_decide; [reflexivity|].
    rewrite (quot_div BN 2) by lia.
    assert (0 ≤ BN `div` 2) by (apply Z.div_pos; lia).
    by rewrite quot_div by lia.
  - apply BLOC_POS_0. lia.
  - apply (stripe_pos_bounds xtiles BN NB Hx HB). lia.
  - intros jb Hjb. unfold BLOC_POS.
    assert (S = 1 → jj = NB) by nia.
    repeat case_decide; split; nia.
  - intros Hxt Hmr. unfold tinyBLAS.gemm. cbv zeta. rewrite Hxt.
    rewrite decide_True by exact Hmr. fold NB S jj. by rewrite decide_True by exact Hid.
  - intros HRM HBM HRN Hm Hn Hnth Hxt Hmr Hjj.
    apply (gemm_not_aborted KN nth A B k lda ldb RM RN BM m n BN); try assumption.
    cbv zeta. by rewrite Hxt.
Qed.

Lemma C8_stripe_identity_witness :
  let NB := NB_BN 7 3 in
  let S := SIZE_BN 7 NB in
  let jj := jj_BN 7 NB S in
  NB = (if decide (7 < 3) then 1 else (7 + 3 `div` 2) `div` 3) ∧
  1 ≤ NB ≤ 7 ∧
  S = (7 + NB - 1) `div` NB ∧ NB * (S - 1) < 7 ≤ NB * S ∧
  0 < jj ≤ NB ∧
  jj * S + (NB - jj) * (S - 1) = 7 ∧
  (BLOC_POS 0 jj S = 0 ∧ BLOC_POS NB jj S = 7 ∧
   ∀ jb, 0 ≤ jb < NB →
     BLOC_POS (jb + 1) jj S - BLOC_POS jb jj S = (if decide (jb < jj) then S else S - 1) ∧
     1 ≤ BLOC_POS (jb + 1) jj S - BLOC_POS jb jj S) ∧
  ((14 + 2 - 1) `quot` 2 = 7 → 8 `rem` (4 * 2) = 0 →
   tinyBLAS.gemm (voc := exact.lanes 8) 8 2 (λ off, off + 1) (λ off, off + 3) 8 8 8
     4 2 2 8 14 3 [0; 1]%nat
   = tinyBLAS.pool_result
       (foldl (tinyBLAS.worker_step (8 `quot` (4 * 2) * NB)
                 (tinyBLAS.job_body (voc := exact.lanes 8) 8 (λ off, off + 1) (λ off, off + 3)
                    8 8 8 4 2 2 (8 `quot` (4 * 2)) (7 - (7 * 2 - 14)) jj S))
              (tinyBLAS.pool_init 2) [0; 1]%nat)) ∧
  (1 ≤ 4 → 1 ≤ 2 → 1 ≤ 2 → 0 ≤ 8 → 1 ≤ 14 → 0 < 2 →
   (14 + 2 - 1) `quot` 2 = 7 → 8 `rem` (4 * 2) = 0 →
   0 ≤ 7 - (7 * 2 - 14) ≤ 7 →
   tinyBLAS.gemm (voc := exact.lanes 8) 8 2 (λ off, off + 1) (λ off, off + 3) 8 8 8
     4 2 2 8 14 3 [0; 1]%nat ≠ Aborted).
Proof.
  apply (C8_stripe_identity (voc := exact.lanes 8) 8 2 (λ off, off + 1) (λ off, off + 3)
           8 8 8 4 2 2 8 14 [0; 1]%nat 7 3); lia.
Defined.

(** C9.  The fast quantised kernels agree with the generic one.  Where the
    fast kernels are compiled (AVX2 with F16C) and the hardware conversion
    of a half precision pattern gives the float the conversion macro
    gives, [gemm4xN<RN>] stores what [gemm<4, RN>] stores and
    [gemmMx4<RM>] what [gemm<RM, 4>] stores, cell for cell and in the same
    order, for every tile width and every region: converting the four
    packed deltas at once gives the same four delta products as converting
    each on its own. *)
Theorem C9_fast_kernels_agree {F : Type} {fo : float_ops F} (tgt : target)
    {TA TB : Type} {blkA : block TA} {blkB : block TB}
    (A : Z → TA) (B : Z → TB) (k lda ldb ith nth : Z) (RM RN m0 m n0 n : Z) :
  tinyBLAS_Q0_AVX.fast tgt = true →
  (∀ h, 0 ≤ h < 65536 → cvtph h = GGML_FP16_TO_FP32 h) →
  (∀ off, 0 ≤ d (A off) < 65536) →
  (∀ off, 0 ≤ d (B off) < 65536) →
  tinyBLAS_Q0_AVX.gemm4xN tgt A B k lda ldb ith nth RN m0 m n0 n
  = tinyBLAS_Q0_AVX.gemm tgt A B k lda ldb ith nth 4 RN m0 m n0 n ∧
  tinyBLAS_Q0_AVX.gemmMx4 tgt A B k lda ldb ith nth RM m0 m n0 n
  = tinyBLAS_Q0_AVX.gemm tgt A B k lda ldb ith nth RM 4 m0 m n0 n.
Proof.
  intros Hfast Hcvt HdA HdB. unfold tinyBLAS_Q0_AVX.fast in Hfast.
  apply andb_true_iff in Hfast as [Havx2 _].
  split; [by apply gemm4xN_gemm|by apply gemmMx4_gemm].
Qed.

Lemma C9_fast_kernels_agree_witness :
  tinyBLAS_Q0_AVX.gemm4xN exact.avx2 (exact.unit_blocks 1) (exact.unit_blocks 3)
    2 2 2 0 1 3 0 8 0 6
  = tinyBLAS_Q0_AVX.gemm exact.avx2 (exact.unit_blocks 1) (exact.unit_blocks 3)
      2 2 2 0 1 4 3 0 8 0 6 ∧
  tinyBLAS_Q0_AVX.gemmMx4 exact.avx2 (exact.unit_blocks 1) (exact.unit_blocks 3)
    2 2 2 0 1 2 0 8 0 6
  = tinyBLAS_Q0_AVX.gemm exact.avx2 (exact.unit_blocks 1) (exact.unit_blocks 3)
      2 2 2 0 1 2 4 0 8 0 6.
Proof.
  apply (C9_fast_kernels_agree exact.avx2 (exact.unit_blocks 1) (exact.unit_blocks 3)
           2 2 2 0 1 2 3 0 8 0 6).
  - reflexivity.
  - intros h _. reflexivity.
  - intros off. simpl. lia.
  - intros off. simpl. lia.
Defined.

(** C10.  The quantised partitioner terminates.  For [m0 <= m] and
    [n0 <= n] both regions [mnpack] recurses on are strictly smaller in
    [(m - m0) + (n - n0)], so the call returns: with fuel for that many
    levels the model gives a result, the same for any larger fuel.  When
    [m - m0 = 0] or [n - n0 = 0] the switch key has a zero nibble and takes
    the default case: the call returns at once, without a store and
    without recursing. *)
Theorem C10_mnpack_terminates {F : Type} {fo : float_ops F} (tgt : target)
    {TA TB : Type} {blkA : block TA} {blkB : block TB}
    (A : Z → TA) (B : Z → TB) (k lda ldb ith nth : Z) (m0 m n0 n : Z) :
  m0 ≤ m → n0 ≤ n →
  let key := Z.lor (Z.shiftl (MIN (m - m0) 4) 4) (MIN (n - n0) 4) in
  (∃ ws, ∀ fuel, (tinyBLAS_Q0_AVX.mnpack_fuel m0 m n0 n ≤ fuel)%nat →
     tinyBLAS_Q0_AVX.mnpack tgt A B k lda ldb ith nth fuel m0 m n0 n = Some ws) ∧
  (∀ mc nc kn, tinyBLAS_Q0_AVX.select tgt key = Some (mc, nc, kn) →
     let mp := m0 + (m - m0) `quot` mc * mc in
     let np := n0 + (n - n0) `quot` nc * nc in
     m0 < mp ≤ m ∧ n0 < np ≤ n ∧
     (m - mp) + (np - n0) < (m - m0) + (n - n0) ∧
     (m - m0) + (n - np) < (m - m0) + (n - n0)) ∧
  (m - m0 = 0 ∨ n - n0 = 0 →
     tinyBLAS_Q0_AVX.select tgt key = None ∧
     ∀ fuel, tinyBLAS_Q0_AVX.mnpack tgt A B k lda ldb ith nth (S fuel) m0 m n0 n
             = Some []).
Proof.
  intros Hm Hn key. split_and!.
  - destruct (mnpack_returns tgt A B k lda ldb ith nth
                (tinyBLAS_Q0_AVX.mnpack_fuel m0 m n0 n) m0 m n0 n Hm Hn ltac:(done))
      as [ws Hws].
    exists ws. intros fuel Hf.
    exact (mnpack_fuel_le tgt A B k lda ldb ith nth _ fuel m0 m n0 n ws Hf Hws).
  - intros mc nc kn Hsel. by apply (mnpack_measure tgt m0 m n0 n mc nc kn).
  - intros H0. split.
    + subst key. rewrite !MIN_min. apply select_default; lia.
    + intros fuel. by apply mnpack_default.
Qed.

Lemma C10_mnpack_terminates_witness :
  let key := Z.lor (Z.shiftl (MIN (5 - 0) 4) 4) (MIN (3 - 3) 4) in
  (∃ ws, ∀ fuel, (tinyBLAS_Q0_AVX.mnpack_fuel 0 5 3 3 ≤ fuel)%nat →
     tinyBLAS_Q0_AVX.mnpack exact.avx2 (exact.unit_blocks 1) (exact.unit_blocks 3)
       2 2 2 0 2 fuel 0 5 3 3 = Some ws) ∧
  (∀ mc nc kn, tinyBLAS_Q0_AVX.select exact.avx2 key = Some (mc, nc, kn) →
     let mp := 0 + (5 - 0) `quot` mc * mc in
     let np := 3 + (3 - 3) `quot` nc * nc in
     0 < mp ≤ 5 ∧ 3 < np ≤ 3 ∧
     (5 - mp) + (np - 3) < (5 - 0) + (3 - 3) ∧
     (5 - 0) + (3 - np) < (5 - 0) + (3 - 3)) ∧
  (5 - 0 = 0 ∨ 3 - 3 = 0 →
     tinyBLAS_Q0_AVX.select exact.avx2 key = None ∧
     ∀ fuel, tinyBLAS_Q0_AVX.mnpack exact.avx2 (exact.unit_blocks 1) (exact.unit_blocks 3)
               2 2 2 0 2 (S fuel) 0 5 3 3 = Some []).
Proof.
  apply (C10_mnpack_terminates exact.avx2 (exact.unit_blocks 1) (exact.unit_blocks 3)
           2 2 2 0 2 0 5 3 3); lia.
Defined.

(** * Further properties of the partitioning *)

(** X1.  [BLOCK_SIZE<M>(m)] splits [m] columns into [ceil(m / M)] blocks
    of equal width up to one: the width it returns is at least 1 and at
    most [M], that many blocks of it cover [m], and blocks one narrower
    would not. *)
Theorem X1_BLOCK_SIZE_balanced (M m : Z) :
  1 ≤ M < 2 ^ 32 → 1 ≤ m < 2 ^ 63 →
  ∃ s, BLOCK_SIZE M m = Some s ∧ 1 ≤ s ≤ M ∧
       let NB := (m + M - 1) `div` M in
       1 ≤ NB ∧ NB * (s - 1) < m ≤ NB * s.
Proof.
  intros HM Hm. unfold BLOCK_SIZE, size_t.
  change (2 ^ 64) with 18446744073709551616.
  change (2 ^ 63) with 9223372036854775808 in Hm.
  change (2 ^ 32) with 4294967296 in HM.
  rewrite (Z.mod_small m), (Z.mod_small M), (Z.mod_small (m + M - 1)) by lia.
  set (NB := (m + M - 1) `div` M).
  pose proof (ceil_bounds m M ltac:(lia) ltac:(lia)) as HNB. fold NB in HNB.
  assert (1 ≤ NB) as HNB1 by nia.
  rewrite decide_False by lia.
  pose proof (SIZE_BN_ceil m NB ltac:(lia) HNB1) as Hs. unfold SIZE_BN in Hs.
  rewrite rem_mod, !quot_div in Hs by lia.
  eexists. split; [done|]. rewrite Hs. clear Hs.
  set (s := (m + NB - 1) `div` NB).
  pose proof (ceil_bounds m NB ltac:(lia) HNB1) as Hsb. fold s in Hsb.
  assert (1 ≤ s) by nia. assert (s ≤ M) by nia.
  cbv zeta. split_and!; lia.
Qed.

Lemma X1_BLOCK_SIZE_balanced_witness :
  ∃ s, BLOCK_SIZE 6 100 = Some s ∧ 1 ≤ s ≤ 6 ∧
       let NB := (100 + 6 - 1) `div` 6 in
       1 ≤ NB ∧ NB * (s - 1) < 100 ≤ NB * s.
Proof.
  apply (X1_BLOCK_SIZE_balanced 6 100); split; (lia || reflexivity).
Defined.

Lemma run_no_columns {F TA TB : Type} {voc : vocabulary F TA TB}
    (KN nth : Z) (A : Z → TA) (B : Z → TB) (k lda ldb : Z)
    (RN : nat) (BM m BN : Z) (sched : list nat) :
  (1 ≤ RN)%nat → Z.of_nat RN < 2 ^ 64 →
  tinyBLAS.run KN nth A B k lda ldb RN BM m 0 BN sched = Aborted.
Proof.
  intros HRN HRN'. unfold tinyBLAS.run, BLOCK_SIZE, size_t.
  change (2 ^ 64) with 18446744073709551616 in *.
  rewrite (Z.mod_small 0), (Z.mod_small (Z.of_nat RN)), (Z.mod_small (0 + _ - 1)) by lia.
  rewrite (Z.div_small (0 + Z.of_nat RN - 1)) by lia.
  by rewrite decide_True.
Qed.

(** X2.  [BLOCK_SIZE<M>(0)] divides by zero, so [matmul(m, 0)] of the
    floating point engine does not survive a matching row of the tile
    selection.  The entry point never gets there: with [n < 2] it returns
    [false] before an engine is built. *)
Theorem X2_no_columns {F : Type} {fo : float_ops F} {vs : vocabularies F}
    {TA TB : Type} {voc : vocabulary F TA TB}
    (KN VR nth : Z) (A' : Z → TA) (B' : Z → TB) (k lda ldb m : Z) (sched : list nat)
    (tgt : target) (A B : operand F) (ldc n : Z) (Atype Btype Ctype : ggml_type) :
  0 ≤ m → 0 ≤ k → k ≤ lda → k ≤ ldb → m ≤ ldc → 0 < nth → 0 ≤ n < 2 →
  BLOCK_SIZE 6 0 = None ∧ BLOCK_SIZE 3 0 = None ∧
  (k `rem` KN = 0 → m `rem` 4 = 0 →
     tinyBLAS.matmul KN VR nth A' B' k lda ldb m 0 sched = Aborted) ∧
  llamafile_sgemm tgt nth sched m n k A lda B ldb ldc Atype Btype Ctype
    = Returned false [].
Proof.
  intros Hm Hk Hlda Hldb Hldc Hnth Hn. split_and!; [reflexivity..| |].
  - intros HKN H4. unfold tinyBLAS.matmul.
    rewrite (decide_False (P := k `rem` KN ≠ 0)) by (by intros ?).
    assert (Z.of_nat 6 < 2 ^ 64 ∧ Z.of_nat 3 < 2 ^ 64) as [H6 H3] by (split; reflexivity).
    destruct (decide (VR = 32));
      destruct (decide (m `rem` 16 = 0 ∧ nth ≤ m `quot` 16));
      try (apply run_no_columns; [lia|assumption]);
      destruct (decide (m `rem` 8 = 0));
      try (apply run_no_columns; [lia|assumption]);
      rewrite (decide_True (P := m `rem` 4 = 0)) by exact H4;
      apply run_no_columns; (lia || assumption).
  - unfold llamafile_sgemm.
    rewrite decide_True by (split_and!; lia). by rewrite decide_True by lia.
Qed.

Lemma X2_no_columns_witness :
  BLOCK_SIZE 6 0 = None ∧ BLOCK_SIZE 3 0 = None ∧
  (8 `rem` 8 = 0 → 4 `rem` 4 = 0 →
     tinyBLAS.matmul (voc := exact.lanes 8) 8 16 2 (λ off, off + 1) (λ off, off + 3)
       8 8 8 4 0 [0; 1]%nat = Aborted) ∧
  llamafile_sgemm exact.avx2 2 [0; 1]%nat 4 1 8 (exact.matrix 1) 8 (exact.matrix 3) 8 4
    GGML_TYPE_F32 GGML_TYPE_F32 GGML_TYPE_F32 = Returned false [].
Proof.
  apply (X2_no_columns (voc := exact.lanes 8) 8 16 2 (λ off, off + 1) (λ off, off + 3)
           8 8 8 4 [0; 1]%nat exact.avx2 (exact.matrix 1) (exact.matrix 3) 4 1
           GGML_TYPE_F32 GGML_TYPE_F32 GGML_TYPE_F32); lia.
Defined.

(** X3.  The column stripes of the floating point [gemm].  With
    [NB_BN], [SIZE_BN] and [jj_BN] as [gemm] computes them, the stripe
    boundaries [BLOC_POS(jb, jj_BN, SIZE_BN)] start at 0, end at [xtiles],
    and every stripe is [SIZE_BN] column tiles wide if [jb < jj_BN] and
    [SIZE_BN - 1] otherwise; no stripe is empty. *)
Theorem X3_stripes (xtiles BN : Z) :
  1 ≤ xtiles → 1 ≤ BN →
  let NB := NB_BN xtiles BN in
  let S := SIZE_BN xtiles NB in
  let J := jj_BN xtiles NB S in
  BLOC_POS 0 J S = 0 ∧ BLOC_POS NB J S = xtiles ∧
  ∀ jb, 0 ≤ jb < NB →
    BLOC_POS (jb + 1) J S - BLOC_POS jb J S = (if decide (jb < J) then S else S - 1) ∧
    1 ≤ BLOC_POS (jb + 1) J S - BLOC_POS jb J S.
Proof.
  intros Hx HB NB S J.
  pose proof (NB_BN_pos xtiles BN Hx HB) as HNB. fold NB in HNB.
  pose proof (jj_BN_bounds xtiles BN Hx HB) as [HJ HS]. fold NB S J in HJ, HS.
  assert (J = NB - (NB * S - xtiles)) as HJdef by reflexivity.
  split_and!.
  - apply BLOC_POS_0. lia.
  - apply (stripe_pos_bounds xtiles BN NB Hx HB). lia.
  - intros jb Hjb. unfold BLOC_POS.
    assert (S = 1 → J = NB) by nia.
    repeat case_decide; split; nia.
Qed.

Lemma X3_stripes_witness :
  let NB := NB_BN 17 12 in
  let S := SIZE_BN 17 NB in
  let J := jj_BN 17 NB S in
  BLOC_POS 0 J S = 0 ∧ BLOC_POS NB J S = 17 ∧
  ∀ jb, 0 ≤ jb < NB →
    BLOC_POS (jb + 1) J S - BLOC_POS jb J S = (if decide (jb < J) then S else S - 1) ∧
    1 ≤ BLOC_POS (jb + 1) J S - BLOC_POS jb J S.
Proof. apply (X3_stripes 17 12); lia. Defined.

Lemma mnpack_unsupported {F TA TB : Type} {voc : vocabulary F TA TB}
    (KN nth : Z) (A : Z → TA) (B : Z → TB) (k lda ldb : Z)
    (RM : Z) (RN : nat) (BM m n s BN : Z) (sched : list nat) :
  (1 ≤ RN)%nat → s < 1 ∨ Z.of_nat RN < s →
  tinyBLAS.mnpack KN nth A B k lda ldb RM RN BM m n s BN sched = Aborted.
Proof.
  induction RN as [|RN IH]; intros HRN Hs; [lia|].
  simpl. rewrite decide_False by lia.
  destruct RN as [|RN]; [done|]. apply IH; lia.
Qed.

(** X4.  The floating point [mnpack<RM, RN, BM>] steps [RN] down to the
    block width: for [1 <= SIZE_N <= RN] it is [gemm<RM, SIZE_N, BM>], and
    for any other [SIZE_N] it ends in the failed assertion. *)
Theorem X4_mnpack_dispatch {F TA TB : Type} {voc : vocabulary F TA TB}
    (KN nth : Z) (A : Z → TA) (B : Z → TB) (k lda ldb : Z)
    (RM : Z) (RN : nat) (BM m n SIZE_N BN : Z) (sched : list nat) :
  (1 ≤ RN)%nat →
  tinyBLAS.mnpack KN nth A B k lda ldb RM RN BM m n SIZE_N BN sched
  = if decide (1 ≤ SIZE_N ≤ Z.of_nat RN)
    then tinyBLAS.gemm KN nth A B k lda ldb RM SIZE_N BM m n BN sched
    else Aborted.
Proof.
  intros HRN. case_decide.
  - by apply mnpack_gemm.
  - apply mnpack_unsupported; [done|lia].
Qed.

Lemma X4_mnpack_dispatch_witness :
  tinyBLAS.mnpack (voc := exact.lanes 8) 8 2 (λ off, off + 1) (λ off, off + 3) 8 8 8
    4 6 2 8 14 7 12 [0; 1]%nat
  = if decide (1 ≤ 7 ≤ Z.of_nat 6)
    then tinyBLAS.gemm (voc := exact.lanes 8) 8 2 (λ off, off + 1) (λ off, off + 3) 8 8 8
           4 7 2 8 14 12 [0; 1]%nat
    else Aborted.
Proof.
  apply (X4_mnpack_dispatch (voc := exact.lanes 8) 8 2 (λ off, off + 1) (λ off, off + 3)
           8 8 8 4 6 2 8 14 7 12 [0; 1]%nat). lia.
Defined.

(** X5.  What the floating point engine stores.  A call of [matmul] that
    returns [true] has stored, for every cell [(i, j)] of the grid and
    only once, the horizontal sum of the accumulator that [madd] built
    from the vectors of row [i] of [A] and row [j] of [B] at
    [l = 0, KN, 2 KN, ...], in that order. *)
Theorem X5_matmul_values {F TA TB : Type} {voc : vocabulary F TA TB}
    (KN VR nth : Z) (A : Z → TA) (B : Z → TB) (k lda ldb m n : Z)
    (sched : list nat) (ws : list (write F)) :
  0 ≤ m → 1 ≤ n < 2 ^ 63 → 0 < nth →
  tinyBLAS.matmul KN VR nth A B k lda ldb m n sched = Returned true ws →
  ws ≡ₚ values (tinyBLAS.cell_value KN A B k lda ldb) (grid m n) ∧
  ∀ w, w ∈ ws →
    w_val w = hsum (foldl (λ acc l, madd (load_a A (lda * w_row w + l))
                                         (load_b B (ldb * w_col w + l)) acc)
                          zero (range 0 k KN)).
Proof.
  intros Hm Hn Hnth Hr.
  assert (ws ≡ₚ values (tinyBLAS.cell_value KN A B k lda ldb) (grid m n)) as Hp.
  { destruct (decide (k `rem` KN = 0)) as [Hk|Hk];
      [destruct (decide (m `rem` 4 = 0)) as [H4|H4]|].
    - destruct (matmul_serves KN VR nth A B k lda ldb m n Hm Hn Hnth Hk H4) as (Hs & _ & _).
      by destruct (Hs sched true ws Hr).
    - rewrite matmul_rejects in Hr by (try right; assumption). discriminate.
    - rewrite matmul_rejects in Hr by (try left; assumption). discriminate. }
  split; [exact Hp|].
  intros w Hw. rewrite Hp in Hw. unfold values in Hw.
  apply list_elem_of_fmap in Hw as (c & -> & _). reflexivity.
Qed.

Lemma X5_matmul_values_witness :
  exact.f32_by_2
  ≡ₚ values (tinyBLAS.cell_value (voc := exact.lanes 8) 8
               (as_float (exact.matrix 1)) (as_float (exact.matrix 3)) 8 8 8) (grid 16 2) ∧
  ∀ w, w ∈ exact.f32_by_2 →
    w_val w = hsum (vocabulary := exact.lanes 8)
                (foldl (λ acc l, madd (load_a (as_float (exact.matrix 1)) (8 * w_row w + l))
                                      (load_b (as_float (exact.matrix 3)) (8 * w_col w + l))
                                      acc)
                       zero (range 0 8 8)).
Proof.
  apply (X5_matmul_values (voc := exact.lanes 8) 8 16 2
           (as_float (exact.matrix 1)) (as_float (exact.matrix 3)) 8 8 8 16 2
           [1; 0; 0; 1]%nat exact.f32_by_2).
  - lia.
  - split; [lia|reflexivity].
  - lia.
  - vm_compute. reflexivity.
Defined.

(** X6.  The flat split of the quantised [gemm].  The shares of the
    workers [0 .. nth-1], taken in that order, are the tiles
    [0 .. tiles-1] in order, so every tile belongs to exactly one worker;
    and no share is longer than [duty = ceil(tiles / nth)]. *)
Theorem X6_flat_shares (nth tiles : Z) :
  0 < nth → 0 ≤ tiles →
  seqZ 0 nth ≫= (λ ith, tinyBLAS_Q0_AVX.jobs ith nth tiles) = seqZ 0 tiles ∧
  ∀ ith, Z.of_nat (length (tinyBLAS_Q0_AVX.jobs ith nth tiles))
         ≤ (tiles + nth - 1) `quot` nth.
Proof.
  intros Hnth Ht. split; [by apply jobs_all|].
  intros ith. unfold tinyBLAS_Q0_AVX.jobs. cbv zeta.
  assert (0 ≤ (tiles + nth - 1) `quot` nth) by (apply Z.quot_pos; lia).
  rewrite length_seqZ. case_decide; lia.
Qed.

Lemma X6_flat_shares_witness :
  seqZ 0 4 ≫= (λ ith, tinyBLAS_Q0_AVX.jobs ith 4 10) = seqZ 0 10 ∧
  ∀ ith, Z.of_nat (length (tinyBLAS_Q0_AVX.jobs ith 4 10)) ≤ (10 + 4 - 1) `quot` 4.
Proof. apply (X6_flat_shares 4 10); lia. Defined.

Lemma VECTOR_REGISTERS_cases (tgt : target) :
  VECTOR_REGISTERS tgt = 32 ∨ VECTOR_REGISTERS tgt = 16.
Proof. unfold VECTOR_REGISTERS. destruct (_ || _); auto. Qed.

(** X7.  The tile the quantised [mnpack] selects.  For a region with
    [a = min(m - m0, 4)] rows and [b = min(n - n0, 4)] columns to go, the
    kernel called has the tile shape [(mc, nc)] that the switch records,
    the tile fits in the region, and its [mc * nc] accumulators take at
    most half of the vector registers.  With 32 registers the tile is
    [a x b] itself. *)
Theorem X7_selected_tile (tgt : target) (a b mc nc : Z) (kn : tile_kernel) :
  0 ≤ a ≤ 4 → 0 ≤ b ≤ 4 →
  tinyBLAS_Q0_AVX.select tgt (Z.lor (Z.shiftl a 4) b) = Some (mc, nc, kn) →
  kernel_dims kn = (mc, nc) ∧ 1 ≤ mc ≤ a ∧ 1 ≤ nc ≤ b ∧
  2 * (mc * nc) ≤ VECTOR_REGISTERS tgt ∧
  (VECTOR_REGISTERS tgt = 32 → mc = a ∧ nc = b).
Proof.
  intros Ha Hb.
  assert (a = 0 ∨ a = 1 ∨ a = 2 ∨ a = 3 ∨ a = 4) as Ha' by lia.
  assert (b = 0 ∨ b = 1 ∨ b = 2 ∨ b = 3 ∨ b = 4) as Hb' by lia.
  clear Ha Hb. unfold tinyBLAS_Q0_AVX.select.
  destruct (VECTOR_REGISTERS_cases tgt) as [HV|HV]; rewrite HV;
    destruct (tinyBLAS_Q0_AVX.fast tgt);
    destruct Ha' as [-> | [-> | [-> | [-> | ->]]]];
    destruct Hb' as [-> | [-> | [-> | [-> | ->]]]];
    simpl; intros Hsel; try discriminate Hsel;
    injection Hsel as <- <- <-; simpl; split_and!; (reflexivity || lia).
Qed.

Lemma X7_selected_tile_witness :
  kernel_dims (k_gemm4xN 2) = (4, 2) ∧ 1 ≤ 4 ≤ 4 ∧ 1 ≤ 2 ≤ 3 ∧
  2 * (4 * 2) ≤ VECTOR_REGISTERS exact.avx2 ∧
  (VECTOR_REGISTERS exact.avx2 = 32 → 4 = 4 ∧ 2 = 3).
Proof.
  apply (X7_selected_tile exact.avx2 4 3 4 2 (k_gemm4xN 2)).
  - lia.
  - lia.
  - reflexivity.
Defined.

(** * Further properties of the entry point *)

Lemma matmul_not_aborted {F TA TB : Type} {voc : vocabulary F TA TB}
    (KN VR nth : Z) (A : Z → TA) (B : Z → TB) (k lda ldb m n : Z) (sched : list nat) :
  0 ≤ m → 1 ≤ n < 2 ^ 63 → 0 < nth →
  tinyBLAS.matmul KN VR nth A B k lda ldb m n sched ≠ Aborted.
Proof.
  intros Hm Hn Hnth.
  destruct (decide (k `rem` KN = 0)) as [Hk|Hk];
    [destruct (decide (m `rem` 4 = 0)) as [H4|H4]|].
  - by destruct (matmul_serves KN VR nth A B k lda ldb m n Hm Hn Hnth Hk H4) as (_ & Ha & _).
  - by rewrite matmul_rejects by (try right; assumption).
  - by rewrite matmul_rejects by (try left; assumption).
Qed.

Lemma Q0_AVX_returns {F : Type} {fo : float_ops F} (tgt : target)
    {TA : Type} {blkA : block TA}
    (A : Z → TA) (B : Z → block_q8_0.t) (k lda ldb nth m n : Z) :
  0 ≤ m → 0 ≤ n → ∃ ws, Q0_AVX tgt A B k lda ldb nth m n = Returned true ws.
Proof.
  intros Hm Hn. unfold Q0_AVX.
  destruct (mapM _ _) as [wss|] eqn:E; [by eexists|].
  assert (is_Some (mapM (λ ith, tinyBLAS_Q0_AVX.matmul tgt A B k lda ldb ith nth m n)
                        (seqZ 0 nth))) as [wss Hwss]; [|congruence].
  apply mapM_is_Some, Forall_forall. intros ith _.
  exact (mnpack_returns tgt A B k lda ldb ith nth
           (tinyBLAS_Q0_AVX.mnpack_fuel 0 m 0 n) 0 m 0 n Hm Hn (le_n _)).
Qed.

Section entry_outcomes.
Context {F : Type} {fo : float_ops F} {vs : vocabularies F}.
Variables (tgt : target) (nth : Z) (sched : list nat) (m n k : Z) (A B : operand F).
Variables (lda ldb ldc : Z) (Atype Btype Ctype : ggml_type).

Local Abbreviation call :=
  (llamafile_sgemm tgt nth sched m n k A lda B ldb ldc Atype Btype Ctype).
Local Abbreviation asserted :=
  (0 ≤ m ∧ 0 ≤ n ∧ 0 ≤ k ∧ k ≤ lda ∧ k ≤ ldb ∧ m ≤ ldc ∧ 0 < nth).

Lemma sgemm_not_aborted : n < 2 ^ 63 → asserted → call ≠ Aborted.
Proof.
  intros Hn63 Hpre. unfold llamafile_sgemm.
  rewrite decide_True by exact Hpre.
  destruct Hpre as (Hm & Hn & _ & _ & _ & _ & Hnth).
  destruct (decide (n < 2)) as [?|Hn2]; [done|].
  destruct (decide (Ctype ≠ GGML_TYPE_F32)); [done|].
  assert (1 ≤ n < 2 ^ 63) by lia.
  destruct Atype; cbn beta iota zeta;
    repeat match goal with
    | |- Returned _ _ ≠ Aborted => done
    | |- tinyBLAS.matmul _ _ _ _ _ _ _ _ _ _ _ ≠ Aborted => by apply matmul_not_aborted
    | |- Q0_AVX _ _ _ _ _ _ _ _ _ ≠ Aborted =>
        let H := fresh in
        let ws := fresh in
        match goal with
        | |- Q0_AVX ?t ?a ?b ?k ?la ?lb ?nt ?m ?n ≠ Aborted =>
            destruct (Q0_AVX_returns t a b k la lb nt m n ltac:(lia) ltac:(lia)) as [ws H];
            rewrite H; done
        end
    | |- context [decide ?P] => destruct (decide P)
    | |- context [if ?b then _ else _] => destruct b eqn:?; cbn beta iota zeta
    end.
Qed.
End entry_outcomes.

(** X8.  The only assertions of a call of the entry point that can fail
    are the ones it makes on entry: the call fails an assertion exactly
    when [m], [n] or [k] is negative, a leading dimension is too small, or
    [nth] is not positive.  Behind them no assertion of the engines fires
    and no division by zero is reached. *)
Theorem X8_entry_assertions {F : Type} {fo : float_ops F} {vs : vocabularies F}
    (tgt : target) (nth : Z) (sched : list nat) (m n k : Z) (A B : operand F)
    (lda ldb ldc : Z) (Atype Btype Ctype : ggml_type) :
  n < 2 ^ 63 →
  llamafile_sgemm tgt nth sched m n k A lda B ldb ldc Atype Btype Ctype = Aborted
  ↔ ¬ (0 ≤ m ∧ 0 ≤ n ∧ 0 ≤ k ∧ k ≤ lda ∧ k ≤ ldb ∧ m ≤ ldc ∧ 0 < nth).
Proof.
  intros Hn63. split.
  - intros Ha Hpre. by apply (sgemm_not_aborted tgt nth sched m n k A B lda ldb ldc
                                Atype Btype Ctype Hn63 Hpre).
  - intros Hpre. unfold llamafile_sgemm. by rewrite decide_False.
Qed.

Lemma X8_entry_assertions_witness :
  llamafile_sgemm exact.avx2 2 [] 16 2 8 (exact.matrix 1) 8 (exact.matrix 3) 8 15
    GGML_TYPE_F32 GGML_TYPE_F32 GGML_TYPE_F32 = Aborted
  ↔ ¬ (0 ≤ 16 ∧ 0 ≤ 2 ∧ 0 ≤ 8 ∧ 8 ≤ 8 ∧ 8 ≤ 8 ∧ 16 ≤ 15 ∧ 0 < 2).
Proof.
  apply (X8_entry_assertions exact.avx2 2 [] 16 2 8 (exact.matrix 1) (exact.matrix 3) 8 8 15
           GGML_TYPE_F32 GGML_TYPE_F32 GGML_TYPE_F32).
  reflexivity.
Defined.

(** X9.  The quantised path takes every shape.  On a target with AVX, AVX2
    or AVX512F, a call with a q8_0, q4_0, q5_0 or iq4_nl matrix [A], a
    q8_0 matrix [B], an f32 output and at least two columns returns
    [true], whatever [m] and [k] are: unlike the floating point engine it
    has no divisibility requirement. *)
Theorem X9_quantised_accepts {F : Type} {fo : float_ops F} {vs : vocabularies F}
    (tgt : target) (nth : Z) (sched : list nat) (m n k : Z) (A B : operand F)
    (lda ldb ldc : Z) (Atype : ggml_type) :
  0 ≤ m → 2 ≤ n → 0 ≤ k → k ≤ lda → k ≤ ldb → m ≤ ldc → 0 < nth →
  __AVX2__ tgt || __AVX512F__ tgt || __AVX__ tgt = true →
  Atype ∈ [GGML_TYPE_Q8_0; GGML_TYPE_Q4_0; GGML_TYPE_Q5_0; GGML_TYPE_IQ4_NL] →
  ∃ ws, llamafile_sgemm tgt nth sched m n k A lda B ldb ldc
          Atype GGML_TYPE_Q8_0 GGML_TYPE_F32 = Returned true ws.
Proof.
  intros Hm Hn Hk Hlda Hldb Hldc Hnth Hq HA. unfold llamafile_sgemm.
  rewrite decide_True by (split_and!; lia).
  rewrite decide_False by lia.
  rewrite (decide_False (P := GGML_TYPE_F32 ≠ GGML_TYPE_F32)) by (by intros ?).
  cbv zeta. rewrite Hq.
  rewrite !elem_of_cons in HA.
  destruct HA as [-> | [-> | [-> | [-> | HA]]]]; [..|by apply elem_of_nil in HA];
    rewrite (decide_False (P := GGML_TYPE_Q8_0 ≠ GGML_TYPE_Q8_0)) by (by intros ?);
    apply Q0_AVX_returns; lia.
Qed.

Lemma X9_quantised_accepts_witness :
  ∃ ws, llamafile_sgemm exact.avx2 2 [] 5 3 2 (exact.matrix 1) 2 (exact.matrix 3) 2 5
          GGML_TYPE_Q5_0 GGML_TYPE_Q8_0 GGML_TYPE_F32 = Returned true ws.
Proof.
  apply (X9_quantised_accepts exact.avx2 2 [] 5 3 2 (exact.matrix 1) (exact.matrix 3) 2 2 5
           GGML_TYPE_Q5_0); try lia.
  - reflexivity.
  - vm_compute. repeat constructor.
Defined.

(** X10.  Without a vector extension nothing is computed.  On a target
    that has none of AVX, AVX2, AVX512F, AVX512BF16, VXE and VXE2 (an ARM
    machine, say: the NEON kernels are not compiled) every call that passes
    the entry assertions returns [false] without a store, for every
    combination of types. *)
Theorem X10_no_vector_extension {F : Type} {fo : float_ops F} {vs : vocabularies F}
    (tgt : target) (nth : Z) (sched : list nat) (m n k : Z) (A B : operand F)
    (lda ldb ldc : Z) (Atype Btype Ctype : ggml_type) :
  0 ≤ m → 0 ≤ n → 0 ≤ k → k ≤ lda → k ≤ ldb → m ≤ ldc → 0 < nth →
  __AVX__ tgt = false → __AVX2__ tgt = false → __AVX512F__ tgt = false →
  __AVX512BF16__ tgt = false → __VXE__ tgt = false → __VXE2__ tgt = false →
  llamafile_sgemm tgt nth sched m n k A lda B ldb ldc Atype Btype Ctype
    = Returned false [].
Proof.
  intros Hm Hn Hk Hlda Hldb Hldc Hnth H1 H2 H3 H4 H5 H6. unfold llamafile_sgemm.
  rewrite decide_True by (split_and!; lia).
  rewrite H1, H2, H3, H4, H5, H6. cbn [orb andb].
  repeat case_decide; try reflexivity; by destruct Atype.
Qed.

Lemma X10_no_vector_extension_witness :
  llamafile_sgemm
    (Target false false false false false false false false false true false false)
    2 [] 16 2 8 (exact.matrix 1) 8 (exact.matrix 3) 8 16
    GGML_TYPE_F32 GGML_TYPE_F32 GGML_TYPE_F32 = Returned false [].
Proof.
  apply (X10_no_vector_extension
           (Target false false false false false false false false false true false false)
           2 [] 16 2 8 (exact.matrix 1) (exact.matrix 3) 8 8 16
           GGML_TYPE_F32 GGML_TYPE_F32 GGML_TYPE_F32); (lia || reflexivity).
Defined.

(** * Further properties of the block decoders *)

Lemma length_le_bytes (n : nat) (x : Z) : length (le_bytes n x) = n.
Proof. revert x. induction n as [|n IH]; intros x; simpl; [done|]. by rewrite IH. Qed.

Lemma halves_q8_0 (b : block_q8_0.t) :
  (32 ≤ length (block_q8_0.qs b))%nat → load b = load0 b ++ load1 b.
Proof.
  destruct b as [dd p]. cbn [block_q8_0.qs]. intros Hlen.
  cbn [load load0 load1 load_q8_0 block_q8_0.qs].
  unfold _mm256_loadu_si256, _mm_loadu_si128.
  rewrite <-(take_drop 16 p) at 1. rewrite take_app_ge by (rewrite length_take; lia).
  rewrite length_take. replace (32 - 16 `min` length p)%nat with 16%nat by lia.
  reflexivity.
Qed.

Lemma halves_q4_0 (b : block_q4_0.t) :
  length (block_q4_0.qs b) = 16%nat → load b = load0 b ++ load1 b.
Proof.
  destruct b as [dd p]. cbn [block_q4_0.qs]. intros Hlen.
  do 16 (destruct p as [|? p]; [done|]). destruct p; [|done]. clear Hlen.
  cbn [load load0 load1 load_q4_0 block_q4_0.qs].
  unfold denibble, _mm256_sub_epi8, _mm_sub_epi8, _mm256_and_si256, _mm_and_si128,
    _mm256_insertf128_si256_1, _mm256_castsi128_si256, _mm_loadu_si128,
    _mm256_set1_epi8, _mm_set1_epi8.
  cbn [take app replicate _mm_srli_epi16 le_bytes zip_with]. reflexivity.
Qed.

Lemma halves_iq4_nl (b : block_iq4_nl.t) :
  length (block_iq4_nl.qs b) = 16%nat → load b = load0 b ++ load1 b.
Proof.
  destruct b as [dd p]. cbn [block_iq4_nl.qs]. intros Hlen.
  do 16 (destruct p as [|? p]; [done|]). destruct p; [|done]. clear Hlen.
  cbn [load load0 load1 load_iq4_nl block_iq4_nl.qs].
  unfold load0_iq4_nl, load1_iq4_nl, MM256_SET_M128I, _mm_shuffle_epi8, _mm_and_si128,
    _mm256_insertf128_si256_1, _mm256_castsi128_si256, _mm_loadu_si128, _mm_set1_epi8.
  cbn [block_iq4_nl.qs take app replicate _mm_srli_epi16 le_bytes zip_with fmap list_fmap].
  reflexivity.
Qed.

Lemma halves_q5_0 (b : block_q5_0.t) :
  length (block_q5_0.qs b) = 16%nat → load b = load0 b ++ load1 b.
Proof.
  destruct b as [dd qh p]. cbn [block_q5_0.qs]. intros Hlen.
  do 16 (destruct p as [|? p]; [done|]). destruct p; [|done]. clear Hlen.
  cbn [load load0 load1 load_q5_0 block_q5_0.qs block_q5_0.qh].
  unfold bittobyte. cbv zeta.
  unfold _mm256_set1_epi32, _mm_set1_epi32.
  pose proof (length_le_bytes 4 (memcpy_u32 qh)) as Hw.
  destruct (le_bytes 4 (memcpy_u32 qh)) as [|w0 [|w1 [|w2 [|w3 [|]]]]];
    try (simpl in Hw; discriminate Hw). clear Hw.
  set (sh := _mm256_shuffle_epi8 _ _). vm_compute in sh. subst sh.
  set (sh := _mm_shuffle_epi8 _ (_mm_set_epi64x 72340172838076673 0)).
  vm_compute in sh. subst sh.
  set (sh := _mm_shuffle_epi8 _ _). vm_compute in sh. subst sh.
  set (mask := _mm256_set1_epi64x 9205322385119247870). vm_compute in mask. subst mask.
  set (ones := _mm256_set1_epi64x (-1)). vm_compute in ones. subst ones.
  set (mask := _mm_set1_epi64x 9205322385119247870). vm_compute in mask. subst mask.
  set (ones := _mm_set1_epi64x (-1)). vm_compute in ones. subst ones.
  unfold denibble, _mm256_or_si256, _mm_or_si128, _mm256_andnot_si256, _mm_andnot_si128,
    _mm256_cmpeq_epi8, _mm_cmpeq_epi8, _mm256_and_si256, _mm_and_si128,
    _mm256_insertf128_si256_1, _mm256_castsi128_si256, _mm_loadu_si128,
    _mm256_set1_epi8, _mm_set1_epi8.
  cbn [take app replicate _mm_srli_epi16 le_bytes zip_with]. reflexivity.
Qed.

(** The lanes of a decoded q4_0 block, as bytes. *)
Lemma load_q4_0_spec (b : block_q4_0.t) :
  bytes 16 (block_q4_0.qs b) →
  load b = (λ i, (nibble (block_q4_0.qs b) i - 8) `mod` 256) <$> seqZ 0 32.
Proof.
  intros Hqs. cbn [load load_q4_0].
  rewrite denibble_spec by done. rewrite nibbles_spec by apply Hqs.
  unfold _mm256_sub_epi8, _mm256_set1_epi8. change (8 `mod` 256) with 8.
  rewrite zip_with_replicate_r_eq by (by rewrite length_fmap, length_seqZ).
  by rewrite <-list_fmap_compose.
Qed.

Lemma nibble_offset_signed (v : Z) : 0 ≤ v < 16 → sint 8 ((v - 8) `mod` 256) = v - 8.
Proof.
  intros Hv. unfold sint. change (2 ^ (8 - 1)) with 128. change (2 ^ 8) with 256.
  destruct (decide (8 ≤ v)).
  - rewrite Z.mod_small by lia. case_decide; lia.
  - replace ((v - 8) `mod` 256) with (v + 248)
      by (apply Z.mod_unique with (q := -1); lia).
    case_decide; lia.
Qed.

Lemma bytes_fmap_seqZ (f : Z → Z) (n : Z) :
  0 ≤ n → (∀ i, 0 ≤ f i < 256) → bytes (Z.to_nat n) (f <$> seqZ 0 n).
Proof.
  intros Hn Hf. split; [by rewrite length_fmap, length_seqZ|].
  apply Forall_fmap, Forall_forall. intros i _. apply Hf.
Qed.

Lemma fifth_bit_byte (v : Z) :
  0 ≤ v < 16 → 0 ≤ Z.lor v 240 < 256 ∧ 0 ≤ Z.lor v 0 < 256.
Proof.
  intros Hv. rewrite Z.lor_0_r. split; [|lia].
  set (P := λ v : Z, implb (v <? 16) ((0 <=? Z.lor v 240) && (Z.lor v 240 <? 256))).
  assert (forallb P (seqZ 0 256) = true) as H by (vm_compute; reflexivity).
  pose proof (forall_bytes P H v ltac:(lia)) as HP. unfold P in HP. clear H P.
  assert ((v <? 16) = true) as Hlt by (apply Z.ltb_lt; lia).
  rewrite Hlt in HP. simpl in HP.
  apply andb_true_iff in HP as [Ha Hb]. apply Z.leb_le in Ha. apply Z.ltb_lt in Hb. lia.
Qed.

Lemma shuffle_bytes (a c : list Z) :
  Forall (λ x, 0 ≤ x < 256) a → Forall (λ x, 0 ≤ x < 256) (_mm_shuffle_epi8 a c).
Proof.
  intros Ha. unfold _mm_shuffle_epi8. apply Forall_fmap, Forall_forall. intros ci _.
  simpl. case_decide; [|lia].
  match goal with |- context [default 0 ?t] => destruct t as [x|] eqn:E end; simpl; [|lia].
  by apply (Forall_lookup_1 _ _ _ _ Ha E).
Qed.

Lemma iq4nlt_bytes : Forall (λ x, 0 ≤ x < 256) iq4nlt.
Proof. unfold iq4nlt. apply Forall_fmap, Forall_forall. intros v _. simpl. apply Z.mod_pos_bound. lia. Qed.

Lemma decodes_q8_0 (b : block_q8_0.t) : bytes 32 (block_q8_0.qs b) → decodes b.
Proof.
  intros [Hlen Hb]. split_and!.
  - cbn [load load_q8_0]. unfold _mm256_loadu_si256.
    rewrite take_ge by lia. by split.
  - apply halves_q8_0. lia.
  - cbn [load0 load_q8_0]. unfold _mm_loadu_si128. rewrite length_take. lia.
Qed.

Lemma decodes_q4_0 (b : block_q4_0.t) : bytes 16 (block_q4_0.qs b) → decodes b.
Proof.
  intros Hqs. split_and!.
  - rewrite load_q4_0_spec by done.
    apply (bytes_fmap_seqZ _ 32); [lia|]. intros i. apply Z.mod_pos_bound. lia.
  - apply halves_q4_0, Hqs.
  - destruct Hqs as [Hlen _]. cbn [load0 load_q4_0].
    unfold _mm_sub_epi8, _mm_and_si128, _mm_loadu_si128, _mm_set1_epi8.
    rewrite !length_zip_with, !length_replicate, length_take. lia.
Qed.

Lemma decodes_q5_0 (b : block_q5_0.t) :
  bytes 16 (block_q5_0.qs b) → bytes 4 (block_q5_0.qh b) → decodes b.
Proof.
  intros Hqs Hqh. split_and!.
  - rewrite load_q5_0_spec by done.
    apply (bytes_fmap_seqZ _ 32); [lia|]. intros i.
    destruct (fifth_bit_byte (nibble (block_q5_0.qs b) i)) as [H1 H0];
      [apply nibble_range, Hqs|].
    by destruct (Z.testbit _ i).
  - apply halves_q5_0, Hqs.
  - destruct Hqs as [Hlen _]. destruct b as [dd qh p]. cbn [block_q5_0.qs] in Hlen.
    do 16 (destruct p as [|? p]; [done|]). destruct p; [|done]. reflexivity.
Qed.

Lemma decodes_iq4_nl (b : block_iq4_nl.t) : bytes 16 (block_iq4_nl.qs b) → decodes b.
Proof.
  intros [Hlen Hb].
  assert (length (load0 b) = 16%nat) as H0.
  { cbn [load0 load_iq4_nl]. unfold load0_iq4_nl, _mm_shuffle_epi8, _mm_and_si128,
      _mm_loadu_si128, _mm_set1_epi8.
    rewrite length_fmap, length_zip_with, length_replicate, length_take. lia. }
  assert (length (load1 b) = 16%nat) as H1.
  { cbn [load1 load_iq4_nl]. unfold load1_iq4_nl, _mm_shuffle_epi8, _mm_and_si128,
      _mm_loadu_si128, _mm_set1_epi8.
    rewrite take_ge by lia.
    destruct b as [dd p]. cbn [block_iq4_nl.qs] in *.
    do 16 (destruct p as [|? p]; [done|]). by destruct p. }
  split_and!; [|by apply halves_iq4_nl|done].
  rewrite halves_iq4_nl by done. split; [rewrite length_app; lia|].
  apply Forall_app. split; apply shuffle_bytes, iq4nlt_bytes.
Qed.

(** X11.  The decoders agree with their halves.  For a block of each of
    the four types whose payload has the size of its layout, [load]
    returns 32 byte lanes, the first sixteen of which are [load0] and the
    last sixteen [load1]: the kernels compiled for AVX read the lanes the
    AVX2 kernels read. *)
Theorem X11_decoded_blocks (b8 : block_q8_0.t) (b4 : block_q4_0.t)
    (b5 : block_q5_0.t) (bn : block_iq4_nl.t) :
  bytes 32 (block_q8_0.qs b8) → bytes 16 (block_q4_0.qs b4) →
  bytes 16 (block_q5_0.qs b5) → bytes 4 (block_q5_0.qh b5) →
  bytes 16 (block_iq4_nl.qs bn) →
  decodes b8 ∧ decodes b4 ∧ decodes b5 ∧ decodes bn ∧ load b8 = block_q8_0.qs b8.
Proof.
  intros H8 H4 H5 H5h Hn. split_and!.
  - by apply decodes_q8_0.
  - by apply decodes_q4_0.
  - by apply decodes_q5_0.
  - by apply decodes_iq4_nl.
  - cbn [load load_q8_0]. unfold _mm256_loadu_si256. apply take_ge. destruct H8. lia.
Qed.

Lemma X11_decoded_blocks_witness :
  decodes (as_q8_0 (exact.matrix 77) 3) ∧ decodes (as_q4_0 (exact.matrix 77) 3) ∧
  decodes exact.q5_0_block ∧ decodes exact.iq4_nl_block ∧
  load (as_q8_0 (exact.matrix 77) 3) = block_q8_0.qs (as_q8_0 (exact.matrix 77) 3).
Proof.
  apply (X11_decoded_blocks (as_q8_0 (exact.matrix 77) 3) (as_q4_0 (exact.matrix 77) 3)
           exact.q5_0_block exact.iq4_nl_block);
    (split; [reflexivity|]; vm_compute; repeat constructor; discriminate).
Defined.

(** X12.  The lanes of a decoded q4_0 block.  Read as a signed byte, lane
    [i] of [load(block_q4_0)] is the [i]-th nibble of the payload minus 8,
    low nibbles in lanes 0 to 15 and high nibbles in lanes 16 to 31. *)
Theorem X12_load_q4_0_lanes (b : block_q4_0.t) :
  bytes 16 (block_q4_0.qs b) →
  sint 8 <$> load b = (λ i, nibble (block_q4_0.qs b) i - 8) <$> seqZ 0 32.
Proof.
  intros Hqs. rewrite load_q4_0_spec by done.
  rewrite <-list_fmap_compose. apply list_fmap_ext. intros _ i _. simpl.
  apply nibble_offset_signed, nibble_range, Hqs.
Qed.

Lemma X12_load_q4_0_lanes_witness :
  sint 8 <$> load (as_q4_0 (exact.matrix 77) 3)
  = (λ i, nibble (block_q4_0.qs (as_q4_0 (exact.matrix 77) 3)) i - 8) <$> seqZ 0 32.
Proof.
  apply (X12_load_q4_0_lanes (as_q4_0 (exact.matrix 77) 3)).
  split; [reflexivity|]. vm_compute. repeat constructor; discriminate.
Defined.

(** * Further properties of the block dot product *)

Lemma sign_fold_lane (a b : Z) :
  0 ≤ a < 256 → 0 ≤ b < 256 →
  sign_byte a a * sint 8 (sign_byte b a)
  = if decide (sint 8 a < 0 ∧ sint 8 b = -128) then - (sint 8 a * sint 8 b)
    else sint 8 a * sint 8 b.
Proof.
  intros Ha Hb.
  set (P := λ a b : Z,
    sign_byte a a * sint 8 (sign_byte b a)
    =? (if decide (sint 8 a < 0 ∧ sint 8 b = -128) then - (sint 8 a * sint 8 b)
        else sint 8 a * sint 8 b)).
  assert (forallb (λ x, forallb (P x) (seqZ 0 256)) (seqZ 0 256) = true) as H
    by (vm_compute; reflexivity).
  pose proof (forall_bytes2 P H a b Ha Hb) as HP. unfold P in HP. clear H P.
  apply Z.eqb_eq in HP. exact HP.
Qed.

(** X13.  The sign fold.  The kernels multiply [sign_epi8(a, a)], read
    unsigned, by [sign_epi8(b, a)], read signed.  Lane by lane that is the
    product of the signed bytes [a] and [b], except when [a] is negative
    and [b] is -128: negating -128 wraps around, and the product comes
    out with the opposite sign. *)
Theorem X13_sign_fold_product (a b : Z) :
  0 ≤ a < 256 → 0 ≤ b < 256 →
  sign_byte a a * sint 8 (sign_byte b a)
  = if decide (sint 8 a < 0 ∧ sint 8 b = -128) then - (sint 8 a * sint 8 b)
    else sint 8 a * sint 8 b.
Proof. apply sign_fold_lane. Qed.

Lemma X13_sign_fold_product_witness :
  sign_byte 255 255 * sint 8 (sign_byte 128 255)
  = if decide (sint 8 255 < 0 ∧ sint 8 128 = -128) then - (sint 8 255 * sint 8 128)
    else sint 8 255 * sint 8 128.
Proof. apply (X13_sign_fold_product 255 128); lia. Defined.

Lemma le_word_le_bytes (n : nat) (x : Z) : le_word (le_bytes n x) = x `mod` 256 ^ Z.of_nat n.
Proof.
  revert x. induction n as [|n IH]; intros x.
  { simpl. by rewrite Z.mod_1_r. }
  cbn [le_bytes le_word]. rewrite IH.
  replace (256 ^ Z.of_nat (S n)) with (256 * 256 ^ Z.of_nat n)
    by (rewrite Nat2Z.inj_succ, Z.pow_succ_r by lia; reflexivity).
  rewrite Z.rem_mul_r by (try apply Z.pow_pos_nonneg; lia). reflexivity.
Qed.

Lemma sint32_le_bytes (x : Z) :
  -2147483648 ≤ x < 2147483648 → sint 32 (le_word (le_bytes 4 x)) = x.
Proof.
  intros Hx. rewrite le_word_le_bytes. change (256 ^ Z.of_nat 4) with 4294967296.
  unfold sint. change (2 ^ (32 - 1)) with 2147483648. change (2 ^ 32) with 4294967296.
  destruct (decide (0 ≤ x)).
  - rewrite Z.mod_small by lia. case_decide; lia.
  - replace (x `mod` 4294967296) with (x + 4294967296)
      by (apply Z.mod_unique with (q := -1); lia).
    case_decide; lia.
Qed.

Section dot_products.
Context {F : Type} {fo : float_ops F}.

Lemma cvt_dpbusd (n : nat) (a b : list Z) :
  length a = (4 * n)%nat → length b = (4 * n)%nat →
  Forall (λ x, 0 ≤ x < 256) a → Forall (λ x, 0 ≤ x < 256) b →
  Forall (λ y, sint 8 y ≠ -128) b →
  _mm256_cvtepi32_ps
    (_mm256_dpbusd_epi32 (replicate (4 * n) 0)
       (zip_with sign_byte a a) (zip_with sign_byte b a))
  = i32_to_f32 <$> dot_groups a b.
Proof.
  revert a b. induction n as [|n IH]; intros a b Hla Hlb Ha Hb Hb'.
  { destruct a; [|done]. by destruct b. }
  replace (4 * S n)%nat with (S (S (S (S (4 * n))))) in * by lia.
  destruct a as [|a0 [|a1 [|a2 [|a3 a]]]]; try done.
  destruct b as [|b0 [|b1 [|b2 [|b3 b]]]]; try done.
  repeat (apply Forall_cons in Ha as [? Ha]).
  repeat (apply Forall_cons in Hb as [? Hb]).
  repeat (apply Forall_cons in Hb' as [? Hb']).
  cbn [replicate zip_with _mm256_dpbusd_epi32 dot_groups fmap list_fmap].
  change (le_word [0; 0; 0; 0]) with 0.
  rewrite !sign_fold_lane by assumption.
  rewrite !(decide_False (P := _ ∧ _)) by (intros [_ ?]; contradiction).
  pose proof (sint8_range a0 ltac:(done)). pose proof (sint8_range a1 ltac:(done)).
  pose proof (sint8_range a2 ltac:(done)). pose proof (sint8_range a3 ltac:(done)).
  pose proof (sint8_range b0 ltac:(done)). pose proof (sint8_range b1 ltac:(done)).
  pose proof (sint8_range b2 ltac:(done)). pose proof (sint8_range b3 ltac:(done)).
  set (v := 0 + sint 8 a0 * sint 8 b0 + sint 8 a1 * sint 8 b1
            + sint 8 a2 * sint 8 b2 + sint 8 a3 * sint 8 b3).
  assert (-2147483648 ≤ v < 2147483648) as Hv by (subst v; nia).
  pose proof (sint32_le_bytes v Hv) as Hcv.
  cbn [le_bytes] in Hcv |- *. cbn [app _mm256_cvtepi32_ps]. rewrite Hcv.
  replace v with (sint 8 a0 * sint 8 b0 + sint 8 a1 * sint 8 b1
                  + sint 8 a2 * sint 8 b2 + sint 8 a3 * sint 8 b3) by (subst v; lia).
  rewrite IH; [reflexivity|simpl in *; lia|simpl in *; lia|assumption..].
Qed.

Lemma updot_sign_fold (tgt : target) (a b : __m256i) :
  bytes 32 a → bytes 32 b → Forall (λ y, sint 8 y ≠ -128) b →
  tinyBLAS_Q0_AVX.updot tgt (_mm256_sign_epi8 a a) (_mm256_sign_epi8 b a)
  = i32_to_f32 <$> dot_groups a b.
Proof.
  intros [Hla Ha] [Hlb Hb] Hb'.
  rewrite (updot_tiers tgt
             (Target true true false false true true false true true false false false))
    by (by apply sign_fold_no_saturation).
  unfold tinyBLAS_Q0_AVX.updot. cbn [__AVX512VNNI__ __AVX512VL__ andb].
  by apply (cvt_dpbusd 8).
Qed.
End dot_products.

(** X14.  What [updot] computes on sign-folded operands.  For two
    registers of 32 bytes [a] and [b], with no lane of [b] equal to -128,
    every tier of [updot(sign_epi8(a, a), sign_epi8(b, a))] returns in lane
    [j] the converted sum of the four products of signed bytes
    [a[4j + t] * b[4j + t]]. *)
Theorem X14_updot_dot_products {F : Type} {fo : float_ops F}
    (tgt : target) (a b : __m256i) :
  bytes 32 a → bytes 32 b → Forall (λ y, sint 8 y ≠ -128) b →
  tinyBLAS_Q0_AVX.updot tgt (_mm256_sign_epi8 a a) (_mm256_sign_epi8 b a)
  = i32_to_f32 <$> dot_groups a b.
Proof. apply updot_sign_fold. Qed.

Lemma X14_updot_dot_products_witness :
  tinyBLAS_Q0_AVX.updot exact.avx2
    (_mm256_sign_epi8 exact.s_lanes exact.s_lanes)
    (_mm256_sign_epi8 exact.u_lanes exact.s_lanes)
  = i32_to_f32 <$> dot_groups exact.s_lanes exact.u_lanes.
Proof.
  apply (X14_updot_dot_products exact.avx2 exact.s_lanes exact.u_lanes).
  - split; [reflexivity|]. vm_compute. repeat constructor; discriminate.
  - split; [reflexivity|]. vm_compute. repeat constructor; discriminate.
  - vm_compute. repeat constructor; discriminate.
Defined.

Section block_products.
Context {F : Type} {fo : float_ops F}.

(** The two 128-bit halves of the AVX path together are the 256-bit
    multiply-add pair of the AVX2 path. *)
Lemma split_dot (a0 a1 b0 b1 : list Z) :
  length a0 = 16%nat → length a1 = 16%nat → length b0 = 16%nat → length b1 = 16%nat →
  _mm256_cvtepi32_ps
    (MM256_SET_M128I
       (_mm_madd_epi16 (_mm_set1_epi16 1)
          (_mm_maddubs_epi16 (_mm_sign_epi8 a1 a1) (_mm_sign_epi8 b1 a1)))
       (_mm_madd_epi16 (_mm_set1_epi16 1)
          (_mm_maddubs_epi16 (_mm_sign_epi8 a0 a0) (_mm_sign_epi8 b0 a0))))
  = _mm256_cvtepi32_ps
      (_mm256_madd_epi16 (_mm256_set1_epi16 1)
         (_mm256_maddubs_epi16 (_mm256_sign_epi8 (a0 ++ a1) (a0 ++ a1))
                               (_mm256_sign_epi8 (b0 ++ b1) (a0 ++ a1)))).
Proof.
  intros Ha0 Ha1 Hb0 Hb1.
  do 16 (destruct a0 as [|? a0]; [done|]). destruct a0; [|done].
  do 16 (destruct a1 as [|? a1]; [done|]). destruct a1; [|done].
  do 16 (destruct b0 as [|? b0]; [done|]). destruct b0; [|done].
  do 16 (destruct b1 as [|? b1]; [done|]). destruct b1; [|done].
  clear. unfold MM256_SET_M128I, _mm256_insertf128_si256_1, _mm256_castsi128_si256,
    _mm256_madd_epi16, _mm256_maddubs_epi16, _mm256_sign_epi8, _mm_sign_epi8,
    _mm256_set1_epi16, _mm_set1_epi16.
  cbn [app zip_with _mm_maddubs_epi16 _mm_madd_epi16 le_bytes take replicate
       mjoin list_join]. reflexivity.
Qed.

Context {TA TB : Type} {blkA : block TA} {blkB : block TB}.
Variables (A : Z → TA) (B : Z → TB).

Lemma decodes_length1 {T : Type} {blk : block T} (b : T) :
  decodes b → length (load1 b) = 16%nat.
Proof.
  intros ([Hlen _] & Hh & H0). rewrite Hh, length_app in Hlen. lia.
Qed.

Lemma udTmp_fallback (tgt : target) (a b : Z) :
  decodes (A a) → decodes (B b) →
  tinyBLAS_Q0_AVX.udTmp tgt A B a b
  = tinyBLAS_Q0_AVX.updot
      (Target true true false false false false false true true false false false)
      (_mm256_sign_epi8 (load (A a)) (load (A a)))
      (_mm256_sign_epi8 (load (B b)) (load (A a))).
Proof.
  intros HA HB. unfold tinyBLAS_Q0_AVX.udTmp.
  destruct (__AVX2__ tgt).
  - apply updot_tiers. destruct HA as ([_ Ha] & _), HB as ([_ Hb] & _).
    by apply sign_fold_no_saturation.
  - cbv zeta. unfold tinyBLAS_Q0_AVX.updot. cbn [__AVX512VNNI__ __AVXVNNI__ andb].
    pose proof (decodes_length1 _ HA). pose proof (decodes_length1 _ HB).
    destruct HA as (_ & -> & ?), HB as (_ & -> & ?).
    by apply split_dot.
Qed.
End block_products.

(** X15.  The block dot product is the same on every target.  For blocks
    that decode, the product [udTmp] of [gemm] is the same register
    whether it is compiled for AVX (two 128-bit halves through [load0] and
    [load1]), for AVX2, or with either VNNI extension; when no lane of
    the block of [B] is -128 its lanes are the converted sums of four
    products of signed lanes. *)
Theorem X15_block_product_portable {F : Type} {fo : float_ops F}
    {TA TB : Type} {blkA : block TA} {blkB : block TB}
    (A : Z → TA) (B : Z → TB) (tgt1 tgt2 : target) (a b : Z) :
  decodes (A a) → decodes (B b) →
  tinyBLAS_Q0_AVX.udTmp tgt1 A B a b = tinyBLAS_Q0_AVX.udTmp tgt2 A B a b ∧
  (Forall (λ y, sint 8 y ≠ -128) (load (B b)) →
   tinyBLAS_Q0_AVX.udTmp tgt1 A B a b
   = i32_to_f32 <$> dot_groups (load (A a)) (load (B b))).
Proof.
  intros HA HB. split.
  - by rewrite (udTmp_fallback A B tgt1), (udTmp_fallback A B tgt2).
  - intros Hb. rewrite (udTmp_fallback A B tgt1) by done.
    destruct HA as (Ha & _), HB as (Hb0 & _). by apply updot_sign_fold.
Qed.

Lemma X15_block_product_portable_witness :
  tinyBLAS_Q0_AVX.udTmp
    (Target true false false false false false false false false false false false)
    (as_q5_0 (exact.matrix 77)) (exact.unit_blocks 3) 3 5
  = tinyBLAS_Q0_AVX.udTmp exact.avxvnni
      (as_q5_0 (exact.matrix 77)) (exact.unit_blocks 3) 3 5 ∧
  (Forall (λ y, sint 8 y ≠ -128) (load (exact.unit_blocks 3 5)) →
   tinyBLAS_Q0_AVX.udTmp
     (Target true false false false false false false false false false false false)
     (as_q5_0 (exact.matrix 77)) (exact.unit_blocks 3) 3 5
   = i32_to_f32 <$> dot_groups (load (as_q5_0 (exact.matrix 77) 3))
                               (load (exact.unit_blocks 3 5))).
Proof.
  apply (X15_block_product_portable (as_q5_0 (exact.matrix 77)) (exact.unit_blocks 3)
           (Target true false false false false false false false false false false false)
           exact.avxvnni 3 5).
  - split_and!; [split; [reflexivity|]; vm_compute; repeat constructor; discriminate
                |vm_compute; reflexivity|reflexivity].
  - split_and!; [split; [reflexivity|]; vm_compute; repeat constructor; discriminate
                |vm_compute; reflexivity|reflexivity].
Defined.

Lemma hsum256_lanes {F : Type} {fo : float_ops F} (x0 x1 x2 x3 x4 x5 x6 x7 : F) :
  hsum256 [x0; x1; x2; x3; x4; x5; x6; x7]
  = fadd (fadd (fadd x4 x0) (fadd x6 x2)) (fadd (fadd x5 x1) (fadd x7 x3)).
Proof. reflexivity. Qed.

(** X16.  The order of the horizontal sum.  [hsum] of a 256-bit register
    adds every lane once: first the upper half onto the lower, then lanes
    two apart, then the remaining pair. *)
Theorem X16_hsum256_order {F : Type} {fo : float_ops F} (x0 x1 x2 x3 x4 x5 x6 x7 : F) :
  hsum256 [x0; x1; x2; x3; x4; x5; x6; x7]
  = fadd (fadd (fadd x4 x0) (fadd x6 x2)) (fadd (fadd x5 x1) (fadd x7 x3)).
Proof. apply hsum256_lanes. Qed.

(** * What the quantised engine stores *)

(** The fast kernels are selected only where they are compiled. *)
Lemma select_fast (tgt : target) (a b mc nc : Z) (kn : tile_kernel) :
  0 ≤ a ≤ 4 → 0 ≤ b ≤ 4 →
  tinyBLAS_Q0_AVX.select tgt (Z.lor (Z.shiftl a 4) b) = Some (mc, nc, kn) →
  match kn with k_gemm _ _ => True | _ => tinyBLAS_Q0_AVX.fast tgt = true end.
Proof.
  intros Ha Hb.
  assert (a = 0 ∨ a = 1 ∨ a = 2 ∨ a = 3 ∨ a = 4) as Ha' by lia.
  assert (b = 0 ∨ b = 1 ∨ b = 2 ∨ b = 3 ∨ b = 4) as Hb' by lia.
  clear Ha Hb. unfold tinyBLAS_Q0_AVX.select.
  destruct (decide (VECTOR_REGISTERS tgt = 32));
    destruct (tinyBLAS_Q0_AVX.fast tgt);
    destruct Ha' as [-> | [-> | [-> | [-> | ->]]]];
    destruct Hb' as [-> | [-> | [-> | [-> | ->]]]];
    simpl; intros Hsel; try discriminate Hsel;
    injection Hsel as <- <- <-; done.
Qed.

Section quant_values.
Context {F : Type} {fo : float_ops F} (tgt : target).
Context {TA TB : Type} {blkA : block TA} {blkB : block TB}.
Variables (A : Z → TA) (B : Z → TB) (k lda ldb : Z).

Hypothesis Hfast :
  tinyBLAS_Q0_AVX.fast tgt = true →
  (∀ h, 0 ≤ h < 65536 → cvtph h = GGML_FP16_TO_FP32 h) ∧
  (∀ off, 0 ≤ d (A off) < 65536) ∧ (∀ off, 0 ≤ d (B off) < 65536).

Local Abbreviation cv := (tinyBLAS_Q0_AVX.cell_value tgt A B k lda ldb).
Local Abbreviation run_kernel := (tinyBLAS_Q0_AVX.run_kernel tgt A B k lda ldb).
Local Abbreviation mnpack := (tinyBLAS_Q0_AVX.mnpack tgt A B k lda ldb).

Lemma gemm_values (ith nth RM RN m0 m n0 n : Z) :
  tinyBLAS_Q0_AVX.gemm tgt A B k lda ldb ith nth RM RN m0 m n0 n
  = tinyBLAS_Q0_AVX.jobs ith nth ((n - n0) `quot` RN * ((m - m0) `quot` RM))
      ≫= (λ job,
            values cv
              (cells (m0 + job `quot` ((n - n0) `quot` RN) * RM)
                     (m0 + job `quot` ((n - n0) `quot` RN) * RM + RM)
                     (n0 + job `rem` ((n - n0) `quot` RN) * RN)
                     (n0 + job `rem` ((n - n0) `quot` RN) * RN + RN))).
Proof.
  unfold tinyBLAS_Q0_AVX.gemm. cbv zeta.
  apply list_bind_ext; [|done]. intros job.
  rewrite cells_shift, values_bind.
  apply bind_ext_in. intros j Hj. rewrite values_bind.
  apply bind_ext_in. intros i Hi. simpl. do 2 f_equal.
  unfold tinyBLAS_Q0_AVX.cell_value. f_equal.
  set (ii := m0 + job `quot` ((n - n0) `quot` RN) * RM).
  set (jj := n0 + job `rem` ((n - n0) `quot` RN) * RN).
  match goal with
  | |- foldl ?s ?c ?ls j i = _ =>
      exact (fold_steps s
        (λ j i l acc,
           madd256 tgt
             (_mm256_set1_ps (fmul (unhalf (d (A (lda * (ii + i) + l))))
                                   (unhalf (d (B (ldb * (jj + j) + l))))))
             (tinyBLAS_Q0_AVX.udTmp tgt A B (lda * (ii + i) + l) (ldb * (jj + j) + l))
             acc)
        (seqZ 0 RN) (seqZ 0 RM) ls c j i
        (λ Cv l j i Hj Hi, gemm_step tgt A B lda ldb RM RN ii jj Cv l j i Hj Hi) Hj Hi)
  end.
Qed.

Lemma kernel_gemm (kn : tile_kernel) (ith nth m0 m n0 n : Z) :
  match kn with k_gemm _ _ => True | _ => tinyBLAS_Q0_AVX.fast tgt = true end →
  run_kernel ith nth kn m0 m n0 n
  = tinyBLAS_Q0_AVX.gemm tgt A B k lda ldb ith nth
      (kernel_dims kn).1 (kernel_dims kn).2 m0 m n0 n.
Proof.
  destruct kn as [RM RN|RN|RM]; simpl; [done|..]; intros Hf;
    destruct (Hfast Hf) as (Hcvt & HdA & HdB);
    unfold tinyBLAS_Q0_AVX.fast in Hf; apply andb_true_iff in Hf as [Havx2 _].
  - by apply gemm4xN_gemm.
  - by apply gemmMx4_gemm.
Qed.

Lemma kernel_values (kn : tile_kernel) (m0 m n0 n : Z) :
  match kn with k_gemm _ _ => True | _ => tinyBLAS_Q0_AVX.fast tgt = true end →
  m0 ≤ m → n0 ≤ n → 1 ≤ (kernel_dims kn).1 → 1 ≤ (kernel_dims kn).2 →
  run_kernel 0 1 kn m0 m n0 n
  ≡ₚ values cv
       (cells m0 (m0 + (m - m0) `quot` (kernel_dims kn).1 * (kernel_dims kn).1)
              n0 (n0 + (n - n0) `quot` (kernel_dims kn).2 * (kernel_dims kn).2)).
Proof.
  intros Hkn Hm Hn H1 H2. rewrite kernel_gemm by done.
  set (RM := (kernel_dims kn).1) in *. set (RN := (kernel_dims kn).2) in *.
  rewrite gemm_values.
  rewrite jobs_single by (apply Z.mul_nonneg_nonneg; apply Z.quot_pos; lia).
  rewrite <-values_bind.
  rewrite tiled_region by (try apply Z.quot_pos; lia).
  match goal with |- values _ ?a ≡ₚ values _ ?b => assert (a = b) as ->; [|done] end.
  f_equal; lia.
Qed.

Lemma mnpack_values (fuel : nat) (m0 m n0 n : Z) (ws : list (write F)) :
  m0 ≤ m → n0 ≤ n →
  mnpack 0 1 fuel m0 m n0 n = Some ws → ws ≡ₚ values cv (cells m0 m n0 n).
Proof.
  revert m0 m n0 n ws. induction fuel as [|fuel IH]; intros m0 m n0 n ws Hm Hn; [done|].
  rewrite mnpack_S.
  destruct (tinyBLAS_Q0_AVX.select _ _) as [[[mc nc] kn]|] eqn:Hsel.
  - pose proof Hsel as Hsel'. rewrite !MIN_min in Hsel'.
    pose proof (select_fast tgt (Z.min (m - m0) 4) (Z.min (n - n0) 4) mc nc kn
                  ltac:(lia) ltac:(lia) Hsel') as Hkn.
    destruct (decide (m - m0 = 0 ∨ n - n0 = 0)) as [H0|H1].
    { rewrite select_default in Hsel'; [done|lia..]. }
    destruct (select_spec tgt (Z.min (m - m0) 4) (Z.min (n - n0) 4))
      as (mc' & nc' & kn' & Hs & Hdims & Hmc & Hnc); [lia..|].
    rewrite Hsel' in Hs. injection Hs as <- <- <-.
    destruct (quot_tile (m - m0) mc ltac:(lia)) as [Hmp _].
    destruct (quot_tile (n - n0) nc ltac:(lia)) as [Hnp _].
    set (mp := m0 + (m - m0) `quot` mc * mc) in *.
    set (np := n0 + (n - n0) `quot` nc * nc) in *.
    destruct (mnpack 0 1 fuel mp m n0 np) as [ws1|] eqn:E1; [|done].
    destruct (mnpack 0 1 fuel m0 m np n) as [ws2|] eqn:E2; [|done].
    simpl. intros [= <-].
    rewrite (IH mp m n0 np ws1 ltac:(lia) ltac:(lia) E1),
      (IH m0 m np n ws2 ltac:(lia) ltac:(lia) E2).
    rewrite kernel_values by (rewrite ?Hdims; simpl; (done || lia)).
    rewrite Hdims. simpl. fold mp np.
    rewrite <-!values_app. apply values_perm.
    rewrite (cells_app_cols m0 m n0 np n) by lia.
    rewrite (cells_perm_rows m0 mp m n0 np) by lia.
    by rewrite <-app_assoc.
  - intros [= <-].
    assert (m - m0 = 0 ∨ n - n0 = 0) as H0.
    { destruct (decide (m - m0 = 0 ∨ n - n0 = 0)) as [|H1]; [done|].
      destruct (select_spec tgt (Z.min (m - m0) 4) (Z.min (n - n0) 4))
        as (mc' & nc' & kn' & Hs & _); [lia..|].
      rewrite !MIN_min in Hsel. congruence. }
    destruct H0; [rewrite cells_no_rows|rewrite cells_no_cols]; done || lia.
Qed.

End quant_values.

Lemma Q0_AVX_values {F : Type} {fo : float_ops F} (tgt : target)
    {TA : Type} {blkA : block TA}
    (A : Z → TA) (B : Z → block_q8_0.t) (k lda ldb nth m n : Z) (ws : list (write F)) :
  (tinyBLAS_Q0_AVX.fast tgt = true →
   (∀ h, 0 ≤ h < 65536 → cvtph h = GGML_FP16_TO_FP32 h) ∧
   (∀ off, 0 ≤ d (A off) < 65536) ∧ (∀ off, 0 ≤ d (B off) < 65536)) →
  0 ≤ m → 0 ≤ n → 0 < nth →
  Q0_AVX tgt A B k lda ldb nth m n = Returned true ws →
  ws ≡ₚ values (tinyBLAS_Q0_AVX.cell_value tgt A B k lda ldb) (grid m n).
Proof.
  intros Hfast Hm Hn Hnth Hr.
  destruct (mnpack_region tgt A B k lda ldb (tinyBLAS_Q0_AVX.mnpack_fuel 0 m 0 n) 0 m 0 n)
    as (ref & Href & _ & Hpool); [lia..|].
  destruct (Hpool nth Hnth) as (g & Hg & Hperm).
  unfold Q0_AVX, tinyBLAS_Q0_AVX.matmul in Hr.
  rewrite (mapM_total _ g) in Hr by exact Hg. injection Hr as <-.
  rewrite join_fmap, Hperm.
  by apply (mnpack_values tgt A B k lda ldb Hfast
              (tinyBLAS_Q0_AVX.mnpack_fuel 0 m 0 n) 0 m 0 n ref).
Qed.

(** X17.  What the quantised engine stores.  A call of the quantised
    engine by all [nth] workers returns [true] having stored, for every
    cell [(i, j)] of the grid and only once, the horizontal sum of the
    accumulator built over [l = 0 .. k-1] from the scaled dot products of
    block [l] of row [i] of [A] and block [l] of row [j] of [B], whichever
    tiles and kernels the region split chose.  Where the fast kernels are
    compiled, the conversions of a half precision delta must agree. *)
Theorem X17_quantised_values {F : Type} {fo : float_ops F} (tgt : target)
    {TA : Type} {blkA : block TA}
    (A : Z → TA) (B : Z → block_q8_0.t) (k lda ldb nth m n : Z) :
  0 ≤ m → 0 ≤ n → 0 < nth →
  (tinyBLAS_Q0_AVX.fast tgt = true →
   (∀ h, 0 ≤ h < 65536 → cvtph h = GGML_FP16_TO_FP32 h) ∧
   (∀ off, 0 ≤ d (A off) < 65536) ∧ (∀ off, 0 ≤ d (B off) < 65536)) →
  ∃ ws, Q0_AVX tgt A B k lda ldb nth m n = Returned true ws ∧
        ws ≡ₚ values (tinyBLAS_Q0_AVX.cell_value tgt A B k lda ldb) (grid m n).
Proof.
  intros Hm Hn Hnth Hfast.
  destruct (Q0_AVX_returns tgt A B k lda ldb nth m n Hm Hn) as [ws Hws].
  exists ws. split; [done|].
  by apply (Q0_AVX_values tgt A B k lda ldb nth m n ws).
Qed.

Lemma X17_quantised_values_witness :
  ∃ ws, Q0_AVX exact.avx2 (exact.unit_blocks 1) (exact.unit_blocks 3) 2 2 2 2 5 3
        = Returned true ws ∧
        ws ≡ₚ values (tinyBLAS_Q0_AVX.cell_value exact.avx2
                        (exact.unit_blocks 1) (exact.unit_blocks 3) 2 2 2) (grid 5 3).
Proof.
  apply (X17_quantised_values exact.avx2 (exact.unit_blocks 1) (exact.unit_blocks 3)
           2 2 2 2 5 3); try lia.
  intros _. split_and!.
  - intros h _. reflexivity.
  - intros off. simpl. lia.
  - intros off. simpl. lia.
Defined.

Section portable_cells.
Context {F : Type} {fo : float_ops F}.
Context {TA TB : Type} {blkA : block TA} {blkB : block TB}.

Lemma cell_value_portable (tgt1 tgt2 : target) (A : Z → TA) (B : Z → TB)
    (k lda ldb i j : Z) :
  __FMA__ tgt1 = __FMA__ tgt2 →
  (∀ off, decodes (A off)) → (∀ off, decodes (B off)) →
  tinyBLAS_Q0_AVX.cell_value tgt1 A B k lda ldb i j
  = tinyBLAS_Q0_AVX.cell_value tgt2 A B k lda ldb i j.
Proof.
  intros Hfma HA HB. unfold tinyBLAS_Q0_AVX.cell_value. f_equal.
  apply foldl_ext_in. intros acc l _.
  rewrite (udTmp_fallback A B tgt1), (udTmp_fallback A B tgt2) by done.
  unfold madd256. by rewrite Hfma.
Qed.
End portable_cells.


(** * The engines in exact arithmetic *)

Lemma sum_app (l1 l2 : list Z) : sum (l1 ++ l2) = sum l1 + sum l2.
Proof. unfold sum. induction l1 as [|x l1 IH]; simpl; lia. Qed.

Lemma hsum256_sum (x : list Z) : length x = 8%nat → hsum256 x = sum x.
Proof.
  intros Hlen. do 8 (destruct x as [|? x]; [done|]). destruct x; [|done].
  rewrite hsum256_lanes. unfold sum. cbn [foldr fadd exact.ops]. lia.
Qed.

Lemma madd256_sum (tgt : target) (a b c : list Z) :
  length a = 8%nat → length b = 8%nat → length c = 8%nat →
  length (madd256 tgt a b c) = 8%nat ∧
  sum (madd256 tgt a b c) = sum c + sum (zip_with Z.mul a b).
Proof.
  intros Ha Hb Hc.
  do 8 (destruct a as [|? a]; [done|]). destruct a; [|done].
  do 8 (destruct b as [|? b]; [done|]). destruct b; [|done].
  do 8 (destruct c as [|? c]; [done|]). destruct c; [|done].
  unfold madd256, _mm256_fmadd_ps, _mm256_add_ps, _mm256_mul_ps, sum.
  destruct (__FMA__ tgt);
    cbn [zip zip_with foldr length fst snd ffma fadd fmul exact.ops]; (split; [done|lia]).
Qed.

Lemma seqZ_snoc (n : Z) : 0 ≤ n → seqZ 0 (n + 1) = seqZ 0 n ++ [n].
Proof.
  intros Hn. rewrite (seqZ_split n (n + 1)) by lia. f_equal.
  replace (n + 1 - n) with 1 by lia.
  rewrite seqZ_cons by lia. by rewrite seqZ_nil by lia.
Qed.

Lemma sum_seqZ_snoc (f : Z → Z) (n w : Z) :
  0 ≤ n → 0 ≤ w →
  sum (f <$> seqZ 0 (n + w)) = sum (f <$> seqZ 0 n) + sum ((λ t, f (n + t)) <$> seqZ 0 w).
Proof.
  intros Hn Hw. rewrite (seqZ_split n (n + w)) by lia.
  rewrite fmap_app, sum_app. f_equal.
  replace (n + w - n) with w by lia.
  replace (seqZ n w) with (Z.add n <$> seqZ 0 w) by (rewrite fmap_add_seqZ; f_equal; lia).
  by rewrite <-list_fmap_compose.
Qed.

Section exact_fp.
Variables (tgt : target) (A B : Z → Z) (lda ldb i j : Z).

Local Abbreviation step := (λ (acc : list Z) (l : Z),
  madd (vocabulary := avx_f32 tgt)
    (load_a (vocabulary := avx_f32 tgt) A (lda * i + l))
    (load_b (vocabulary := avx_f32 tgt) B (ldb * j + l)) acc).
Local Abbreviation term := (λ l, A (lda * i + l) * B (ldb * j + l)).

Lemma fp_step (acc : list Z) (l : Z) :
  length acc = 8%nat →
  length (step acc l) = 8%nat ∧
  sum (step acc l) = sum acc + sum ((λ t, term (l + t)) <$> seqZ 0 8).
Proof.
  intros Hacc. cbn [madd load_a load_b avx_f32].
  destruct (madd256_sum tgt (_mm256_loadu_ps A (lda * i + l))
              (_mm256_loadu_ps B (ldb * j + l)) acc) as [Hl Hs]; [done..|].
  split; [exact Hl|]. rewrite Hs. f_equal.
  unfold _mm256_loadu_ps, sum.
  change (seqZ 0 8) with [0; 1; 2; 3; 4; 5; 6; 7].
  cbn [fmap list_fmap zip_with foldr]. rewrite !Z.add_assoc. reflexivity.
Qed.

Lemma fp_accumulate (c : nat) :
  let acc := foldl step (zero (vocabulary := avx_f32 tgt))
               ((λ t, 0 + 8 * t) <$> seqZ 0 (Z.of_nat c)) in
  length acc = 8%nat ∧ sum acc = sum (term <$> seqZ 0 (8 * Z.of_nat c)).
Proof.
  induction c as [|c [IHl IHs]]; [by split|]. cbv zeta in *.
  rewrite Nat2Z.inj_succ, <-Z.add_1_r.
  rewrite seqZ_snoc by lia.
  rewrite fmap_app, foldl_app. cbn [fmap list_fmap foldl].
  destruct (fp_step _ (0 + 8 * Z.of_nat c) IHl) as [Hl Hs].
  split; [exact Hl|]. etrans; [exact Hs|]. rewrite IHs.
  replace (8 * (Z.of_nat c + 1)) with (8 * Z.of_nat c + 8) by lia.
  rewrite (sum_seqZ_snoc _ (8 * Z.of_nat c) 8) by lia.
  reflexivity.
Qed.

Lemma fp_cell_value (k : Z) :
  0 ≤ k → k `rem` 8 = 0 →
  tinyBLAS.cell_value (voc := avx_f32 tgt) 8 A B k lda ldb i j = dot A B k lda ldb i j.
Proof.
  intros Hk Hr. unfold tinyBLAS.cell_value, dot.
  rewrite rem_mod in Hr by lia.
  assert (k = 0 + 8 * Z.of_nat (Z.to_nat (k `div` 8))) as Hk8.
  { pose proof (Z.div_mod k 8 ltac:(lia)). pose proof (Z.div_pos k 8 Hk ltac:(lia)). lia. }
  rewrite Hk8 at 1. rewrite range_exact by lia.
  destruct (fp_accumulate (Z.to_nat (k `div` 8))) as [Hl Hs]. cbv zeta in Hl, Hs.
  etrans; [exact (hsum256_sum _ Hl)|]. etrans; [exact Hs|].
  do 3 f_equal. lia.
Qed.
End exact_fp.

(** X19.  The floating point engine computes the matrix product.  With
    exact arithmetic in place of single precision, the value the AVX f32
    instantiation ([KN = 8], loads of eight consecutive floats, [madd],
    [hsum]) gives cell [(i, j)] is the dot product of row [i] of [A] and
    row [j] of [B]: the sum over [l < k] of
    [A[lda * i + l] * B[ldb * j + l]]. *)
Theorem X19_fp_dot_product (tgt : target) (A B : Z → Z) (k lda ldb i j : Z) :
  0 ≤ k → k `rem` 8 = 0 →
  tinyBLAS.cell_value (voc := avx_f32 tgt) 8 A B k lda ldb i j = dot A B k lda ldb i j.
Proof. apply fp_cell_value. Qed.

Lemma X19_fp_dot_product_witness :
  tinyBLAS.cell_value (voc := avx_f32 exact.avx2) 8 (λ off, off + 1) (λ off, 2 * off + 3)
    16 20 18 3 5
  = dot (λ off, off + 1) (λ off, 2 * off + 3) 16 20 18 3 5.
Proof.
  apply (X19_fp_dot_product exact.avx2 (λ off, off + 1) (λ off, 2 * off + 3) 16 20 18 3 5).
  - lia.
  - reflexivity.
Defined.

Lemma dot_groups_sum (n : nat) (a b : list Z) :
  length a = (4 * n)%nat → length b = (4 * n)%nat →
  length (dot_groups a b) = n ∧ sum (dot_groups a b) = block_dot a b.
Proof.
  revert a b. induction n as [|n IH]; intros a b Hla Hlb.
  { destruct a; [|done]. by destruct b. }
  replace (4 * S n)%nat with (S (S (S (S (4 * n))))) in * by lia.
  destruct a as [|a0 [|a1 [|a2 [|a3 a]]]]; try done.
  destruct b as [|b0 [|b1 [|b2 [|b3 b]]]]; try done.
  destruct (IH a b ltac:(simpl in *; lia) ltac:(simpl in *; lia)) as [Hl Hs].
  cbn [dot_groups length]. split; [by rewrite Hl|].
  unfold block_dot, sum in *. cbn [zip_with foldr]. rewrite Hs. lia.
Qed.

Section exact_sums.
Context {F : Type} {fo : float_ops F}.
Hypothesis Hex : exact_arithmetic fo.

Lemma fadd_zero_r (x : F) : fadd x fzero = x.
Proof. rewrite (fadd_comm fo Hex). apply (fadd_zero fo Hex). Qed.

Lemma fadd_interchange (a b c e : F) :
  fadd (fadd a b) (fadd c e) = fadd (fadd a c) (fadd b e).
Proof.
  rewrite <-(fadd_assoc fo Hex a b), (fadd_assoc fo Hex b c e).
  rewrite (fadd_comm fo Hex b c), <-(fadd_assoc fo Hex c b e).
  by rewrite (fadd_assoc fo Hex a c).
Qed.

Lemma fsum_app (l1 l2 : list F) : fsum (l1 ++ l2) = fadd (fsum l1) (fsum l2).
Proof.
  unfold fsum. induction l1 as [|x l1 IH]; simpl.
  - by rewrite (fadd_zero fo Hex).
  - by rewrite IH, (fadd_assoc fo Hex).
Qed.

Lemma fsum_zip_add (l1 l2 : list F) :
  length l1 = length l2 →
  fsum (zip_with fadd l1 l2) = fadd (fsum l1) (fsum l2).
Proof.
  revert l2. induction l1 as [|x l1 IH]; intros [|y l2] Hlen; try done.
  - unfold fsum. simpl. by rewrite (fadd_zero fo Hex).
  - injection Hlen as Hlen. unfold fsum in *. simpl. rewrite IH by done.
    apply fadd_interchange.
Qed.

Lemma fsum_scaled (dd : F) (l : list F) : fsum (fmul dd <$> l) = fmul dd (fsum l).
Proof.
  unfold fsum. induction l as [|x l IH]; csimpl.
  - by rewrite (fmul_zero fo Hex).
  - by rewrite IH, (fmul_fadd fo Hex).
Qed.

Lemma fsum_converted (l : list Z) : fsum (i32_to_f32 <$> l) = i32_to_f32 (sum l).
Proof.
  unfold fsum, sum. induction l as [|x l IH]; csimpl.
  - by rewrite (i32_zero fo Hex).
  - by rewrite IH, (i32_fadd fo Hex).
Qed.

Lemma fsum_zeros (n : nat) : fsum (replicate n fzero) = fzero.
Proof.
  unfold fsum. induction n as [|n IH]; simpl; [done|].
  by rewrite IH, (fadd_zero fo Hex).
Qed.

Lemma hsum256_fsum (x : list F) : length x = 8%nat → hsum256 x = fsum x.
Proof.
  intros Hlen.
  destruct x as [|x0 [|x1 [|x2 [|x3 [|x4 [|x5 [|x6 [|x7 [|? ?]]]]]]]]]; try done.
  rewrite hsum256_lanes.
  change [x0; x1; x2; x3; x4; x5; x6; x7]
    with (([x0; x1] ++ [x2; x3]) ++ ([x4; x5] ++ [x6; x7])).
  rewrite !fsum_app. unfold fsum. simpl. rewrite !fadd_zero_r.
  rewrite (fadd_interchange (fadd x4 x0) (fadd x6 x2) (fadd x5 x1) (fadd x7 x3)).
  rewrite (fadd_interchange x4 x0 x5 x1), (fadd_interchange x6 x2 x7 x3).
  rewrite (fadd_interchange (fadd x4 x5) (fadd x0 x1) (fadd x6 x7) (fadd x2 x3)).
  apply (fadd_comm fo Hex).
Qed.

Lemma madd256_lanes (tgt : target) (a b c : list F) :
  madd256 tgt a b c = zip_with fadd (zip_with fmul a b) c.
Proof.
  unfold madd256. destruct (__FMA__ tgt); [|reflexivity].
  unfold _mm256_fmadd_ps. revert b c.
  induction a as [|x a IH]; intros [|y b] [|z c]; try done.
  simpl. by rewrite IH, (ffma_exact fo Hex).
Qed.

Lemma scaled_madd256_fsum (tgt : target) (dd : F) (g acc : list F) :
  length g = 8%nat → length acc = 8%nat →
  length (madd256 tgt (_mm256_set1_ps dd) g acc) = 8%nat ∧
  fsum (madd256 tgt (_mm256_set1_ps dd) g acc) = fadd (fsum acc) (fmul dd (fsum g)).
Proof.
  intros Hg Hacc. rewrite madd256_lanes. unfold _mm256_set1_ps.
  rewrite zip_with_replicate_l by lia.
  split; [rewrite length_zip_with, length_fmap; lia|].
  rewrite fsum_zip_add by (rewrite length_fmap; lia).
  by rewrite fsum_scaled, (fadd_comm fo Hex).
Qed.
End exact_sums.

Section exact_quantised.
Context {F : Type} {fo : float_ops F}.
Context {TA TB : Type} {blkA : block TA} {blkB : block TB}.
Variables (tgt : target) (A : Z → TA) (B : Z → TB) (lda ldb i j : Z).
Hypothesis Hex : exact_arithmetic fo.
Hypothesis HA : ∀ off, decodes (A off).
Hypothesis HB : ∀ off, decodes (B off).
Hypothesis HB' : ∀ off, Forall (λ y, sint 8 y ≠ -128) (load (B off)).

Local Abbreviation qstep := (λ (acc : list F) (l : Z),
  madd256 tgt
    (_mm256_set1_ps (fmul (unhalf (d (A (lda * i + l)))) (unhalf (d (B (ldb * j + l))))))
    (tinyBLAS_Q0_AVX.udTmp tgt A B (lda * i + l) (ldb * j + l)) acc).
Local Abbreviation qterm := (λ l,
  fmul (fmul (unhalf (d (A (lda * i + l)))) (unhalf (d (B (ldb * j + l)))))
       (i32_to_f32 (block_dot (load (A (lda * i + l))) (load (B (ldb * j + l)))))).

Lemma quantised_step (acc : list F) (l : Z) :
  length acc = 8%nat →
  length (qstep acc l) = 8%nat ∧ fsum (qstep acc l) = fadd (fsum acc) (qterm l).
Proof.
  intros Hacc. cbv beta.
  rewrite (udTmp_fallback A B tgt) by done.
  rewrite updot_sign_fold by (done || apply HA || apply HB).
  destruct (HA (lda * i + l)) as ([HlA _] & _), (HB (ldb * j + l)) as ([HlB _] & _).
  destruct (dot_groups_sum 8 _ _ HlA HlB) as [Hl Hs].
  destruct (scaled_madd256_fsum Hex tgt
              (fmul (unhalf (d (A (lda * i + l)))) (unhalf (d (B (ldb * j + l)))))
              (i32_to_f32 <$> dot_groups (load (A (lda * i + l))) (load (B (ldb * j + l))))
              acc ltac:(by rewrite length_fmap) Hacc) as [Hl' Hs'].
  split; [exact Hl'|]. etrans; [exact Hs'|]. rewrite (fsum_converted Hex), Hs. reflexivity.
Qed.

Lemma quantised_accumulate (k : nat) :
  let acc := foldl qstep _mm256_setzero_ps (seqZ 0 (Z.of_nat k)) in
  length acc = 8%nat ∧ fsum acc = fsum (qterm <$> seqZ 0 (Z.of_nat k)).
Proof.
  induction k as [|k [IHl IHs]].
  { split; [done|]. exact (fsum_zeros Hex 8). }
  cbv zeta in *.
  rewrite Nat2Z.inj_succ, <-Z.add_1_r.
  rewrite seqZ_snoc by lia.
  rewrite foldl_app, fmap_app, (fsum_app Hex). cbn [foldl fmap list_fmap].
  destruct (quantised_step _ (Z.of_nat k) IHl) as [Hl Hs].
  split; [exact Hl|]. etrans; [exact Hs|]. rewrite IHs. f_equal.
  unfold fsum. cbn [foldr]. symmetry. apply (fadd_zero_r Hex).
Qed.

Lemma quantised_cell_value (k : Z) :
  0 ≤ k →
  tinyBLAS_Q0_AVX.cell_value tgt A B k lda ldb i j = fsum (qterm <$> seqZ 0 k).
Proof.
  intros Hk. unfold tinyBLAS_Q0_AVX.cell_value.
  destruct (quantised_accumulate (Z.to_nat k)) as [Hl Hs]. cbv zeta in Hl, Hs.
  rewrite Z2Nat.id in Hl, Hs by lia.
  etrans; [exact (hsum256_fsum Hex _ Hl)|]. exact Hs.
Qed.
End exact_quantised.




(** * Progress of the job loop, and the contents of C *)

Section progress.
Context {F : Type}.
Variables (nth nb_job : Z) (body : Z → option (list (write F))).
Hypothesis Hnth : 0 < nth.
Hypothesis Hbody : ∀ job, 0 ≤ job < nb_job → is_Some (body job).

(** Whatever turns have been taken, the workers can all still leave the
    job loop. *)
Lemma pool_extends (sched : list nat) :
  ∃ sched',
    forallb is_finished
      (workers (foldl (tinyBLAS.worker_step nb_job body) (tinyBLAS.pool_init nth)
                      (sched ++ sched'))) = true.
Proof.
  destruct (run_inv nth nb_job body Hnth Hbody sched _ _
              (pool_init_inv nth nb_job body Hnth)) as [done HI].
  destruct (workers_run_out nth nb_job body Hnth Hbody (seq 0 (Z.to_nat nth)) _ _ HI)
    as (sched' & Hall & _ & done' & HI').
  { intros w Hw. apply elem_of_seq in Hw. lia. }
  exists sched'. rewrite foldl_app.
  apply Is_true_true, forallb_True, Forall_lookup. intros w x Hx.
  rewrite Hall in Hx; [by simplify_eq|].
  apply lookup_lt_Some in Hx. rewrite (inv_workers _ _ _ _ _ HI') in Hx.
  apply elem_of_seq. lia.
Qed.
End progress.

Section fp_progress.
Context {F TA TB : Type} {voc : vocabulary F TA TB}.
Variables (KN nth : Z) (A : Z → TA) (B : Z → TB) (k lda ldb : Z).
Variables (m n : Z).
Hypotheses (Hm : 0 ≤ m) (Hn : 1 ≤ n < 2 ^ 63) (Hnth : 0 < nth).

Lemma gemm_extends (RM RN BM BN : Z) (sched : list nat) :
  1 ≤ RM → 1 ≤ BM → 1 ≤ RN → 1 ≤ BN → m `rem` (RM * BM) = 0 →
  (let xtiles := (n + RN - 1) `quot` RN in 0 ≤ xtiles - (xtiles * RN - n) ≤ xtiles) →
  ∃ sched' ws,
    tinyBLAS.gemm KN nth A B k lda ldb RM RN BM m n BN (sched ++ sched') = Returned () ws.
Proof.
  intros HRM HBM HRN HBN Hmr Hjj.
  destruct (gemm_unfold KN nth A B k lda ldb RM RN BM m n BN
              HRM HBM HRN HBN Hm Hmr ltac:(lia) Hjj [])
    as (nb_job & body & Hbody & _ & Hg).
  destruct (pool_extends nth nb_job body Hnth Hbody sched) as [sched' Hfin].
  exists sched'. rewrite Hg. unfold tinyBLAS.pool_result.
  rewrite (never_failed nth nb_job body Hnth Hbody), Hfin. eauto.
Qed.

Lemma run_extends (RN0 : nat) (BM BN : Z) (sched : list nat) :
  (1 ≤ RN0)%nat → Z.of_nat RN0 < 2 ^ 32 → 1 ≤ BM → 1 ≤ BN → m `rem` (4 * BM) = 0 →
  ∃ sched' ws,
    tinyBLAS.run KN nth A B k lda ldb RN0 BM m n BN (sched ++ sched') = Returned true ws.
Proof.
  intros HRN0 HRN0' HBM HBN Hmr. unfold tinyBLAS.run.
  destruct (BLOCK_SIZE_spec (Z.of_nat RN0) n ltac:(lia) Hn) as (s & -> & Hs & Hx).
  cbv zeta in Hx. rewrite <-quot_div in Hx by lia.
  destruct (gemm_extends 4 s BM BN sched ltac:(lia) HBM ltac:(lia) HBN Hmr
              ltac:(cbv zeta; lia)) as (sched' & ws & Hg).
  exists sched', ws. rewrite mnpack_gemm by lia. by rewrite Hg.
Qed.

Lemma matmul_extends (VR : Z) (sched : list nat) :
  k `rem` KN = 0 → m `rem` 4 = 0 →
  ∃ sched' ws,
    tinyBLAS.matmul KN VR nth A B k lda ldb m n (sched ++ sched') = Returned true ws.
Proof.
  intros Hk H4. unfold tinyBLAS.matmul.
  destruct (decide (k `rem` KN ≠ 0)) as [|_]; [contradiction|].
  assert (Z.of_nat 6 < 2 ^ 32 ∧ Z.of_nat 3 < 2 ^ 32) as [H6 H3] by (split; reflexivity).
  destruct (decide (VR = 32));
    (destruct (decide (m `rem` 16 = 0 ∧ nth ≤ m `quot` 16)) as [[H16 _]|_];
     [apply run_extends; [lia|assumption|lia|lia|exact H16]|]);
    (destruct (decide (m `rem` 8 = 0)) as [H8|_];
     [apply run_extends; [lia|assumption|lia|lia|exact H8]|]);
    (destruct (decide (m `rem` 4 = 0)) as [_|]; [|contradiction]);
    apply run_extends; [lia|assumption|lia|lia|exact H4|lia|assumption|lia|lia|exact H4].
Qed.
End fp_progress.

(** X21.  The job loop cannot get stuck.  Whatever turns the workers of a
    floating point [matmul] have taken at the shared job counter, there is
    a continuation after which every worker has left the loop and the
    call returns [true]: no interleaving leads to a state from which the
    closing barrier cannot be reached. *)
Theorem X21_no_deadlock {F TA TB : Type} {voc : vocabulary F TA TB}
    (KN VR nth : Z) (A : Z → TA) (B : Z → TB) (k lda ldb m n : Z) (sched : list nat) :
  0 ≤ m → 1 ≤ n < 2 ^ 63 → 0 < nth → k `rem` KN = 0 → m `rem` 4 = 0 →
  ∃ sched' ws,
    tinyBLAS.matmul KN VR nth A B k lda ldb m n (sched ++ sched') = Returned true ws.
Proof. intros Hm Hn Hnth Hk H4. by apply matmul_extends. Qed.

Lemma X21_no_deadlock_witness :
  ∃ sched' ws,
    tinyBLAS.matmul (voc := exact.lanes 8) 8 16 3 (λ off, off + 1) (λ off, off + 3)
      8 8 8 16 5 ([2; 2; 0] ++ sched')%nat = Returned true ws.
Proof.
  apply (X21_no_deadlock (voc := exact.lanes 8) 8 16 3 (λ off, off + 1) (λ off, off + 3)
           8 8 8 16 5 [2; 2; 0]%nat);
    [lia | split; [lia|reflexivity] | lia | reflexivity | reflexivity].
Defined.

(** X22.  The column tiles.  For the tile width [RN] that
    [BLOCK_SIZE<M>(n)] returns, [gemm] cuts the [n] columns into
    [xtiles = ceil(n / RN)] tiles of which the first [jj_RN] are [RN] wide
    and the others [RN - 1]: at least one tile is full width, the tiles
    end exactly at column [n], and no tile of width zero is made. *)
Theorem X22_column_tiles (M n : Z) :
  1 ≤ M < 2 ^ 32 → 1 ≤ n < 2 ^ 63 →
  ∃ RN, BLOCK_SIZE M n = Some RN ∧ 1 ≤ RN ≤ M ∧
        let xtiles := (n + RN - 1) `quot` RN in
        let jj_RN := xtiles - (xtiles * RN - n) in
        0 < jj_RN ≤ xtiles ∧ BLOC_POS xtiles jj_RN RN = n ∧ (RN = 1 → jj_RN = xtiles).
Proof.
  intros HM Hn.
  destruct (BLOCK_SIZE_spec M n HM Hn) as (s & Hs & Hs1 & Hx).
  exists s. split; [done|]. split; [done|].
  cbv zeta in *. rewrite quot_div by lia.
  set (xtiles := (n + s - 1) `div` s) in *.
  destruct Hx as [Hx1 Hjj]. split; [done|]. unfold BLOC_POS.
  split; [case_decide; nia|]. intros E.
  assert (xtiles = n) as ->; [|lia].
  subst xtiles. rewrite E. replace (n + 1 - 1) with n by lia. apply Z.div_1_r.
Qed.

Lemma X22_column_tiles_witness :
  ∃ RN, BLOCK_SIZE 6 100 = Some RN ∧ 1 ≤ RN ≤ 6 ∧
        let xtiles := (100 + RN - 1) `quot` RN in
        let jj_RN := xtiles - (xtiles * RN - 100) in
        0 < jj_RN ≤ xtiles ∧ BLOC_POS xtiles jj_RN RN = 100 ∧ (RN = 1 → jj_RN = xtiles).
Proof. apply (X22_column_tiles 6 100); split; (lia || reflexivity). Defined.

Section contents.
Context {F : Type}.

Lemma apply_writes_values (ldc m n : Z) (f : Z → Z → F) (ws : list (write F))
    (C : gmap Z F) :
  m ≤ ldc → ws ≡ₚ values f (grid m n) →
  (∀ i j, 0 ≤ i < m → 0 ≤ j < n →
     apply_writes ldc ws C !! (ldc * j + i) = Some (f i j)) ∧
  (∀ off, (∀ i j, 0 ≤ i < m → 0 ≤ j < n → off ≠ ldc * j + i) →
     apply_writes ldc ws C !! off = C !! off).
Proof.
  intros Hldc Hp.
  assert (cell <$> ws ≡ₚ grid m n) as Hc by (by rewrite Hp, cell_values).
  pose proof (grid_offsets_NoDup ldc m n ws Hldc Hc) as Hnd.
  rewrite apply_writes_map by done.
  set (kv := (λ w : write F, (offset ldc w, w_val w)) <$> ws).
  assert (NoDup kv.*1) as Hnd'.
  { subst kv. by rewrite <-list_fmap_compose. }
  split.
  - intros i j Hi Hj. apply lookup_union_Some_l.
    apply elem_of_list_to_map_1; [done|].
    subst kv. apply list_elem_of_fmap. exists (W i j (f i j)). split; [done|].
    rewrite Hp. unfold values. apply list_elem_of_fmap. exists (i, j).
    split; [done|]. by apply elem_of_cells.
  - intros off Hoff. apply lookup_union_r.
    apply not_elem_of_list_to_map_1. intros Hin.
    subst kv. rewrite <-list_fmap_compose in Hin.
    apply list_elem_of_fmap in Hin as (w & -> & Hw).
    assert (cell w ∈ grid m n) as Hg.
    { rewrite <-Hc. apply list_elem_of_fmap. by exists w. }
    destruct w as [i j v]. unfold cell, grid in Hg. simpl in Hg.
    apply elem_of_cells in Hg. apply (Hoff i j); [lia|lia|reflexivity].
Qed.
End contents.

(** X23.  The matrix after the product.  After a floating point [matmul]
    has returned [true], with [ldc >= m], element [ldc * j + i] of [C]
    holds the value of cell [(i, j)] for every [i < m] and [j < n], and
    every other element of [C], the padding between the columns included,
    is what it was before the call. *)
Theorem X23_matrix_after {F TA TB : Type} {voc : vocabulary F TA TB}
    (KN VR nth : Z) (A : Z → TA) (B : Z → TB) (k lda ldb ldc m n : Z)
    (sched : list nat) (ws : list (write F)) (C : gmap Z F) :
  0 ≤ m → 1 ≤ n < 2 ^ 63 → 0 < nth → m ≤ ldc →
  tinyBLAS.matmul KN VR nth A B k lda ldb m n sched = Returned true ws →
  (∀ i j, 0 ≤ i < m → 0 ≤ j < n →
     apply_writes ldc ws C !! (ldc * j + i)
     = Some (tinyBLAS.cell_value KN A B k lda ldb i j)) ∧
  (∀ off, (∀ i j, 0 ≤ i < m → 0 ≤ j < n → off ≠ ldc * j + i) →
     apply_writes ldc ws C !! off = C !! off).
Proof.
  intros Hm Hn Hnth Hldc Hr. apply apply_writes_values; [done|].
  destruct (decide (k `rem` KN = 0)) as [Hk|Hk];
    [destruct (decide (m `rem` 4 = 0)) as [H4|H4]|].
  - destruct (matmul_serves KN VR nth A B k lda ldb m n Hm Hn Hnth Hk H4) as (Hs & _ & _).
    by destruct (Hs sched true ws Hr).
  - rewrite matmul_rejects in Hr by (try right; assumption). discriminate.
  - rewrite matmul_rejects in Hr by (try left; assumption). discriminate.
Qed.

Lemma X23_matrix_after_witness :
  (∀ i j, 0 ≤ i < 16 → 0 ≤ j < 2 →
     apply_writes 20 exact.f32_by_2 {[ 17 := 4 ]} !! (20 * j + i)
     = Some (tinyBLAS.cell_value (voc := exact.lanes 8) 8
               (as_float (exact.matrix 1)) (as_float (exact.matrix 3)) 8 8 8 i j)) ∧
  (∀ off, (∀ i j, 0 ≤ i < 16 → 0 ≤ j < 2 → off ≠ 20 * j + i) →
     apply_writes 20 exact.f32_by_2 {[ 17 := 4 ]} !! off
     = ({[ 17 := 4 ]} : gmap Z Z) !! off).
Proof.
  apply (X23_matrix_after (voc := exact.lanes 8) 8 16 2
           (as_float (exact.matrix 1)) (as_float (exact.matrix 3)) 8 8 8 20 16 2
           [1; 0; 0; 1]%nat exact.f32_by_2 {[ 17 := 4 ]});
    [lia | split; [lia|reflexivity] | lia | lia | vm_compute; reflexivity].
Defined.

(** X24.  Stores stay inside the matrix.  Every store made by a call of
    the entry point, on any path and target, goes to a row [i < m] of a
    column [j < n], so to an element offset in [0, ldc * n): nothing is
    written before [C] or past its last column. *)
Theorem X24_stores_in_bounds {F : Type} {fo : float_ops F} {vs : vocabularies F}
    (tgt : target) (nth : Z) (sched : list nat) (m n k : Z) (A B : operand F)
    (lda ldb ldc : Z) (Atype Btype Ctype : ggml_type) (b : bool) (ws : list (write F)) :
  n < 2 ^ 63 →
  llamafile_sgemm tgt nth sched m n k A lda B ldb ldc Atype Btype Ctype = Returned b ws →
  Forall (λ w, 0 ≤ w_row w < m ∧ 0 ≤ w_col w < n ∧
               0 ≤ ldc * w_col w + w_row w < ldc * n) ws.
Proof.
  intros Hn63 Hr. apply Forall_forall. intros w Hw.
  destruct (sgemm_covers tgt m n k A B lda ldb ldc Atype Btype Ctype Hn63)
    as (ok & ref & Href & H).
  destruct (sgemm_returned_pre _ _ _ _ _ _ _ _ _ _ _ _ _ _ _ _ Hr)
    as (Hm & Hn & _ & _ & _ & Hldc & Hnth).
  destruct (H nth sched b ws Hnth Hr) as [_ Hws].
  destruct b; [|subst; by apply elem_of_nil in Hw].
  assert (cell w ∈ grid m n) as Hg.
  { rewrite <-Href, <-Hws. apply list_elem_of_fmap. by exists w. }
  destruct w as [i j v]. unfold cell, grid in Hg. simpl in Hg.
  apply elem_of_cells in Hg. simpl. nia.
Qed.

Lemma X24_stores_in_bounds_witness :
  Forall (λ w, 0 ≤ w_row w < 5 ∧ 0 ≤ w_col w < 3 ∧
               0 ≤ 5 * w_col w + w_row w < 5 * 3) exact.q5_0_stores.
Proof.
  apply (X24_stores_in_bounds exact.avx2 2 [] 5 3 2 (exact.matrix 1) (exact.matrix 3)
           2 2 5 GGML_TYPE_Q5_0 GGML_TYPE_Q8_0 GGML_TYPE_F32 true exact.q5_0_stores).
  - reflexivity.
  - vm_compute. reflexivity.
Defined.
